(** * war_gaming: the simulation core, embedded and verified

    The TypeScript core of the repository (simulation clock, impulsive
    maneuvers, minimum separation, task allocation, objective steering and
    completion, orbit conversions and the Kepler propagator) is embedded
    function by function, and the properties of the specification are
    stated over the embedding.

    Numbers.  A TypeScript [number] is an IEEE-754 binary64 value, and the
    code is embedded over the primitive binary64 floats ([float]), so that
    every definition evaluates and NaN, signed zeros and rounding are part
    of the model.  [+ - * / %], [Math.sqrt], [Math.max], [Math.min],
    [Math.abs], [Math.floor], [Math.ceil], [isFinite] and the comparisons
    are fixed bit for bit by IEEE-754 and ECMAScript, and are embedded as
    such.  [Math.sin], [Math.cos], [Math.cbrt], [Math.acos] and
    [Math.atan2] are implementation-approximated in ECMAScript: they are the
    functions of a [MathLibrary] and of an [ArcLibrary], over which the
    orbit module and the formations are parameterized.  What a theorem
    needs of a library it states as a hypothesis; the examples that
    evaluate the orbit module do so with sines and cosines rounded to
    nearest.

    Mutation.  [allocateTasks], [updateObjectiveState] and
    [enforceMinimumSeparation] update their array argument in place; the
    embedding passes the array in and returns the updated array.  The arrays
    hold one distinct object per slot (the callers build them with
    [objectives.map(obj => ({...obj}))] and fresh [{delta: [...]}] literals),
    so a slot is a value and no two slots alias.

    Further code.  The local frame, the swarm behaviours and formations,
    [computeSwarmForces], the agent store, the task store and the parts of
    the frame callback that call them are embedded as well.  A store action
    is a function from the state of the store to its next state. *)

From Stdlib Require Import ZArith List String Bool Lia Floats.
Import ListNotations.

Set Warnings "-inexact-float".

(** ** JavaScript numbers and [Math] on binary64 floats *)

Module JS.

Open Scope float_scope.

(** [Math.max(a, b)]: NaN if either argument is NaN, and [+0] is larger
    than [-0]. *)
Definition Math_max (a b : float) : float :=
  if is_nan a || is_nan b then nan
  else if a <? b then b
  else if b <? a then a
  else if is_zero a && get_sign a then b else a.

(** [Math.min(a, b)]: NaN if either argument is NaN, and [-0] is smaller
    than [+0]. *)
Definition Math_min (a b : float) : float :=
  if is_nan a || is_nan b then nan
  else if a <? b then a
  else if b <? a then b
  else if is_zero a && get_sign a then a else b.

Definition Math_sqrt (x : float) : float := PrimFloat.sqrt x.

(** A three-element array of numbers, [[number, number, number]]. *)
Definition vec3 : Type := (float * float * float)%type.

(** Two numbers are the same value up to the sign of zero: either the very
    same float (this includes NaN) or equal for [===]. *)
Definition same_number (x y : float) : Prop := x = y \/ (x =? y) = true.

Definition same_vec3 (u v : vec3) : Prop :=
  let '(u0, u1, u2) := u in
  let '(v0, v1, v2) := v in
  same_number u0 v0 /\ same_number u1 v1 /\ same_number u2 v2.

End JS.

(** ** sim/orbit/types.ts, scenario/types.ts, render/Agents.types.ts *)

Module Types.
Import JS.

Record CartesianState : Type := mkCartesianState {
  position : vec3;
  velocity : vec3
}.

Inductive FormationType : Type := NONE | RING | PLANE | LATTICE.

Record BehaviorFlags : Type := mkBehaviorFlags {
  cohesion : bool;
  separation : bool;
  alignment : bool;
  formation : option FormationType
}.

Inductive Team : Type := friendly | enemy.

Record Agent : Type := mkAgent {
  agent_id : string;
  state : CartesianState;
  behaviors : BehaviorFlags;
  team : Team;
  dvRemaining : float;
  selected : option bool;
  hovered : option bool
}.

End Types.

(** ** sim/SimClock.ts *)

Module SimClock.
Import JS.
Open Scope float_scope.

Record SimClockState : Type := mkSimClockState {
  paused : bool;
  timeScale : float;
  simTime : float;
  seed : string;
  stepDelta : float
}.

Definition with_paused (b : bool) (s : SimClockState) : SimClockState :=
  mkSimClockState b (timeScale s) (simTime s) (seed s) (stepDelta s).

Definition with_timeScale (x : float) (s : SimClockState) : SimClockState :=
  mkSimClockState (paused s) x (simTime s) (seed s) (stepDelta s).

Definition with_simTime (x : float) (s : SimClockState) : SimClockState :=
  mkSimClockState (paused s) (timeScale s) x (seed s) (stepDelta s).

Definition pause (s : SimClockState) : SimClockState := with_paused true s.
Definition play (s : SimClockState) : SimClockState := with_paused false s.
Definition toggle (s : SimClockState) : SimClockState :=
  with_paused (negb (paused s)) s.

(** [setTimeScale(scale)]: clamp, store, then the pause test on the stored
    value. *)
Definition setTimeScale (scale : float) (s : SimClockState) : SimClockState :=
  let s1 := with_timeScale (Math_max 0.1 (Math_min 100 scale)) s in
  if timeScale s1 =? 0 then with_paused true s1 else s1.

(** [step()]: the new state and the returned delta. *)
Definition step (s : SimClockState) : SimClockState * float :=
  let delta := stepDelta s in
  (with_simTime (simTime s + delta) s, delta).

(** [update(frameDelta)]: the new state and the returned simulation delta. *)
Definition update (frameDelta : float) (s : SimClockState)
  : SimClockState * float :=
  if paused s || (timeScale s =? 0) then (s, 0)
  else
    let simDelta := frameDelta * timeScale s in
    (with_simTime (simTime s + simDelta) s, simDelta).

End SimClock.

(** ** sim/maneuvers/deltaV.ts *)

Module DeltaV.
Import JS Types.
Open Scope float_scope.

(** The two [throw new Error(...)] sites of [applyDeltaV]. *)
Inductive DeltaVError : Type :=
| NegativeBudget
| BudgetExceeded.

Record DeltaVResult : Type := mkDeltaVResult {
  newState : CartesianState;
  newDvRemaining : float
}.

Definition applyDeltaV (state : CartesianState) (dvVector : vec3)
    (dvRemaining : float) : DeltaVError + DeltaVResult :=
  if dvRemaining <? 0 then inl NegativeBudget
  else
    let '(dvx, dvy, dvz) := dvVector in
    let dvMagnitude := Math_sqrt (dvx * dvx + dvy * dvy + dvz * dvz) in
    if dvRemaining <? dvMagnitude then inl BudgetExceeded
    else
      let '(vx, vy, vz) := velocity state in
      let newVelocity := (vx + dvx, vy + dvy, vz + dvz) in
      let newDvRemaining := Math_max 0 (dvRemaining - dvMagnitude) in
      inr (mkDeltaVResult
             (mkCartesianState (position state) newVelocity)
             newDvRemaining).

End DeltaV.

(** ** sim/swarm/types.ts and [enforceMinimumSeparation] *)

Module Swarm.
Import JS Types.
Open Scope float_scope.

Record BehaviorParams : Type := mkBehaviorParams {
  cohesionWeight : float;
  separationWeight : float;
  alignmentWeight : float;
  neighborRadius : float;
  minSeparation : float;
  formationWeight : float
}.

Definition DEFAULT_BEHAVIOR_PARAMS : BehaviorParams :=
  mkBehaviorParams 0.1 1.0 0.5 50000 1000 0.3.

Record VelocityAdjustment : Type := mkVelocityAdjustment { delta : vec3 }.

(** [l[i] = x] on an array known to hold index [i]. *)
Fixpoint set_nth {A : Type} (i : nat) (x : A) (l : list A) : list A :=
  match l, i with
  | [], _ => []
  | _ :: rest, O => x :: rest
  | y :: rest, S i' => y :: set_nth i' x rest
  end.

(** The body of the inner loop for the pair [(i, j)]: [p] is
    [agents[i].state.position] and [o] is [agents[j].state.position].
    [None] is the [TypeError] raised by [adjustments[k]!.delta] when the
    array has no element [k]. *)
Definition pairStep (params : BehaviorParams) (minSepSq : float)
    (p o : vec3) (i j : nat) (adjustments : list VelocityAdjustment)
  : option (list VelocityAdjustment) :=
  let '(px, py, pz) := p in
  let '(ox, oy, oz) := o in
  let dx := px - ox in
  let dy := py - oy in
  let dz := pz - oz in
  let distSq := dx * dx + dy * dy + dz * dz in
  if (distSq <? minSepSq) && (1e-12 <? distSq) then
    let dist := Math_sqrt distSq in
    let repulsionStrength :=
      (minSeparation params - dist) / minSeparation params in
    let repulsionWeight := separationWeight params * repulsionStrength * 10 in
    let dirX := dx / dist in
    let dirY := dy / dist in
    let dirZ := dz / dist in
    match nth_error adjustments i with
    | None => None
    | Some ai =>
      let '(a0, a1, a2) := delta ai in
      let adjustments1 :=
        set_nth i (mkVelocityAdjustment
                     (a0 + dirX * repulsionWeight,
                      a1 + dirY * repulsionWeight,
                      a2 + dirZ * repulsionWeight)) adjustments in
      match nth_error adjustments1 j with
      | None => None
      | Some aj =>
        let '(b0, b1, b2) := delta aj in
        Some (set_nth j (mkVelocityAdjustment
                           (b0 - dirX * repulsionWeight,
                            b1 - dirY * repulsionWeight,
                            b2 - dirZ * repulsionWeight)) adjustments1)
      end
    end
  else Some adjustments.

(** [for (let j = i + 1; j < agents.length; j++)]: [others] is
    [agents.slice(j)]. *)
Fixpoint innerLoop (params : BehaviorParams) (minSepSq : float) (p : vec3)
    (i j : nat) (others : list Agent) (adjustments : list VelocityAdjustment)
  : option (list VelocityAdjustment) :=
  match others with
  | [] => Some adjustments
  | other :: rest =>
    match pairStep params minSepSq p (position (state other)) i j adjustments
    with
    | None => None
    | Some adjustments' =>
      innerLoop params minSepSq p i (S j) rest adjustments'
    end
  end.

(** [for (let i = 0; i < agents.length; i++)]: [agents] is
    [agents.slice(i)]. *)
Fixpoint outerLoop (params : BehaviorParams) (minSepSq : float) (i : nat)
    (agents : list Agent) (adjustments : list VelocityAdjustment)
  : option (list VelocityAdjustment) :=
  match agents with
  | [] => Some adjustments
  | agent :: rest =>
    match innerLoop params minSepSq (position (state agent)) i (S i) rest
            adjustments
    with
    | None => None
    | Some adjustments' => outerLoop params minSepSq (S i) rest adjustments'
    end
  end.

Definition enforceMinimumSeparation (agents : list Agent)
    (adjustments : list VelocityAdjustment) (params : BehaviorParams)
  : option (list VelocityAdjustment) :=
  let minSepSq := minSeparation params * minSeparation params in
  outerLoop params minSepSq 0 agents adjustments.

End Swarm.

(** ** Minimum separation, pair by pair (the words of the specification) *)

Module SeparationSpec.
Import JS Types Swarm.
Open Scope float_scope.

(** The repulsive adjustment of a pair at positions [p] and [o]: none when
    the pair is not closer than [minSeparation] or not further than the
    numerical floor (both tested on the squared distance, as the code does);
    otherwise the unit vector from [o] to [p] scaled by
    [separationWeight * ((minSeparation - distance) / minSeparation) * 10]. *)
Definition repulsion (params : BehaviorParams) (p o : vec3) : option vec3 :=
  let '(px, py, pz) := p in
  let '(ox, oy, oz) := o in
  let dx := px - ox in
  let dy := py - oy in
  let dz := pz - oz in
  let distSq := dx * dx + dy * dy + dz * dz in
  if (distSq <? minSeparation params * minSeparation params)
     && (1e-12 <? distSq)
  then
    let dist := Math_sqrt distSq in
    let weight :=
      separationWeight params
      * ((minSeparation params - dist) / minSeparation params) * 10 in
    Some (dx / dist * weight, dy / dist * weight, dz / dist * weight)
  else None.

(** An adjustment plus, and minus, a vector. *)
Definition pushed (a : VelocityAdjustment) (c : vec3) : VelocityAdjustment :=
  let '(a0, a1, a2) := delta a in
  let '(c0, c1, c2) := c in
  mkVelocityAdjustment (a0 + c0, a1 + c1, a2 + c2).

Definition pulled (a : VelocityAdjustment) (c : vec3) : VelocityAdjustment :=
  let '(a0, a1, a2) := delta a in
  let '(c0, c1, c2) := c in
  mkVelocityAdjustment (a0 - c0, a1 - c1, a2 - c2).

(** The index pairs [i < j < n] in the order the two loops visit them. *)
Definition separationPairs (n : nat) : list (nat * nat) :=
  flat_map (fun i => map (pair i) (seq (S i) (n - S i))) (seq 0 n).

(** The loop body on the pair [(i, j)] of the array [agents]. *)
Definition processPair (agents : list Agent) (params : BehaviorParams)
    (ij : nat * nat) (adjustments : list VelocityAdjustment)
  : option (list VelocityAdjustment) :=
  match nth_error agents (fst ij), nth_error agents (snd ij) with
  | Some a, Some b =>
    pairStep params (minSeparation params * minSeparation params)
      (position (state a)) (position (state b)) (fst ij) (snd ij) adjustments
  | _, _ => Some adjustments
  end.

(** The loop body on a list of pairs, one after the other. *)
Fixpoint processPairs (agents : list Agent) (params : BehaviorParams)
    (pairs : list (nat * nat)) (adjustments : list VelocityAdjustment)
  : option (list VelocityAdjustment) :=
  match pairs with
  | [] => Some adjustments
  | ij :: rest =>
    match processPair agents params ij adjustments with
    | None => None
    | Some adjustments' => processPairs agents params rest adjustments'
    end
  end.

End SeparationSpec.

(** ** sim/tasks/types.ts, sim/tasks/allocation.ts, sim/tasks/steering.ts *)

Module Tasks.
Import JS Types.
Open Scope float_scope.

Record BaseObjective : Type := mkBaseObjective {
  objective_id : string;
  objective_position : vec3;
  points : float;
  completed : bool
}.

(** The union [Objective], discriminated by its [type] field. *)
Inductive Objective : Type :=
| InspectPointObjective (base : BaseObjective)
    (threshold : float) (vThreshold : option float)
| RelayNodeObjective (base : BaseObjective)
    (holdDuration threshold : float)
    (assignedAgentId : option string) (startTime : option float)
| HoldFormationZoneObjective (base : BaseObjective)
    (radius : float) (requiredAgents : Z) (assignedAgentIds : list string).

Definition base (o : Objective) : BaseObjective :=
  match o with
  | InspectPointObjective b _ _ => b
  | RelayNodeObjective b _ _ _ _ => b
  | HoldFormationZoneObjective b _ _ _ => b
  end.

Definition is_completed (o : Objective) : bool := completed (base o).

(** [objective.id]. *)
Definition oid (o : Objective) : string := objective_id (base o).

(** [objective.completed = true]. *)
Definition set_completed (b : BaseObjective) : BaseObjective :=
  mkBaseObjective (objective_id b) (objective_position b) (points b) true.

Record ObjectiveSteeringParams : Type := mkObjectiveSteeringParams {
  objectiveWeight : float
}.

Definition DEFAULT_OBJECTIVE_STEERING_PARAMS : ObjectiveSteeringParams :=
  mkObjectiveSteeringParams 0.5.

Definition distance (pos1 pos2 : vec3) : float :=
  let '(x1, y1, z1) := pos1 in
  let '(x2, y2, z2) := pos2 in
  let dx := x2 - x1 in
  let dy := y2 - y1 in
  let dz := z2 - z1 in
  Math_sqrt (dx * dx + dy * dy + dz * dz).

(** [Set<string>] used through [has] and [add] only. *)
Definition StringSet : Type := list string.

Definition has (s : StringSet) (x : string) : bool :=
  existsb (String.eqb x) s.

Definition add (x : string) (s : StringSet) : StringSet :=
  if has s x then s else x :: s.

(** [array.includes(x)] on an array of strings. *)
Definition includes (l : list string) (x : string) : bool :=
  existsb (String.eqb x) l.

(** Truthiness of a [string | null]: [null] and the empty string are falsy. *)
Definition truthy (s : option string) : bool :=
  match s with
  | Some a => negb (String.eqb a EmptyString)
  | None => false
  end.

(** [agents.find((a) => a.id === id)]. *)
Definition findAgent (agents : list Agent) (id : string) : option Agent :=
  find (fun a => String.eqb (agent_id a) id) agents.

Fixpoint findNearestAgent_from (agents : list Agent) (pos : vec3)
    (excludeAgentIds : StringSet)
    (nearestAgent : option Agent) (nearestDistance : float) : option Agent :=
  match agents with
  | [] => nearestAgent
  | agent :: rest =>
    if has excludeAgentIds (agent_id agent) then
      findNearestAgent_from rest pos excludeAgentIds
        nearestAgent nearestDistance
    else
      let dist := distance (position (state agent)) pos in
      if dist <? nearestDistance then
        findNearestAgent_from rest pos excludeAgentIds (Some agent) dist
      else
        findNearestAgent_from rest pos excludeAgentIds
          nearestAgent nearestDistance
  end.

Definition findNearestAgent (agents : list Agent) (pos : vec3)
    (excludeAgentIds : StringSet) : option Agent :=
  findNearestAgent_from agents pos excludeAgentIds None infinity.

Definition findAgentsInRadius (agents : list Agent) (pos : vec3)
    (radius : float) (excludeAgentIds : StringSet) : list Agent :=
  filter (fun agent =>
            if has excludeAgentIds (agent_id agent) then false
            else distance (position (state agent)) pos <=? radius)
         agents.

(** [for (const agent of agentsInZone)] of the zone case. *)
Fixpoint addAgentsInZone (agentsInZone : list Agent)
    (ids : list string) (assigned : StringSet) : list string * StringSet :=
  match agentsInZone with
  | [] => (ids, assigned)
  | agent :: rest =>
    let ids' :=
      if includes ids (agent_id agent) then ids
      else ids ++ [agent_id agent] in
    addAgentsInZone rest ids' (add (agent_id agent) assigned)
  end.

(** [for (let i = 0; i < neededAgents; i++)] of the zone case, with its
    [break]. *)
Fixpoint assignNearest (neededAgents : nat) (agents : list Agent)
    (pos : vec3) (ids : list string) (assigned : StringSet)
  : list string * StringSet :=
  match neededAgents with
  | O => (ids, assigned)
  | S n =>
    match findNearestAgent agents pos assigned with
    | Some nearest =>
      assignNearest n agents pos (ids ++ [agent_id nearest])
        (add (agent_id nearest) assigned)
    | None => (ids, assigned)
    end
  end.

(** One iteration of the loop of [allocateTasks]: the objective after the
    iteration and the set [assignedAgentIds] after it. *)
Definition allocateObjective (agents : list Agent)
    (assignedAgentIds : StringSet) (objective : Objective)
  : Objective * StringSet :=
  if is_completed objective then (objective, assignedAgentIds)
  else
    match objective with
    | InspectPointObjective b _ _ =>
      match findNearestAgent agents (objective_position b) assignedAgentIds
      with
      | Some nearest => (objective, add (agent_id nearest) assignedAgentIds)
      | None => (objective, assignedAgentIds)
      end
    | RelayNodeObjective b hold thr assignedAgentId start =>
      let assignNearestTo (current : option string) :=
        match findNearestAgent agents (objective_position b) assignedAgentIds
        with
        | Some nearest =>
          (RelayNodeObjective b hold thr (Some (agent_id nearest)) start,
           add (agent_id nearest) assignedAgentIds)
        | None =>
          (RelayNodeObjective b hold thr current start, assignedAgentIds)
        end in
      match assignedAgentId with
      | Some a =>
        if truthy assignedAgentId then
          match findAgent agents a with
          | Some _ => (objective, add a assignedAgentIds)
          | None => assignNearestTo None
          end
        else assignNearestTo assignedAgentId
      | None => assignNearestTo assignedAgentId
      end
    | HoldFormationZoneObjective b radius required ids =>
      let ids1 :=
        filter (fun id =>
                  existsb (fun a => String.eqb (agent_id a) id) agents) ids in
      let agentsInZone :=
        findAgentsInRadius agents (objective_position b) radius [] in
      let '(ids2, assigned2) :=
        addAgentsInZone agentsInZone ids1 assignedAgentIds in
      let neededAgents := (required - Z.of_nat (List.length ids2))%Z in
      let '(ids3, assigned3) :=
        if (0 <? neededAgents)%Z then
          assignNearest (Z.to_nat neededAgents) agents
            (objective_position b) ids2 assigned2
        else (ids2, assigned2) in
      (HoldFormationZoneObjective b radius required ids3, assigned3)
    end.

Fixpoint allocateTasks_from (agents : list Agent)
    (assignedAgentIds : StringSet) (objectives : list Objective)
  : list Objective :=
  match objectives with
  | [] => []
  | objective :: rest =>
    let '(objective', assignedAgentIds') :=
      allocateObjective agents assignedAgentIds objective in
    objective' :: allocateTasks_from agents assignedAgentIds' rest
  end.

(** [allocateTasks(agents, objectives)]: the array after the call. *)
Definition allocateTasks (agents : list Agent) (objectives : list Objective)
  : list Objective :=
  allocateTasks_from agents [] objectives.

(** The [for (const agent of agents)] loop of the inspect-point case, with
    its [break]: is some agent close and slow enough. *)
Fixpoint inspectedBy (agents : list Agent) (pos : vec3)
    (threshold : float) (vThreshold : option float) : bool :=
  match agents with
  | [] => false
  | agent :: rest =>
    let dist := distance (position (state agent)) pos in
    if dist <=? threshold then
      let vThreshold' :=
        match vThreshold with Some v => v | None => 10 end in
      let '(vx, vy, vz) := velocity (state agent) in
      let relativeSpeed := Math_sqrt (vx * vx + vy * vy + vz * vz) in
      if relativeSpeed <=? vThreshold' then true
      else inspectedBy rest pos threshold vThreshold
    else inspectedBy rest pos threshold vThreshold
  end.

(** One iteration of the loop of [updateObjectiveState]: the objective
    after the iteration and the ids pushed on [newlyCompleted]. *)
Definition updateObjective (agents : list Agent) (simTime : float)
    (objective : Objective) : Objective * list string :=
  if is_completed objective then (objective, [])
  else
    match objective with
    | InspectPointObjective b thr vthr =>
      if inspectedBy agents (objective_position b) thr vthr then
        (InspectPointObjective (set_completed b) thr vthr, [objective_id b])
      else (objective, [])
    | RelayNodeObjective b hold thr assignedAgentId start =>
      if negb (truthy assignedAgentId) then (objective, [])
      else
        match assignedAgentId with
        | None => (objective, [])
        | Some a =>
          match findAgent agents a with
          | None => (RelayNodeObjective b hold thr None None, [])
          | Some assignedAgent =>
            let dist :=
              distance (position (state assignedAgent))
                (objective_position b) in
            if dist <=? thr then
              match start with
              | None =>
                (RelayNodeObjective b hold thr assignedAgentId (Some simTime),
                 [])
              | Some startTime =>
                let elapsed := simTime - startTime in
                if hold <=? elapsed then
                  (RelayNodeObjective (set_completed b) hold thr
                     assignedAgentId start,
                   [objective_id b])
                else (objective, [])
              end
            else (RelayNodeObjective b hold thr assignedAgentId None, [])
          end
        end
    | HoldFormationZoneObjective b radius required ids =>
      let agentsInZone :=
        findAgentsInRadius agents (objective_position b) radius [] in
      if (required <=? Z.of_nat (List.length agentsInZone))%Z then
        (HoldFormationZoneObjective (set_completed b) radius required ids,
         [objective_id b])
      else (objective, [])
    end.

(** [updateObjectiveState(objectives, agents, simTime)]: the array after
    the call and the returned [newlyCompleted]. *)
Fixpoint updateObjectiveState (objectives : list Objective)
    (agents : list Agent) (simTime : float)
  : list Objective * list string :=
  match objectives with
  | [] => ([], [])
  | objective :: rest =>
    let '(objective', pushed) := updateObjective agents simTime objective in
    let '(rest', newlyCompleted) :=
      updateObjectiveState rest agents simTime in
    (objective' :: rest', pushed ++ newlyCompleted)
  end.

(** One iteration of the loop of [computeObjectiveSteering]: the value of
    [targetObjective] after the iteration. *)
Definition nextTarget (agent : Agent) (targetObjective : option Objective)
    (objective : Objective) : option Objective :=
  if is_completed objective then targetObjective
  else
    match objective with
    | InspectPointObjective b _ _ =>
      let dist := distance (position (state agent)) (objective_position b) in
      match targetObjective with
      | None => Some objective
      | Some target =>
        let currentDist :=
          distance (position (state agent))
            (objective_position (base target)) in
        if dist <? currentDist then Some objective else targetObjective
      end
    | RelayNodeObjective _ _ _ assignedAgentId _ =>
      match assignedAgentId with
      | Some a =>
        if String.eqb a (agent_id agent) then Some objective
        else targetObjective
      | None => targetObjective
      end
    | HoldFormationZoneObjective _ _ _ ids =>
      if includes ids (agent_id agent) then Some objective
      else targetObjective
    end.

Definition selectTarget (agent : Agent) (objectives : list Objective)
  : option Objective :=
  fold_left (nextTarget agent) objectives None.

Definition computeObjectiveSteering (agent : Agent)
    (objectives : list Objective) (params : ObjectiveSteeringParams)
  : Swarm.VelocityAdjustment :=
  match selectTarget agent objectives with
  | None => Swarm.mkVelocityAdjustment (0, 0, 0)
  | Some targetObjective =>
    let '(ax, ay, az) := position (state agent) in
    let '(ox, oy, oz) := objective_position (base targetObjective) in
    let dx := ox - ax in
    let dy := oy - ay in
    let dz := oz - az in
    let dist := Math_sqrt (dx * dx + dy * dy + dz * dz) in
    if dist <? 1e-6 then Swarm.mkVelocityAdjustment (0, 0, 0)
    else
      let dirX := dx / dist in
      let dirY := dy / dist in
      let dirZ := dz / dist in
      let weight := objectiveWeight params in
      Swarm.mkVelocityAdjustment
        (dirX * weight, dirY * weight, dirZ * weight)
  end.

End Tasks.

(** ** Objective steering: which objective an agent is tied to (the words of
    the specification) *)

Module SteeringSpec.
Import JS Types Tasks.
Open Scope float_scope.

Definition isInspectPoint (o : Objective) : bool :=
  match o with
  | InspectPointObjective _ _ _ => true
  | _ => false
  end.

(** The agent is explicitly assigned to the relay node or to the zone. *)
Definition assignedTo (agent : Agent) (o : Objective) : bool :=
  match o with
  | InspectPointObjective _ _ _ => false
  | RelayNodeObjective _ _ _ assignedAgentId _ =>
    match assignedAgentId with
    | Some a => String.eqb a (agent_id agent)
    | None => false
    end
  | HoldFormationZoneObjective _ _ _ ids => includes ids (agent_id agent)
  end.

Definition distanceTo (agent : Agent) (o : Objective) : float :=
  distance (position (state agent)) (objective_position (base o)).

(** [o] is a nearest uncompleted inspect point of the array for the agent:
    no uncompleted inspect point is strictly closer. *)
Definition nearestInspectPoint (agent : Agent) (objectives : list Objective)
    (o : Objective) : Prop :=
  In o objectives /\ is_completed o = false /\ isInspectPoint o = true /\
  forall o', In o' objectives -> is_completed o' = false ->
    isInspectPoint o' = true ->
    (distanceTo agent o' <? distanceTo agent o) = false.

End SteeringSpec.

(** ** The tick loop that drives the task functions (the per-frame loop of the agents component) *)

Module Driver.
Import JS Types Tasks.
Open Scope float_scope.

(** One call on the objective array. *)
Inductive Call : Type :=
| Allocate (agents : list Agent)
| Update (agents : list Agent) (simTime : float).

(** The array after a call, and what the call returned ([allocateTasks]
    returns nothing, [updateObjectiveState] returns [newlyCompleted]). *)
Definition perform (c : Call) (objectives : list Objective)
  : list Objective * option (list string) :=
  match c with
  | Allocate agents => (allocateTasks agents objectives, None)
  | Update agents simTime =>
    let '(objectives', newlyCompleted) :=
      updateObjectiveState objectives agents simTime in
    (objectives', Some newlyCompleted)
  end.

(** A sequence of calls on the same array: the final array and the value
    returned by each call, in order. *)
Fixpoint run (calls : list Call) (objectives : list Objective)
  : list Objective * list (option (list string)) :=
  match calls with
  | [] => (objectives, [])
  | c :: rest =>
    let '(objectives1, returned) := perform c objectives in
    let '(objectives2, returns) := run rest objectives1 in
    (objectives2, returned :: returns)
  end.

(** In how many of the calls was [id] returned as newly completed. *)
Definition emissions (id : string) (returns : list (option (list string)))
  : nat :=
  List.length
    (filter (fun r => match r with
                      | Some ids => includes ids id
                      | None => false
                      end) returns).

(** Successive [updateObjectiveState] calls, one per tick, each with the
    agents as they are at that tick: what every call returned. *)
Fixpoint ticks (schedule : list (list Agent * float))
    (objectives : list Objective) : list (list string) :=
  match schedule with
  | [] => []
  | (agents, simTime) :: rest =>
    let '(objectives', newlyCompleted) :=
      updateObjectiveState objectives agents simTime in
    newlyCompleted :: ticks rest objectives'
  end.

End Driver.

(** ** Sample agents and objectives used by the examples *)

Module Samples.
Import JS Types Tasks.
Open Scope float_scope.

Definition agentAt (id : string) (pos vel : vec3) : Agent :=
  mkAgent id (mkCartesianState pos vel)
    (mkBehaviorFlags false false false None) friendly 1000 None None.

(** The relay node of the specification's scenario: threshold 1000 m, hold
    duration 30 s, assigned to [sat-1]. *)
Definition relay : Objective :=
  RelayNodeObjective (mkBaseObjective "relay-1" (0, 0, 0) 100 false)
    30 1000 (Some "sat-1"%string) None.

(** [sat-1] 600 m from the relay node, and 1500 m from it. *)
Definition inside : list Agent := [agentAt "sat-1" (600, 0, 0) (0, 0, 0)].
Definition outside : list Agent := [agentAt "sat-1" (1500, 0, 0) (0, 0, 0)].

(** The agent enters the threshold at t = 10 s and stays. *)
Definition stays : list (list Agent * float) :=
  [(outside, 0); (inside, 10); (inside, 20); (inside, 30); (inside, 39.5);
   (inside, 40); (inside, 41)].

(** The agent enters at t = 10 s, is outside at t = 25 s and inside again
    from t = 30 s. *)
Definition leaves : list (list Agent * float) :=
  [(outside, 0); (inside, 10); (inside, 20); (outside, 25); (inside, 30);
   (inside, 40); (inside, 50); (inside, 59.5); (inside, 60); (inside, 61)].

(** A busy tick for [sat-1], at the origin: an inspect point 50 m away,
    then the relay node it is assigned to, 100 m away, then a second inspect
    point 80 m away, in this order in the array. *)
Definition sat1 : Agent := agentAt "sat-1" (0, 0, 0) (0, 0, 0).

Definition inspectNear : Objective :=
  InspectPointObjective
    (mkBaseObjective "inspect-near" (0, 50, 0) 10 false) 5 None.

Definition relayAssigned : Objective :=
  RelayNodeObjective (mkBaseObjective "relay-2" (100, 0, 0) 100 false)
    30 10 (Some "sat-1"%string) None.

Definition inspectFar : Objective :=
  InspectPointObjective
    (mkBaseObjective "inspect-far" (0, 0, 80) 10 false) 5 None.

Definition busy : list Objective := [inspectNear; relayAssigned; inspectFar].

(** Three agents on a line: the first two 500 m apart, the third 5 km
    further, and one zero adjustment for each. *)
Definition trio : list Agent :=
  [agentAt "sat-1" (7000500, 0, 0) (0, 7500, 0);
   agentAt "sat-2" (7000000, 0, 0) (0, 7500, 0);
   agentAt "sat-3" (7005500, 0, 0) (0, 7500, 0)].

Definition still : list Swarm.VelocityAdjustment :=
  [Swarm.mkVelocityAdjustment (0, 0, 0);
   Swarm.mkVelocityAdjustment (0, 0, 0);
   Swarm.mkVelocityAdjustment (0, 0, 0)].

(** The calls of four ticks on the relay node of the scenario. *)
Definition holdCalls : list Driver.Call :=
  [Driver.Allocate inside; Driver.Update inside 10;
   Driver.Allocate inside; Driver.Update inside 40].

Definition laterCalls : list Driver.Call :=
  [Driver.Allocate outside; Driver.Update outside 50;
   Driver.Allocate inside; Driver.Update inside 90].

End Samples.

(** ** More of the number operators and of [Math] on binary64 floats *)

Module JSNumber.
Open Scope float_scope.

(** An array length, an array index or a counter as a number.  (Exact below
    2^53; an array has fewer than 2^32 elements.) *)
Definition number_of_nat (n : nat) : float :=
  of_uint63 (Uint63.of_Z (Z.of_nat n)).

(** [Math.floor(x)]: the largest integer not above [x]; zeros, infinities
    and NaN are returned as they are. *)
Definition Math_floor (x : float) : float :=
  match Prim2SF x with
  | S754_finite s m e =>
    if (0 <=? e)%Z then x
    else
      let z := Z.shiftr (if s then Z.neg m else Z.pos m) (- e) in
      if (z =? 0)%Z then 0
      else SF2Prim (binary_normalize prec emax z 0 false)
  | _ => x
  end.

(** [Math.ceil(x)] is [-Math.floor(-x)], signed zeros included. *)
Definition Math_ceil (x : float) : float := - Math_floor (- x).

(** [n % d]: the remainder of the truncated division, exact, with the sign
    of the dividend. *)
Definition remainder (n d : float) : float :=
  match Prim2SF n, Prim2SF d with
  | S754_nan, _ | _, S754_nan => nan
  | S754_infinity _, _ => nan
  | _, S754_zero _ => nan
  | S754_zero _, _ => n
  | S754_finite _ _ _, S754_infinity _ => n
  | S754_finite sn mn en, S754_finite _ md ed =>
    let e := Z.min en ed in
    let r := Z.rem (Z.pos mn * 2 ^ (en - e)) (Z.pos md * 2 ^ (ed - e)) in
    SF2Prim (binary_normalize prec emax (if sn then (- r)%Z else r) e sn)
  end.

(** [Math.PI]. *)
Definition Math_PI : float := 3.141592653589793.

(** [Math.cos], [Math.sin] and [Math.cbrt]: ECMAScript leaves their results
    implementation-approximated, so the embedding is over any choice of the
    three functions. *)
Class MathLibrary : Type := {
  Math_cos : float -> float;
  Math_sin : float -> float;
  Math_cbrt : float -> float
}.

End JSNumber.

(** ** sim/orbit: constants.ts, types.ts, conversions.ts, propagator.ts

    On binary64 numbers, as the code runs.  [Math.cos] and [Math.sin] are
    those of the [MathLibrary]; [Math.acos] and [Math.atan2], which
    ECMAScript leaves implementation-approximated as well, are the
    functions of an [ArcLibrary]. *)

Module Orbit.
Import JS Types JSNumber.
Open Scope float_scope.

Class ArcLibrary : Type := {
  Math_acos : float -> float;
  Math_atan2 : float -> float -> float
}.

Definition Math_abs (x : float) : float := abs x.

(** [isFinite(x)]: neither NaN nor an infinity. *)
Definition isFinite (x : float) : bool := is_finite x.

Definition EARTH_MU : float := 3.986004418e14.

(** [ν] and [M] are optional: [None] is [undefined]. *)
Record OrbitalElements : Type := mkOrbitalElements {
  a : float;
  e : float;
  i : float;
  Ω : float;
  ω : float;
  ν : option float;
  M : option float
}.

(** The [throw new Error(...)] sites of the conversions. *)
Inductive OrbitError : Type :=
| MissingAnomaly
| HyperbolicOrbit
| AngularMomentumTooSmall.

(** [normalizeAngle], defined identically in conversions.ts and in
    propagator.ts. *)
Definition normalizeAngle (angle : float) : float :=
  let angle := remainder angle (2 * Math_PI) in
  if angle <? 0 then angle + 2 * Math_PI else angle.

Section WithLibraries.
Context {lib : MathLibrary} {arc : ArcLibrary}.

(** The [for] loop of [solveKeplerEquation], [iterations] iterations left,
    with its [break] and [continue]. *)
Fixpoint newtonRaphson (iterations : nat) (M e E : float) : float :=
  match iterations with
  | O => E
  | S iterations =>
    let f := E - e * Math_sin E - M in
    let fPrime := 1 - e * Math_cos E in
    if Math_abs f <? 1e-12 then E
    else if Math_abs fPrime <? 1e-10 then newtonRaphson iterations M e E
    else
      let deltaE := f / fPrime in
      let E := E - deltaE in
      if negb (isFinite E) then M
      else newtonRaphson iterations M e E
  end.

Definition solveKeplerEquation (M e : float) : float :=
  let M := normalizeAngle M in
  let E := if 0.8 <? e then Math_PI else M in
  normalizeAngle (newtonRaphson 50 M e E).

Definition trueAnomalyFromEccentric (E e : float) : float :=
  let cosE := Math_cos E in
  let sinE := Math_sin E in
  let cosν := (cosE - e) / (1 - e * cosE) in
  let sinν := (Math_sqrt (1 - e * e) * sinE) / (1 - e * cosE) in
  let ν := Math_atan2 sinν cosν in
  normalizeAngle ν.

Definition elementsToCartesian (elements : OrbitalElements)
  : OrbitError + CartesianState :=
  let a := a elements in
  let e := e elements in
  let i := i elements in
  let Ω := Ω elements in
  let ω := ω elements in
  let anomaly :=
    match ν elements, M elements with
    | Some ν, _ => Some ν
    | None, Some M =>
      let E := solveKeplerEquation M e in
      Some (trueAnomalyFromEccentric E e)
    | None, None => None
    end in
  match anomaly with
  | None => inl MissingAnomaly
  | Some ν =>
    let p := a * (1 - e * e) in
    let r := p / (1 + e * Math_cos ν) in
    let rPerifocal := (r * Math_cos ν, r * Math_sin ν, 0) in
    let h := Math_sqrt (EARTH_MU * p) in
    let vPerifocal :=
      ((- (EARTH_MU / h)) * Math_sin ν,
       (EARTH_MU / h) * (e + Math_cos ν),
       0) in
    let cosΩ := Math_cos Ω in
    let sinΩ := Math_sin Ω in
    let cosi := Math_cos i in
    let sini := Math_sin i in
    let cosω := Math_cos ω in
    let sinω := Math_sin ω in
    let R11 := cosΩ * cosω - sinΩ * cosi * sinω in
    let R12 := (- cosΩ) * sinω - sinΩ * cosi * cosω in
    let R13 := sinΩ * sini in
    let R21 := sinΩ * cosω + cosΩ * cosi * sinω in
    let R22 := (- sinΩ) * sinω + cosΩ * cosi * cosω in
    let R23 := (- cosΩ) * sini in
    let R31 := sini * sinω in
    let R32 := sini * cosω in
    let R33 := cosi in
    let '(r0, r1, r2) := rPerifocal in
    let '(v0, v1, v2) := vPerifocal in
    let position :=
      (R11 * r0 + R12 * r1 + R13 * r2,
       R21 * r0 + R22 * r1 + R23 * r2,
       R31 * r0 + R32 * r1 + R33 * r2) in
    let velocity :=
      (R11 * v0 + R12 * v1 + R13 * v2,
       R21 * v0 + R22 * v1 + R23 * v2,
       R31 * v0 + R32 * v1 + R33 * v2) in
    inr (mkCartesianState position velocity)
  end.

Definition cartesianToElements (state : CartesianState)
  : OrbitError + OrbitalElements :=
  let '(x, y, z) := position state in
  let '(vx, vy, vz) := velocity state in
  let r := Math_sqrt (x * x + y * y + z * z) in
  let v := Math_sqrt (vx * vx + vy * vy + vz * vz) in
  let hx := y * vz - z * vy in
  let hy := z * vx - x * vz in
  let hz := x * vy - y * vx in
  let h := Math_sqrt (hx * hx + hy * hy + hz * hz) in
  let energy := (v * v) / 2 - EARTH_MU / r in
  let a := 1 / (2 / r - (v * v) / EARTH_MU) in
  let semiMajorAxis :=
    if (a <? 0) || negb (isFinite a) then
      if energy <? 0 then Some ((- EARTH_MU) / (2 * energy)) else None
    else Some a in
  match semiMajorAxis with
  | None => inl HyperbolicOrbit
  | Some a =>
    let v2 := v * v in
    let rv := x * vx + y * vy + z * vz in
    let ex := (1 / EARTH_MU) * ((v2 - EARTH_MU / r) * x - rv * vx) in
    let ey := (1 / EARTH_MU) * ((v2 - EARTH_MU / r) * y - rv * vy) in
    let ez := (1 / EARTH_MU) * ((v2 - EARTH_MU / r) * z - rv * vz) in
    let e := Math_sqrt (ex * ex + ey * ey + ez * ez) in
    if h <? 1e-10 then inl AngularMomentumTooSmall
    else
      let cosI := hz / h in
      let i := Math_acos (Math_max (-1) (Math_min 1 cosI)) in
      let nx := - hy in
      let ny := hx in
      let n := Math_sqrt (nx * nx + ny * ny) in
      let Ω :=
        if n <? 1e-10 then 0
        else
          let Ω := Math_acos (nx / n) in
          if ny <? 0 then 2 * Math_PI - Ω else Ω in
      let eDotN := ex * nx + ey * ny in
      let ω :=
        if (n <? 1e-10) || (e <? 1e-10) then 0
        else
          let ω := Math_acos (eDotN / (e * n)) in
          if ez <? 0 then 2 * Math_PI - ω else ω in
      let rDotE := x * ex + y * ey + z * ez in
      let ν :=
        if e <? 1e-10 then
          if 1e-10 <? n then
            let rDotN := x * nx + y * ny in
            let cosArgLat := rDotN / (r * n) in
            let argLat :=
              Math_acos (Math_max (-1) (Math_min 1 cosArgLat)) in
            let ν := argLat - ω in
            if z <? 0 then 2 * Math_PI - ν else ν
          else
            let angle := Math_atan2 y x in
            normalizeAngle (angle - ω)
        else
          let cosν := rDotE / (r * e) in
          let sinν := rv / (r * Math_sqrt (EARTH_MU * a * (1 - e * e))) in
          let ν := Math_atan2 sinν cosν in
          if ν <? 0 then ν + 2 * Math_PI else ν in
      inr (mkOrbitalElements a e i (normalizeAngle Ω) (normalizeAngle ω)
             (Some (normalizeAngle ν)) None)
  end.

Definition meanAnomalyFromTrue (ν e : float) : float :=
  let cosν := Math_cos ν in
  let sinν := Math_sin ν in
  let cosE := (e + cosν) / (1 + e * cosν) in
  let sinE := (Math_sqrt (1 - e * e) * sinν) / (1 + e * cosν) in
  let E := Math_atan2 sinE cosE in
  let M := E - e * Math_sin E in
  normalizeAngle M.

(** [elements.ν!]: an absent [ν] would reach [Math.cos] as [undefined],
    that is as NaN ([cartesianToElements] always sets it). *)
Definition definitely (x : option float) : float :=
  match x with Some x => x | None => nan end.

Definition propagateKepler (state : CartesianState) (deltaTime : float)
  : OrbitError + CartesianState :=
  match cartesianToElements state with
  | inl err => inl err
  | inr elements =>
    let n :=
      Math_sqrt (EARTH_MU / (a elements * a elements * a elements)) in
    let period := (2 * Math_PI) / n in
    let M0 := meanAnomalyFromTrue (definitely (ν elements)) (e elements) in
    let deltaM := n * deltaTime in
    let M1 := M0 + deltaM in
    let M1 := normalizeAngle M1 in
    let newElements :=
      mkOrbitalElements (a elements) (e elements) (i elements)
        (Ω elements) (ω elements) None (Some M1) in
    elementsToCartesian newElements
  end.

(** [states.map((state) => propagateKepler(state, deltaTime))]: the first
    call that throws ends the [map]. *)
Fixpoint propagateKeplerBatch (states : list CartesianState)
    (deltaTime : float) : OrbitError + list CartesianState :=
  match states with
  | [] => inr []
  | state :: rest =>
    match propagateKepler state deltaTime with
    | inl err => inl err
    | inr state' =>
      match propagateKeplerBatch rest deltaTime with
      | inl err => inl err
      | inr rest' => inr (state' :: rest')
      end
    end
  end.

End WithLibraries.

End Orbit.

(** ** The round trip of the conversions and the propagation without its
    normalization step (the words of the specification) *)

Module OrbitSpec.
Import JS Types JSNumber Orbit.
Open Scope float_scope.

Section WithLibraries.
Context {lib : MathLibrary} {arc : ArcLibrary}.

(** [cartesianToElements(elementsToCartesian(elements))]. *)
Definition roundTrip (elements : OrbitalElements)
  : OrbitError + OrbitalElements :=
  match elementsToCartesian elements with
  | inl err => inl err
  | inr state => cartesianToElements state
  end.

(** The advanced mean anomaly [M1 = M0 + deltaM] of [propagateKepler],
    before it is normalized. *)
Definition advancedMeanAnomaly (elements : OrbitalElements)
    (deltaTime : float) : float :=
  let n :=
    Math_sqrt (EARTH_MU / (a elements * a elements * a elements)) in
  let M0 := meanAnomalyFromTrue (definitely (ν elements)) (e elements) in
  let deltaM := n * deltaTime in
  M0 + deltaM.

(** The variant named by the specification: [propagateKepler] with the
    statement [M1 = normalizeAngle(M1)] removed. *)
Definition propagateKepler_unnormalized (state : CartesianState)
    (deltaTime : float) : OrbitError + CartesianState :=
  match cartesianToElements state with
  | inl err => inl err
  | inr elements =>
    let n :=
      Math_sqrt (EARTH_MU / (a elements * a elements * a elements)) in
    let period := (2 * Math_PI) / n in
    let M0 := meanAnomalyFromTrue (definitely (ν elements)) (e elements) in
    let deltaM := n * deltaTime in
    let M1 := M0 + deltaM in
    let newElements :=
      mkOrbitalElements (a elements) (e elements) (i elements)
        (Ω elements) (ω elements) None (Some M1) in
    elementsToCartesian newElements
  end.

End WithLibraries.

(** The angles that [normalizeAngle] is meant to return, and NaN: what it
    leaves as it is. *)
Definition normalized (angle : float) : bool :=
  is_nan angle || ((0 <=? angle) && (angle <? 2 * Math_PI)).

End OrbitSpec.

(** ** Orbits and libraries for the examples *)

Module OrbitScenes.
Import JS Types JSNumber Orbit.
Open Scope float_scope.

(** A low orbit of eccentricity 0.1, inclined by one radian, at its
    periapsis and one radian past it. *)
Definition lowOrbitAtPeriapsis : OrbitalElements :=
  mkOrbitalElements 6771000 0.1 1 1 0 (Some 0) None.

Definition lowOrbitPastPeriapsis : OrbitalElements :=
  mkOrbitalElements 6771000 0.1 1 1 0 (Some 1) None.

(** Two more ellipses with [a > 0] and [0 <= e < 1]: a very large one and
    a very small one. *)
Definition farOrbit : OrbitalElements :=
  mkOrbitalElements 1e15 0.5 0 0 0 (Some 0) None.

Definition tinyOrbit : OrbitalElements :=
  mkOrbitalElements 1e-36 0 0 0 0 (Some 0) None.

(** A state of energy 0 ([v² = 2μ/r]): on a parabola. *)
Definition parabolic : CartesianState :=
  mkCartesianState (2 * EARTH_MU, 0, 0) (0, 1, 0).

(** The periapsis, 7000 km from the centre, of an equatorial orbit of
    eccentricity 0.899. *)
Definition eccentricAtPeriapsis : CartesianState :=
  mkCartesianState (7000000, 0, 0) (0, 10400, 0).

(** The entry of [table] at [x], NaN where there is none. *)
Fixpoint lookup (table : list (float * float)) (x : float) : float :=
  match table with
  | [] => nan
  | (argument, value) :: table =>
    if x =? argument then value else lookup table x
  end.

(** Sines and cosines rounded to the nearest binary64 number, at 1 and at
    the angles that [propagateKepler] goes through from
    [eccentricAtPeriapsis] for the time steps -1e-17 s and 60 s (most of
    them the eccentric anomalies of the Newton iteration). *)
Definition sines : list (float * float) :=
  [ (1, 0.8414709848078965);
    (3.141592653589793, 1.2246467991473532e-16);
    (1.4876405460288704, 0.9965445499208899);
    (0.8485962771525205, 0.750353231848164);
    (0.4201798660672675, 0.4079246801795513);
    (0.12221511891445613, 0.12191110097923133);
    (0.005094832732415594, 0.005094810691076452);
    (3.942689342419786e-07, 3.942689342419684e-07);
    (4.795544761150715, -0.99654454992089);
    (5.434589030027065, -0.7503532318481646);
    (5.8630054411123185, -0.4079246801795518);
    (6.1609701882651295, -0.12191110097923212);
    (6.27809047444717, -0.0050948106910771685);
    (6.283184912910651, -3.942689350784385e-07);
    (6.283185307179588, 1.5314274795707798e-15);
    (1.4887263349412396, 0.9966341480750073);
    (0.8514948994363555, 0.7522661737534723);
    (0.42730915224205607, 0.4144234077219842);
    (0.1379648133082318, 0.1375275526253392);
    (0.02610648138924225, 0.02610351601865439);
    (0.02050089975047805, 0.02049946373742022);
    (0.020497500176935298, 0.020496064878132096);
    (0.08903132063970484, 0.08891374832428907)].

Definition cosines : list (float * float) :=
  [ (1, 0.5403023058681398);
    (3.141592653589793, -1);
    (1.4876405460288704, 0.08305997846719487);
    (0.8485962771525205, 0.6610370847804344);
    (0.4201798660672675, 0.9130155832735883);
    (0.12221511891445613, 0.9925410235642815);
    (0.005094832732415594, 0.9999870213677886);
    (3.942689342419786e-07, 0.9999999999999223);
    (4.795544761150715, 0.08305997846719419);
    (5.434589030027065, 0.6610370847804339);
    (5.8630054411123185, 0.9130155832735881);
    (6.1609701882651295, 0.9925410235642814);
    (6.27809047444717, 0.9999870213677886);
    (6.283184912910651, 0.9999999999999223);
    (6.283185307179588, 1);
    (1.4887263349412396, 0.08197789269555836);
    (0.8514948994363555, 0.6588593202090341);
    (0.42730915224205607, 0.9100841934305298);
    (0.1379648133082318, 0.9904979415773082);
    (0.02610648138924225, 0.9996592451688044);
    (0.02050089975047805, 0.999789863914652);
    (0.020497500176935298, 0.9997899335983091);
    (0.08903132063970484, 0.9960393292229605)].

(** A [MathLibrary] that rounds to nearest where it answers: below 1e-8 in
    magnitude the nearest number to [sin x] is [x] and the nearest to
    [cos x] is 1; elsewhere the tables.  ([Math.cbrt] is not used by the
    orbit module.) *)
Definition roundedLibrary : MathLibrary := {|
  Math_cos x := if abs x <? 1e-8 then 1 else lookup cosines x;
  Math_sin x := if abs x <? 1e-8 then x else lookup sines x;
  Math_cbrt x := nan
|}.

(** The [ArcLibrary] to go with it answers [acos 1], which is [+0],
    [atan2 y 1] below 1e-8 in magnitude, where the nearest number is [y],
    and the arc tangent that gives the eccentric anomaly 60 s after the
    periapsis. *)
Definition roundedArcs : ArcLibrary := {|
  Math_acos x := if x =? 1 then 0 else nan;
  Math_atan2 y x :=
    if (x =? 1) && (abs y <? 1e-8) then y
    else if (y =? 0.08891374832428908) && (x =? 0.9960393292229606)
    then 0.08903132063970484
    else nan
|}.

(** A coarse [ArcLibrary], for the range of the arc tangent in the first
    octant: [acos] is NaN above 1 and 0 elsewhere, and [atan2] is 0. *)
Definition coarseArcs : ArcLibrary := {|
  Math_acos x := if 1 <? x then nan else 0;
  Math_atan2 y x := 0
|}.

End OrbitScenes.

(** ** sim/swarm/types.ts and sim/swarm/localFrame.ts *)

Module LocalFrame.
Import JS Types JSNumber.
Open Scope float_scope.

Record LocalFrame : Type := mkLocalFrame {
  origin : vec3;
  radial : vec3;
  alongTrack : vec3;
  crossTrack : vec3
}.

Record LocalFrameState : Type := mkLocalFrameState {
  local_position : vec3;
  local_velocity : vec3
}.

(** The [throw new Error(...)] sites of the module. *)
Inductive FrameError : Type :=
| TooCloseToCenter
| EmptyArray.

Definition computeLocalFrame (referenceState : CartesianState)
  : FrameError + LocalFrame :=
  let '(rx, ry, rz) := position referenceState in
  let '(vx, vy, vz) := velocity referenceState in
  let r := Math_sqrt (rx * rx + ry * ry + rz * rz) in
  if r <? 1e-6 then inl TooCloseToCenter
  else
    let radial := (rx / r, ry / r, rz / r) in
    let v := Math_sqrt (vx * vx + vy * vy + vz * vz) in
    let hx := ry * vz - rz * vy in
    let hy := rz * vx - rx * vz in
    let hz := rx * vy - ry * vx in
    let h := Math_sqrt (hx * hx + hy * hy + hz * hz) in
    if h <? 1e-6 then
      let crossTrack := (0, 0, 1) in
      let alongTrack :=
        if 1e-6 <? v then (vx / v, vy / v, vz / v) else (1, 0, 0) in
      inr (mkLocalFrame (position referenceState) radial alongTrack
             crossTrack)
    else
      let crossTrack := (hx / h, hy / h, hz / h) in
      let '(c0, c1, c2) := crossTrack in
      let '(r0, r1, r2) := radial in
      let ax := c1 * r2 - c2 * r1 in
      let ay := c2 * r0 - c0 * r2 in
      let az := c0 * r1 - c1 * r0 in
      let a := Math_sqrt (ax * ax + ay * ay + az * az) in
      let alongTrack :=
        if 1e-6 <? a then (ax / a, ay / a, az / a) else (1, 0, 0) in
      inr (mkLocalFrame (position referenceState) radial alongTrack
             crossTrack).

Definition eciToLocalFrame (state : CartesianState) (localFrame : LocalFrame)
  : LocalFrameState :=
  let '(px, py, pz) := position state in
  let '(vx, vy, vz) := velocity state in
  let '(ox, oy, oz) := origin localFrame in
  let dx := px - ox in
  let dy := py - oy in
  let dz := pz - oz in
  let '(rx, ry, rz) := radial localFrame in
  let '(ax, ay, az) := alongTrack localFrame in
  let '(cx, cy, cz) := crossTrack localFrame in
  let position :=
    (dx * rx + dy * ry + dz * rz,
     dx * ax + dy * ay + dz * az,
     dx * cx + dy * cy + dz * cz) in
  let velocity :=
    (vx * rx + vy * ry + vz * rz,
     vx * ax + vy * ay + vz * az,
     vx * cx + vy * cy + vz * cz) in
  mkLocalFrameState position velocity.

Definition localFrameToEci (localState : LocalFrameState)
    (localFrame : LocalFrame) : CartesianState :=
  let '(pr, pa, pc) := local_position localState in
  let '(vr, va, vc) := local_velocity localState in
  let '(rx, ry, rz) := radial localFrame in
  let '(ax, ay, az) := alongTrack localFrame in
  let '(cx, cy, cz) := crossTrack localFrame in
  let '(ox, oy, oz) := origin localFrame in
  let position :=
    (ox + pr * rx + pa * ax + pc * cx,
     oy + pr * ry + pa * ay + pc * cy,
     oz + pr * rz + pa * az + pc * cz) in
  let velocity :=
    (vr * rx + va * ax + vc * cx,
     vr * ry + va * ay + vc * cy,
     vr * rz + va * az + vc * cz) in
  mkCartesianState position velocity.

(** The six running sums of [computeCentroid]. *)
Definition addState (sums : vec3 * vec3) (state : CartesianState)
  : vec3 * vec3 :=
  let '((sumPx, sumPy, sumPz), (sumVx, sumVy, sumVz)) := sums in
  let '(px, py, pz) := position state in
  let '(vx, vy, vz) := velocity state in
  ((sumPx + px, sumPy + py, sumPz + pz),
   (sumVx + vx, sumVy + vy, sumVz + vz)).

Definition computeCentroid (states : list CartesianState)
  : FrameError + CartesianState :=
  if Nat.eqb (List.length states) 0 then inl EmptyArray
  else
    let '((sumPx, sumPy, sumPz), (sumVx, sumVy, sumVz)) :=
      fold_left addState states ((0, 0, 0), (0, 0, 0)) in
    let n := number_of_nat (List.length states) in
    inr (mkCartesianState
           (sumPx / n, sumPy / n, sumPz / n)
           (sumVx / n, sumVy / n, sumVz / n)).

End LocalFrame.

(** ** sim/maneuvers/rtnToEci.ts *)

Module Maneuvers.
Import JS Types LocalFrame.
Open Scope float_scope.

Definition rtnToEci (rtnVector : vec3) (state : CartesianState)
  : FrameError + vec3 :=
  let '(dvR, dvT, dvN) := rtnVector in
  match computeLocalFrame state with
  | inl err => inl err
  | inr localFrame =>
    let '(rx, ry, rz) := radial localFrame in
    let '(tx, ty, tz) := alongTrack localFrame in
    let '(nx, ny, nz) := crossTrack localFrame in
    let dvx := dvR * rx + dvT * tx + dvN * nx in
    let dvy := dvR * ry + dvT * ty + dvN * ny in
    let dvz := dvR * rz + dvT * tz + dvN * nz in
    inr (dvx, dvy, dvz)
  end.

End Maneuvers.

(** ** ui/stores/agentStore.ts

    A store action is a function from the state of the store to its next
    state.  An action that throws leaves the store as it was: it returns
    the error instead of a state. *)

Module AgentStore.
Import JS Types LocalFrame Maneuvers DeltaV.
Open Scope float_scope.

Record AgentState : Type := mkAgentState {
  agents : list Agent;
  selectedAgentId : option string;
  hoveredAgentId : option string
}.

Definition initial : AgentState := mkAgentState [] None None.

(** [{ ...agent, state }], [{ ...a, state, dvRemaining }],
    [{ ...agent, selected }] and [{ ...agent, hovered }]. *)
Definition with_state (state' : CartesianState) (a : Agent) : Agent :=
  mkAgent (agent_id a) state' (behaviors a) (team a) (dvRemaining a)
    (selected a) (hovered a).

Definition with_burn (state' : CartesianState) (dvRemaining' : float)
    (a : Agent) : Agent :=
  mkAgent (agent_id a) state' (behaviors a) (team a) dvRemaining'
    (selected a) (hovered a).

Definition with_dvRemaining (dvRemaining' : float) (a : Agent) : Agent :=
  mkAgent (agent_id a) (state a) (behaviors a) (team a) dvRemaining'
    (selected a) (hovered a).

Definition with_selected (selected' : bool) (a : Agent) : Agent :=
  mkAgent (agent_id a) (state a) (behaviors a) (team a) (dvRemaining a)
    (Some selected') (hovered a).

Definition with_hovered (hovered' : bool) (a : Agent) : Agent :=
  mkAgent (agent_id a) (state a) (behaviors a) (team a) (dvRemaining a)
    (selected a) (Some hovered').

Definition with_agents (agents' : list Agent) (s : AgentState) : AgentState :=
  mkAgentState agents' (selectedAgentId s) (hoveredAgentId s).

(** [agent.id === id] for an [id] that may be [null]. *)
Definition isId (id : option string) (a : Agent) : bool :=
  match id with
  | Some id => String.eqb (agent_id a) id
  | None => false
  end.

Definition setAgents (agents' : list Agent) (s : AgentState) : AgentState :=
  with_agents agents' s.

Definition updateAgent (id : string) (state' : CartesianState)
    (s : AgentState) : AgentState :=
  with_agents
    (map (fun agent =>
            if String.eqb (agent_id agent) id then with_state state' agent
            else agent) (agents s)) s.

(** [new Map(updates.map((u) => [u.id, u.state]))]: an entry replaces an
    earlier entry with the same key. *)
Definition updateMap (updates : list (string * CartesianState))
  : string -> option CartesianState :=
  fold_left
    (fun m u key => if String.eqb key (fst u) then Some (snd u) else m key)
    updates (fun _ => None).

Definition updateAgentsBatch (updates : list (string * CartesianState))
    (s : AgentState) : AgentState :=
  let updateMap := updateMap updates in
  with_agents
    (map (fun agent =>
            match updateMap (agent_id agent) with
            | Some state' => with_state state' agent
            | None => agent
            end) (agents s)) s.

Definition selectAgent (id : option string) (s : AgentState) : AgentState :=
  mkAgentState
    (map (fun agent => with_selected (isId id agent) agent) (agents s))
    id (hoveredAgentId s).

Definition hoverAgent (id : option string) (s : AgentState) : AgentState :=
  mkAgentState
    (map (fun agent => with_hovered (isId id agent) agent) (agents s))
    (selectedAgentId s) id.

Definition clearSelection (s : AgentState) : AgentState :=
  mkAgentState (map (with_selected false) (agents s)) None
    (hoveredAgentId s).

(** [state.agents.find((a) => a.id === state.selectedAgentId) || null]. *)
Definition getSelectedAgent (s : AgentState) : option Agent :=
  find (isId (selectedAgentId s)) (agents s).

(** What [applyDeltaVToAgent] rethrows. *)
Inductive BurnError : Type :=
| FrameFailure (err : FrameError)
| BurnRefused (err : DeltaVError).

Definition applyDeltaVToAgent (id : string) (rtnVector : vec3)
    (s : AgentState) : BurnError + AgentState :=
  match find (fun a => String.eqb (agent_id a) id) (agents s) with
  | None => inr s
  | Some agent =>
    match rtnToEci rtnVector (state agent) with
    | inl err => inl (FrameFailure err)
    | inr dvVector =>
      match applyDeltaV (state agent) dvVector (dvRemaining agent) with
      | inl err => inl (BurnRefused err)
      | inr result =>
        inr (with_agents
               (map (fun a =>
                       if String.eqb (agent_id a) id then
                         with_burn (newState result) (newDvRemaining result) a
                       else a) (agents s)) s)
      end
    end
  end.

Definition updateAgentDvRemaining (id : string) (dvRemaining' : float)
    (s : AgentState) : AgentState :=
  with_agents
    (map (fun agent =>
            if String.eqb (agent_id agent) id then
              with_dvRemaining (Math_max 0 dvRemaining') agent
            else agent) (agents s)) s.

End AgentStore.

(** ** sim/swarm/behaviors.ts

    An index is a natural number; [None] is the [TypeError] of
    [agents[agentIndex]!.position] on an index outside the array. *)

Module Behaviors.
Import JS Types JSNumber LocalFrame Swarm.
Open Scope float_scope.

(** [for (let i = 0; i < agents.length; i++)] with
    [if (i === agentIndex) continue;] in front of its body: [agents] is
    [agents.slice(i)]. *)
Fixpoint neighborLoop {Acc : Type} (body : LocalFrameState -> Acc -> Acc)
    (agentIndex i : nat) (agents : list LocalFrameState) (acc : Acc) : Acc :=
  match agents with
  | [] => acc
  | neighbor :: rest =>
    neighborLoop body agentIndex (S i) rest
      (if Nat.eqb i agentIndex then acc else body neighbor acc)
  end.

Definition computeCohesion (agents : list LocalFrameState) (agentIndex : nat)
    (localFrame : LocalFrame) (params : BehaviorParams) : option vec3 :=
  if Nat.leb (List.length agents) 1 then Some (0, 0, 0)
  else
    match nth_error agents agentIndex with
    | None => None
    | Some agent =>
      let '(px, py, pz) := local_position agent in
      let body (neighbor : LocalFrameState) (acc : vec3 * nat) :=
        let '((sumX, sumY, sumZ), count) := acc in
        let '(nx, ny, nz) := local_position neighbor in
        let dx := nx - px in
        let dy := ny - py in
        let dz := nz - pz in
        let dist := Math_sqrt (dx * dx + dy * dy + dz * dz) in
        if dist <? neighborRadius params then
          ((sumX + nx, sumY + ny, sumZ + nz), S count)
        else acc in
      let '((sumX, sumY, sumZ), count) :=
        neighborLoop body agentIndex 0 agents ((0, 0, 0), O) in
      if Nat.eqb count 0 then Some (0, 0, 0)
      else
        let centerX := sumX / number_of_nat count in
        let centerY := sumY / number_of_nat count in
        let centerZ := sumZ / number_of_nat count in
        let dirX := centerX - px in
        let dirY := centerY - py in
        let dirZ := centerZ - pz in
        let dirMag := Math_sqrt (dirX * dirX + dirY * dirY + dirZ * dirZ) in
        if dirMag <? 1e-6 then Some (0, 0, 0)
        else
          let normalizedX := dirX / dirMag in
          let normalizedY := dirY / dirMag in
          let normalizedZ := dirZ / dirMag in
          Some (normalizedX * cohesionWeight params,
                normalizedY * cohesionWeight params,
                normalizedZ * cohesionWeight params)
    end.

Definition computeSeparation (agents : list LocalFrameState)
    (agentIndex : nat) (localFrame : LocalFrame) (params : BehaviorParams)
  : option vec3 :=
  if Nat.leb (List.length agents) 1 then Some (0, 0, 0)
  else
    match nth_error agents agentIndex with
    | None => None
    | Some agent =>
      let '(px, py, pz) := local_position agent in
      let body (neighbor : LocalFrameState) (steer : vec3) :=
        let '(steerX, steerY, steerZ) := steer in
        let '(nx, ny, nz) := local_position neighbor in
        let dx := px - nx in
        let dy := py - ny in
        let dz := pz - nz in
        let dist := Math_sqrt (dx * dx + dy * dy + dz * dz) in
        if (dist <? neighborRadius params) && (1e-6 <? dist) then
          let invDist := 1.0 / dist in
          let weight := separationWeight params * invDist * invDist in
          (steerX + (dx / dist) * weight,
           steerY + (dy / dist) * weight,
           steerZ + (dz / dist) * weight)
        else steer in
      Some (neighborLoop body agentIndex 0 agents (0, 0, 0))
    end.

Definition computeAlignment (agents : list LocalFrameState) (agentIndex : nat)
    (localFrame : LocalFrame) (params : BehaviorParams) : option vec3 :=
  if Nat.leb (List.length agents) 1 then Some (0, 0, 0)
  else
    match nth_error agents agentIndex with
    | None => None
    | Some agent =>
      let '(px, py, pz) := local_position agent in
      let '(vx, vy, vz) := local_velocity agent in
      let body (neighbor : LocalFrameState) (acc : vec3 * nat) :=
        let '((sumVx, sumVy, sumVz), count) := acc in
        let '(nx, ny, nz) := local_position neighbor in
        let dx := nx - px in
        let dy := ny - py in
        let dz := nz - pz in
        let dist := Math_sqrt (dx * dx + dy * dy + dz * dz) in
        if dist <? neighborRadius params then
          let '(nvx, nvy, nvz) := local_velocity neighbor in
          ((sumVx + nvx, sumVy + nvy, sumVz + nvz), S count)
        else acc in
      let '((sumVx, sumVy, sumVz), count) :=
        neighborLoop body agentIndex 0 agents ((0, 0, 0), O) in
      if Nat.eqb count 0 then Some (0, 0, 0)
      else
        let avgVx := sumVx / number_of_nat count in
        let avgVy := sumVy / number_of_nat count in
        let avgVz := sumVz / number_of_nat count in
        let steerX := (avgVx - vx) * alignmentWeight params in
        let steerY := (avgVy - vy) * alignmentWeight params in
        let steerZ := (avgVz - vz) * alignmentWeight params in
        Some (steerX, steerY, steerZ)
    end.

End Behaviors.

(** ** sim/swarm/formations.ts

    [agentIndex] and [totalAgents] are an array index and an array length:
    natural numbers, turned into binary64 numbers where the arithmetic
    starts.  [None] is the [throw new Error('Total agents must be
    positive')]. *)

Module Formations.
Import JS Types JSNumber.
Open Scope float_scope.

Section WithMathLibrary.
Context {lib : MathLibrary}.

Definition computeRingFormation (agentIndex totalAgents : nat)
    (radius : option float) : option vec3 :=
  if Nat.leb totalAgents 0 then None
  else
    let defaultRadius :=
      if Nat.ltb 1 totalAgents then number_of_nat totalAgents * 10000
      else 10000 in
    let r := match radius with Some r => r | None => defaultRadius end in
    let angle :=
      (number_of_nat agentIndex / number_of_nat totalAgents) * 2 * Math_PI in
    let alongTrack := r * Math_cos angle in
    let crossTrack := r * Math_sin angle in
    Some (0, alongTrack, crossTrack).

Definition computePlaneFormation (agentIndex totalAgents : nat)
    (spacing : option float) : option vec3 :=
  let spacing := match spacing with Some s => s | None => 5000 end in
  if Nat.leb totalAgents 0 then None
  else
    let gridSize := Math_ceil (Math_sqrt (number_of_nat totalAgents)) in
    let row := Math_floor (number_of_nat agentIndex / gridSize) in
    let col := remainder (number_of_nat agentIndex) gridSize in
    let centerOffset := (gridSize - 1) / 2 in
    let x := (col - centerOffset) * spacing in
    let y := (row - centerOffset) * spacing in
    Some (0, x, y).

Definition computeLatticeFormation (agentIndex totalAgents : nat)
    (spacing : option float) : option vec3 :=
  let spacing := match spacing with Some s => s | None => 5000 end in
  if Nat.leb totalAgents 0 then None
  else
    let latticeSize := Math_ceil (Math_cbrt (number_of_nat totalAgents)) in
    let layer :=
      Math_floor (number_of_nat agentIndex / (latticeSize * latticeSize)) in
    let remainder' :=
      remainder (number_of_nat agentIndex) (latticeSize * latticeSize) in
    let row := Math_floor (remainder' / latticeSize) in
    let col := remainder remainder' latticeSize in
    let centerOffset := (latticeSize - 1) / 2 in
    let radial := (layer - centerOffset) * spacing in
    let alongTrack := (col - centerOffset) * spacing in
    let crossTrack := (row - centerOffset) * spacing in
    Some (radial, alongTrack, crossTrack).

(** The optional [params] argument. *)
Record FormationParams : Type := mkFormationParams {
  param_radius : option float;
  param_spacing : option float
}.

(** [getFormationTarget]: [None] is a throw of the formation called,
    [Some None] is [null]. *)
Definition getFormationTarget (formationType : option FormationType)
    (agentIndex totalAgents : nat) (params : option FormationParams)
  : option (option vec3) :=
  let radius := match params with Some p => param_radius p | None => None end in
  let spacing :=
    match params with Some p => param_spacing p | None => None end in
  match formationType with
  | None | Some NONE => Some None
  | Some RING =>
    option_map Some (computeRingFormation agentIndex totalAgents radius)
  | Some PLANE =>
    option_map Some (computePlaneFormation agentIndex totalAgents spacing)
  | Some LATTICE =>
    option_map Some (computeLatticeFormation agentIndex totalAgents spacing)
  end.

End WithMathLibrary.

End Formations.

(** ** sim/swarm/swarmSystem.ts: [computeSwarmForces] *)

Module SwarmSystem.
Import JS Types JSNumber LocalFrame Swarm Behaviors Formations.
Open Scope float_scope.

(** What ends a call early: an error thrown by the local frame module or
    by a formation, or the [TypeError] of an index outside an array. *)
Inductive SwarmError : Type :=
| Frame (err : FrameError)
| NoAgentsInFormation
| IndexOutOfRange.

(** [b.cohesion || b.separation || b.alignment || b.formation]: every
    formation type, ['none'] included, is a non-empty string. *)
Definition isActive (b : BehaviorFlags) : bool :=
  cohesion b || separation b || alignment b ||
  match formation b with Some _ => true | None => false end.

(** [activeAgents.findIndex((a) => a.id === agent.id)]; [None] is -1. *)
Fixpoint findIndex (id : string) (i : nat) (activeAgents : list Agent)
  : option nat :=
  match activeAgents with
  | [] => None
  | a :: rest =>
    if String.eqb (agent_id a) id then Some i else findIndex id (S i) rest
  end.

(** [velAdjustLocal[0] += v[0]!; ...]. *)
Definition plus (velAdjustLocal v : vec3) : vec3 :=
  let '(a0, a1, a2) := velAdjustLocal in
  let '(v0, v1, v2) := v in
  (a0 + v0, a1 + v1, a2 + v2).

Section WithMathLibrary.
Context {lib : MathLibrary}.

(** The formation steering added to [velAdjustLocal]. *)
Definition formationSteering (formation : FormationType) (activeIndex : nat)
    (activeCount : nat) (localState : option LocalFrameState)
    (params : BehaviorParams) (velAdjustLocal : vec3)
  : SwarmError + vec3 :=
  match getFormationTarget (Some formation) activeIndex activeCount None
  with
  | None => inl NoAgentsInFormation
  | Some None => inr velAdjustLocal
  | Some (Some (tr, ta, tc)) =>
    match localState with
    | None => inl IndexOutOfRange
    | Some localState =>
      let '(pr, pa, pc) := local_position localState in
      let dirR := tr - pr in
      let dirA := ta - pa in
      let dirC := tc - pc in
      let dirMag := Math_sqrt (dirR * dirR + dirA * dirA + dirC * dirC) in
      if 1e-6 <? dirMag then
        let steerR := (dirR / dirMag) * formationWeight params in
        let steerA := (dirA / dirMag) * formationWeight params in
        let steerC := (dirC / dirMag) * formationWeight params in
        inr (plus velAdjustLocal (steerR, steerA, steerC))
      else inr velAdjustLocal
    end
  end.

(** The body of the loop over [agents]: the adjustment pushed for
    [agent]. *)
Definition adjustmentFor (activeAgents : list Agent)
    (localStates : list LocalFrameState) (localFrame : LocalFrame)
    (params : BehaviorParams) (agent : Agent)
  : SwarmError + VelocityAdjustment :=
  let behaviors := behaviors agent in
  if negb (cohesion behaviors) && negb (separation behaviors)
     && negb (alignment behaviors)
     && negb (match formation behaviors with Some _ => true | None => false end)
  then inr (mkVelocityAdjustment (0, 0, 0))
  else
    match findIndex (agent_id agent) 0 activeAgents with
    | None => inr (mkVelocityAdjustment (0, 0, 0))
    | Some activeIndex =>
      let localState := nth_error localStates activeIndex in
      let velAdjustLocal := (0, 0, 0) in
      let afterCohesion :=
        if cohesion behaviors then
          match computeCohesion localStates activeIndex localFrame params
          with
          | Some c => inr (plus velAdjustLocal c)
          | None => inl IndexOutOfRange
          end
        else inr velAdjustLocal in
      match afterCohesion with
      | inl err => inl err
      | inr velAdjustLocal =>
        let afterSeparation :=
          if separation behaviors then
            match computeSeparation localStates activeIndex localFrame
                    params with
            | Some c => inr (plus velAdjustLocal c)
            | None => inl IndexOutOfRange
            end
          else inr velAdjustLocal in
        match afterSeparation with
        | inl err => inl err
        | inr velAdjustLocal =>
          let afterAlignment :=
            if alignment behaviors then
              match computeAlignment localStates activeIndex localFrame
                      params with
              | Some c => inr (plus velAdjustLocal c)
              | None => inl IndexOutOfRange
              end
            else inr velAdjustLocal in
          match afterAlignment with
          | inl err => inl err
          | inr velAdjustLocal =>
            let afterFormation :=
              match formation behaviors with
              | Some formation =>
                formationSteering formation activeIndex
                  (List.length activeAgents) localState params
                  velAdjustLocal
              | None => inr velAdjustLocal
              end in
            match afterFormation with
            | inl err => inl err
            | inr velAdjustLocal =>
              let localAdjustState :=
                mkLocalFrameState (0, 0, 0) velAdjustLocal in
              let eciAdjustState :=
                localFrameToEci localAdjustState localFrame in
              inr (mkVelocityAdjustment (velocity eciAdjustState))
            end
          end
        end
      end
    end.

(** The loop over [agents], pushing on [adjustments]. *)
Fixpoint adjustmentLoop (activeAgents : list Agent)
    (localStates : list LocalFrameState) (localFrame : LocalFrame)
    (params : BehaviorParams) (agents : list Agent)
  : SwarmError + list VelocityAdjustment :=
  match agents with
  | [] => inr []
  | agent :: rest =>
    match adjustmentFor activeAgents localStates localFrame params agent with
    | inl err => inl err
    | inr adjustment =>
      match adjustmentLoop activeAgents localStates localFrame params rest
      with
      | inl err => inl err
      | inr adjustments => inr (adjustment :: adjustments)
      end
    end
  end.

Definition computeSwarmForces (agents : list Agent) (params : BehaviorParams)
    (deltaTime : float) : SwarmError + list VelocityAdjustment :=
  if Nat.eqb (List.length agents) 0 then inr []
  else
    let activeAgents :=
      filter (fun agent => isActive (behaviors agent)) agents in
    if Nat.eqb (List.length activeAgents) 0 then
      inr (map (fun _ => mkVelocityAdjustment (0, 0, 0)) agents)
    else
      match computeCentroid (map state activeAgents) with
      | inl err => inl (Frame err)
      | inr centroidState =>
        match computeLocalFrame centroidState with
        | inl err => inl (Frame err)
        | inr localFrame =>
          let localStates :=
            map (fun agent => eciToLocalFrame (state agent) localFrame)
              activeAgents in
          adjustmentLoop activeAgents localStates localFrame params agents
        end
      end.

End WithMathLibrary.

End SwarmSystem.

(** ** sim/SimClock.ts: the remaining methods, and sequences of calls *)

Module SimClockCalls.
Import JS SimClock.
Open Scope float_scope.

(** [new SimClock()] with no initial state.  (The constructor and [reset]
    also reseed the random generator, which is outside the clock state.) *)
Definition initial : SimClockState :=
  mkSimClockState false 1.0 0 "default" 1.0.

Definition setSeed (seed' : string) (s : SimClockState) : SimClockState :=
  mkSimClockState (paused s) (timeScale s) (simTime s) seed' (stepDelta s).

Definition reset (s : SimClockState) : SimClockState := with_simTime 0 s.

(** A call of one of the methods that change the clock. *)
Inductive Call : Type :=
| Pause
| Play
| Toggle
| SetTimeScale (scale : float)
| SetSeed (seed : string)
| Step
| Update (frameDelta : float)
| Reset.

Definition perform (c : Call) (s : SimClockState) : SimClockState :=
  match c with
  | Pause => pause s
  | Play => play s
  | Toggle => toggle s
  | SetTimeScale scale => setTimeScale scale s
  | SetSeed seed => setSeed seed s
  | Step => fst (step s)
  | Update frameDelta => fst (update frameDelta s)
  | Reset => reset s
  end.

(** A sequence of calls, first to last. *)
Definition run (calls : list Call) (s : SimClockState) : SimClockState :=
  fold_left (fun s c => perform c s) calls s.

(** The time scale is a number of [0.1, 100], or NaN. *)
Definition timeScaleInRange (s : SimClockState) : Prop :=
  ((0.1 <=? timeScale s) = true /\ (timeScale s <=? 100) = true) \/
  is_nan (timeScale s) = true.

End SimClockCalls.

(** ** sim/tasks/steering.ts: the batch entry point *)

Module Steering.
Import JS Types Tasks.

(** [agents.map((agent) => computeObjectiveSteering(agent, objectives,
    params))]. *)
Definition computeObjectiveSteeringBatch (agents : list Agent)
    (objectives : list Objective) (params : ObjectiveSteeringParams)
  : list Swarm.VelocityAdjustment :=
  map (fun agent => computeObjectiveSteering agent objectives params) agents.

End Steering.

(** ** ui/stores/taskStore.ts: objectives, score and game timer

    A store action is a function from the state of the store to the state
    after the action ([set] merges the object the action returns into the
    state); [Date.now()] is an argument. *)

Module TaskStore.
Import JS Types Tasks.
Open Scope float_scope.

Record TaskState : Type := mkTaskState {
  objectives : list Objective;
  score : float;
  gameTime : float;
  timerRunning : bool;
  lastTimerUpdate : option float
}.

Definition initial : TaskState := mkTaskState [] 0 0 false None.

Definition setObjectives (objectives' : list Objective) (now : float)
    (s : TaskState) : TaskState :=
  let nonEmpty := negb (Nat.eqb (List.length objectives') 0) in
  mkTaskState objectives' 0 0 nonEmpty (if nonEmpty then Some now else None).

(** The [updates] objects that the tick loop passes to [updateObjective]:
    any of [completed], [startTime], [assignedAgentId] and
    [assignedAgentIds]; [None] is a key that is absent. *)
Record ObjectiveUpdates : Type := mkObjectiveUpdates {
  upd_completed : option bool;
  upd_startTime : option (option float);
  upd_assignedAgentId : option (option string);
  upd_assignedAgentIds : option (list string)
}.

Definition orElse {A : Type} (update : option A) (current : A) : A :=
  match update with Some x => x | None => current end.

(** [{ ...obj, ...updates }].  A key of [updates] that the type of the
    objective does not have (a field no code reads) is left out. *)
Definition applyUpdates (updates : ObjectiveUpdates) (obj : Objective)
  : Objective :=
  let withCompleted (b : BaseObjective) :=
    mkBaseObjective (objective_id b) (objective_position b) (points b)
      (orElse (upd_completed updates) (completed b)) in
  match obj with
  | InspectPointObjective b thr vthr =>
    InspectPointObjective (withCompleted b) thr vthr
  | RelayNodeObjective b hold thr assignedAgentId startTime =>
    RelayNodeObjective (withCompleted b) hold thr
      (orElse (upd_assignedAgentId updates) assignedAgentId)
      (orElse (upd_startTime updates) startTime)
  | HoldFormationZoneObjective b radius required ids =>
    HoldFormationZoneObjective (withCompleted b) radius required
      (orElse (upd_assignedAgentIds updates) ids)
  end.

Definition with_objectives (objectives' : list Objective) (s : TaskState)
  : TaskState :=
  mkTaskState objectives' (score s) (gameTime s) (timerRunning s)
    (lastTimerUpdate s).

Definition updateObjective (id : string) (updates : ObjectiveUpdates)
    (s : TaskState) : TaskState :=
  with_objectives
    (map (fun obj => if String.eqb (oid obj) id then applyUpdates updates obj
                     else obj)
         (objectives s)) s.

(** [{ ...obj, completed: true }]. *)
Definition markCompleted (obj : Objective) : Objective :=
  match obj with
  | InspectPointObjective b thr vthr =>
    InspectPointObjective (set_completed b) thr vthr
  | RelayNodeObjective b hold thr assignedAgentId startTime =>
    RelayNodeObjective (set_completed b) hold thr assignedAgentId startTime
  | HoldFormationZoneObjective b radius required ids =>
    HoldFormationZoneObjective (set_completed b) radius required ids
  end.

Definition completeObjective (id : string) (s : TaskState) : TaskState :=
  match find (fun obj => String.eqb (oid obj) id) (objectives s) with
  | None => s
  | Some objective =>
    if is_completed objective then s
    else
      let newScore := score s + points (base objective) in
      let updatedObjectives :=
        map (fun obj => if String.eqb (oid obj) id then markCompleted obj
                        else obj)
            (objectives s) in
      let allCompleted := forallb is_completed updatedObjectives in
      mkTaskState updatedObjectives newScore (gameTime s)
        (negb allCompleted)
        (if allCompleted then None else lastTimerUpdate s)
  end.

Definition resetTasks (s : TaskState) : TaskState := initial.

Definition updateTimer (deltaTime : float) (s : TaskState) : TaskState :=
  if negb (timerRunning s) then s
  else mkTaskState (objectives s) (score s) (gameTime s + deltaTime)
         (timerRunning s) (lastTimerUpdate s).

Definition startTimer (now : float) (s : TaskState) : TaskState :=
  mkTaskState (objectives s) (score s) (gameTime s) true (Some now).

Definition stopTimer (s : TaskState) : TaskState :=
  mkTaskState (objectives s) (score s) (gameTime s) false None.

End TaskStore.

(** ** render/Agents.tsx: how a tick writes completions to the task store

    The second half of the frame callback: [objectives] is the array the
    component read from the store, [objectivesCopyForUpdate] its copy after
    [updateObjectiveState], and the store is updated through its actions. *)

Module TickCompletion.
Import JS Types Tasks TaskStore.
Open Scope float_scope.

(** [a !== b] on [number | null]. *)
Definition notSame (a b : option float) : bool :=
  match a, b with
  | None, None => false
  | Some x, Some y => negb (x =? y)
  | _, _ => true
  end.

(** The [updates] object built for [obj], a slot of the copy, against
    [currentObj], the objective of the same id that the component read. *)
Definition completionUpdates (obj currentObj : Objective)
  : ObjectiveUpdates :=
  mkObjectiveUpdates
    (if Bool.eqb (is_completed obj) (is_completed currentObj) then None
     else Some (is_completed obj))
    (match obj, currentObj with
     | RelayNodeObjective _ _ _ _ startTime,
       RelayNodeObjective _ _ _ _ currentStart =>
       if notSame startTime currentStart then Some startTime else None
     | _, _ => None
     end)
    None None.

(** [Object.keys(updates).length > 0]. *)
Definition hasKeys (updates : ObjectiveUpdates) : bool :=
  match upd_completed updates, upd_startTime updates,
        upd_assignedAgentId updates, upd_assignedAgentIds updates with
  | None, None, None, None => false
  | _, _, _, _ => true
  end.

(** The body of [for (const obj of objectivesCopyForUpdate)]. *)
Definition commitObjective (objectives : list Objective) (obj : Objective)
    (store : TaskState) : TaskState :=
  match find (fun o => String.eqb (oid o) (oid obj)) objectives with
  | None => store
  | Some currentObj =>
    let updates := completionUpdates obj currentObj in
    if hasKeys updates then updateObjective (oid obj) updates store
    else store
  end.

(** What the body does to the objective of the store that has the id of
    [obj]. *)
Definition committed (obj currentObj stored : Objective) : Objective :=
  let updates := completionUpdates obj currentObj in
  if hasKeys updates then applyUpdates updates stored else stored.

(** An objective of the store agrees with the objective the component
    read: the same id and the same completed flag. *)
Definition agrees (o stored : Objective) : Prop :=
  oid stored = oid o /\ is_completed stored = is_completed o.

(** The two loops that follow [updateObjectiveState]: the updates of the
    objectives, then [completeObjective] on every newly completed id. *)
Definition commitCompletion (objectives objectivesCopyForUpdate
    : list Objective) (newlyCompleted : list string) (store : TaskState)
  : TaskState :=
  let store1 :=
    fold_left (fun st obj => commitObjective objectives obj st)
      objectivesCopyForUpdate store in
  fold_left (fun st id => completeObjective id st) newlyCompleted store1.

(** [updateObjectiveState] on the copy of the objectives, with the agents
    as propagated, and the two loops. *)
Definition completionPhase (objectives : list Objective)
    (agents : list Agent) (currentSimTime : float) (store : TaskState)
  : TaskState :=
  let '(objectivesCopyForUpdate, newlyCompleted) :=
    updateObjectiveState objectives agents currentSimTime in
  commitCompletion objectives objectivesCopyForUpdate newlyCompleted store.

End TickCompletion.

(** ** render/Agents.tsx: the velocity adjustments of a tick

    The part of the frame callback between the split of the agents into
    player-controlled and auto-navigated ones and the propagation: with
    objectives, and without. *)

Module TickSteering.
Import JS Types JSNumber Swarm Tasks Steering SwarmSystem.
Open Scope float_scope.

(** Truthiness of [a.selected], a [boolean | undefined]. *)
Definition isSelected (a : Agent) : bool :=
  match selected a with Some b => b | None => false end.

(** [new Set(agents.filter((a) => a.selected).map((a) => a.id))]. *)
Definition playerControlledIds (agents : list Agent) : list string :=
  map agent_id (filter isSelected agents).

Definition playerControlledAgents (agents : list Agent) : list Agent :=
  filter (fun a => includes (playerControlledIds agents) (agent_id a)) agents.

Definition autoAgents (agents : list Agent) : list Agent :=
  filter (fun a => negb (includes (playerControlledIds agents) (agent_id a)))
    agents.

(** What ends the callback early: an error thrown by [computeSwarmForces],
    or the [TypeError] of [.delta] on an index outside an array. *)
Inductive SteeringError : Type :=
| SwarmFailure (err : SwarmError)
| MissingAdjustment.

(** [swarmAdjustments.map((swarmAdj, index) => ...)] with
    [objectiveAdjustments[index]!]: [swarmAdjustments] is
    [swarmAdjustments.slice(index)]. *)
Fixpoint combineFrom (index : nat)
    (swarmAdjustments objectiveAdjustments : list VelocityAdjustment)
  : option (list VelocityAdjustment) :=
  match swarmAdjustments with
  | [] => Some []
  | swarmAdj :: rest =>
    match nth_error objectiveAdjustments index with
    | None => None
    | Some objAdj =>
      let '(s0, s1, s2) := delta swarmAdj in
      let '(o0, o1, o2) := delta objAdj in
      match combineFrom (S index) rest objectiveAdjustments with
      | None => None
      | Some rest' =>
        Some (mkVelocityAdjustment (s0 + o0, s1 + o1, s2 + o2) :: rest')
      end
    end
  end.

Section WithMathLibrary.
Context {lib : MathLibrary}.

(** With objectives and auto-navigated agents: objective steering and
    swarm forces of the auto-navigated agents, then
    [enforceMinimumSeparation(agents, velocityAdjustments, ...)] on the
    array of all agents.  [objectives] is the array that the component
    read, as the allocation step before has left it. *)
Definition adjustmentsWithObjectives (agents : list Agent)
    (objectives : list Objective) (simDelta : float)
  : SteeringError + list VelocityAdjustment :=
  let autoAgents := autoAgents agents in
  let objectiveAdjustments :=
    computeObjectiveSteeringBatch autoAgents objectives
      DEFAULT_OBJECTIVE_STEERING_PARAMS in
  match computeSwarmForces autoAgents DEFAULT_BEHAVIOR_PARAMS simDelta with
  | inl err => inl (SwarmFailure err)
  | inr swarmAdjustments =>
    match combineFrom 0 swarmAdjustments objectiveAdjustments with
    | None => inl MissingAdjustment
    | Some velocityAdjustments =>
      match enforceMinimumSeparation agents velocityAdjustments
              DEFAULT_BEHAVIOR_PARAMS with
      | None => inl MissingAdjustment
      | Some velocityAdjustments' => inr velocityAdjustments'
      end
    end
  end.

(** Without objectives: swarm forces, then
    [enforceMinimumSeparation(autoAgents, velocityAdjustments, ...)]. *)
Definition adjustmentsWithoutObjectives (agents : list Agent)
    (simDelta : float) : SteeringError + list VelocityAdjustment :=
  let autoAgents := autoAgents agents in
  match computeSwarmForces autoAgents DEFAULT_BEHAVIOR_PARAMS simDelta with
  | inl err => inl (SwarmFailure err)
  | inr velocityAdjustments =>
    match enforceMinimumSeparation autoAgents velocityAdjustments
            DEFAULT_BEHAVIOR_PARAMS with
    | None => inl MissingAdjustment
    | Some velocityAdjustments' => inr velocityAdjustments'
    end
  end.

End WithMathLibrary.

End TickSteering.

(** ** Task allocation: what a call may change, and which assignments are
    sound *)

Module AllocationSpec.
Import JS Types Tasks.
Open Scope float_scope.

(** [after] is [before] except, at most, for the assignment field: the
    [assignedAgentId] of a relay node, the [assignedAgentIds] of a zone.  An
    inspect point has no assignment field. *)
Definition sameButAssignment (before after : Objective) : Prop :=
  match before, after with
  | InspectPointObjective _ _ _, _ => after = before
  | RelayNodeObjective b hold thr _ start,
    RelayNodeObjective b' hold' thr' _ start' =>
    b' = b /\ hold' = hold /\ thr' = thr /\ start' = start
  | HoldFormationZoneObjective b radius required _,
    HoldFormationZoneObjective b' radius' required' _ =>
    b' = b /\ radius' = radius /\ required' = required
  | _, _ => False
  end.

(** Some agent of the array has this id. *)
Definition isAgentId (agents : list Agent) (id : string) : Prop :=
  exists agent, In agent agents /\ agent_id agent = id.

(** Every agent id an objective names as assigned is the id of an agent of
    the array (a falsy [assignedAgentId], [null] or the empty string, names
    nobody). *)
Definition assignmentKnown (agents : list Agent) (o : Objective) : Prop :=
  match o with
  | InspectPointObjective _ _ _ => True
  | RelayNodeObjective _ _ _ assignedAgentId _ =>
    match assignedAgentId with
    | Some a => truthy assignedAgentId = true -> isAgentId agents a
    | None => True
    end
  | HoldFormationZoneObjective _ _ _ ids =>
    forall id, In id ids -> isAgentId agents id
  end.

(** The agent a relay node is assigned to, if any ([null] and the empty
    string are no assignment). *)
Definition relayAgent (o : Objective) : option string :=
  match o with
  | RelayNodeObjective _ _ _ (Some a) _ =>
    if truthy (Some a) then Some a else None
  | _ => None
  end.

Definition isRelayNode (o : Objective) : bool :=
  match o with
  | RelayNodeObjective _ _ _ _ _ => true
  | _ => false
  end.

(** The distance of an agent to a position, and its speed. *)
Definition distanceFrom (pos : vec3) (agent : Agent) : float :=
  distance (position (state agent)) pos.

Definition speed (agent : Agent) : float :=
  let '(vx, vy, vz) := velocity (state agent) in
  Math_sqrt (vx * vx + vy * vy + vz * vz).

(** The agent is close and slow enough to complete an inspect point; the
    velocity threshold defaults to 10 m/s. *)
Definition inspects (pos : vec3) (threshold : float)
    (vThreshold : option float) (agent : Agent) : bool :=
  (distanceFrom pos agent <=? threshold)
  && (speed agent <=? match vThreshold with Some v => v | None => 10 end).

(** The agent is inside the zone. *)
Definition inZone (pos : vec3) (radius : float) (agent : Agent) : bool :=
  distanceFrom pos agent <=? radius.

(** The objectives that are not completed, in the order of the array. *)
Definition uncompleted (objectives : list Objective) : list Objective :=
  filter (fun o => negb (is_completed o)) objectives.

End AllocationSpec.

(** ** More sample agents and objectives used by the examples *)

Module Scenes.
Import JS Types Tasks.
Open Scope float_scope.

(** Two agents, 600 m and 1500 m from the origin. *)
Definition pair : list Agent :=
  [Samples.agentAt "sat-1" (600, 0, 0) (0, 0, 0);
   Samples.agentAt "sat-2" (1500, 0, 0) (0, 0, 0)].

(** Two relay nodes nobody is assigned to, at the origin and 2 km away. *)
Definition relayA : Objective :=
  RelayNodeObjective (mkBaseObjective "relay-a" (0, 0, 0) 100 false)
    30 1000 None None.

Definition relayB : Objective :=
  RelayNodeObjective (mkBaseObjective "relay-b" (2000, 0, 0) 100 false)
    30 1000 None None.

(** An inspect point at the origin with threshold 1000 m, and a zone of
    radius 2 km around the origin that needs two agents. *)
Definition inspectOrigin : Objective :=
  InspectPointObjective (mkBaseObjective "inspect-1" (0, 0, 0) 10 false)
    1000 None.

Definition zoneOrigin : Objective :=
  HoldFormationZoneObjective (mkBaseObjective "zone-1" (0, 0, 0) 50 false)
    2000 2 [].

(** An inspect point that is already completed. *)
Definition inspectDone : Objective :=
  InspectPointObjective (mkBaseObjective "inspect-0" (0, 10, 0) 10 true)
    1000 None.

(** An auto-navigated agent and, 500 m from it, the agent the player has
    selected. *)
Definition escorted : list Agent :=
  [Samples.agentAt "sat-1" (7000000, 0, 0) (0, 7500, 0);
   mkAgent "sat-2" (mkCartesianState (7000500, 0, 0) (0, 7500, 0))
     (mkBehaviorFlags false false false None) friendly 1000 (Some true) None].

(** Two agents 20 km apart that steer towards each other, and a third
    without behaviours. *)
Definition flock : list Agent :=
  [mkAgent "sat-1" (mkCartesianState (7000000, 0, 0) (0, 7500, 0))
     (mkBehaviorFlags true false false None) friendly 1000 None None;
   Samples.agentAt "sat-2" (7000000, 5000, 0) (0, 7500, 0);
   mkAgent "sat-3" (mkCartesianState (7000000, 20000, 0) (0, 7500, 0))
     (mkBehaviorFlags true false false None) friendly 1000 None None].

End Scenes.

(** * Properties *)

(** ** Order and arithmetic facts on binary64 floats *)

Module FloatFacts.
Import JS.
Open Scope float_scope.

(** The comparison of two floats through their specification. *)
Definition fcmp (x y : float) : option comparison :=
  SFcompare (Prim2SF x) (Prim2SF y).

Lemma ltb_fcmp x y : (x <? y) = true <-> fcmp x y = Some Lt.
Proof.
  rewrite ltb_spec. unfold SFltb, fcmp.
  destruct (SFcompare _ _) as [[]|]; split; congruence.
Qed.

Lemma leb_fcmp x y :
  (x <=? y) = true <-> fcmp x y = Some Lt \/ fcmp x y = Some Eq.
Proof.
  rewrite leb_spec. unfold SFleb, fcmp.
  destruct (SFcompare _ _) as [[]|]; split; intuition congruence.
Qed.

Lemma eqb_fcmp x y : (x =? y) = true <-> fcmp x y = Some Eq.
Proof.
  rewrite eqb_spec. unfold SFeqb, fcmp.
  destruct (SFcompare _ _) as [[]|]; split; congruence.
Qed.

Lemma SFcompare_antisym (a b : spec_float) :
  SFcompare b a = option_map CompOpp (SFcompare a b).
Proof.
  destruct a as [[]|[]| |[] ma ea], b as [[]|[]| |[] mb eb];
    simpl; try reflexivity;
    rewrite (Z.compare_antisym ea eb);
    destruct (ea ?= eb)%Z; simpl; try reflexivity;
    rewrite (Pos.compare_cont_antisym ma mb Eq); reflexivity.
Qed.

Lemma fcmp_antisym x y : fcmp y x = option_map CompOpp (fcmp x y).
Proof. apply SFcompare_antisym. Qed.

Lemma SFcompare_refl (a : spec_float) :
  a <> S754_nan -> SFcompare a a = Some Eq.
Proof.
  destruct a as [[]|[]| |[] m e]; simpl; try congruence; intros _;
    rewrite Z.compare_refl, Pos.compare_cont_refl; reflexivity.
Qed.

Lemma is_nan_Prim2SF x : is_nan x = true <-> Prim2SF x = S754_nan.
Proof.
  unfold is_nan. rewrite eqb_spec. unfold SFeqb. split.
  - destruct (Prim2SF x) eqn:E; try reflexivity;
      rewrite SFcompare_refl by congruence; discriminate.
  - intros ->. reflexivity.
Qed.

Lemma fcmp_None x y :
  fcmp x y = None <-> is_nan x = true \/ is_nan y = true.
Proof.
  rewrite !is_nan_Prim2SF. unfold fcmp.
  destruct (Prim2SF x) as [[]|[]| |[] ma ea], (Prim2SF y) as [[]|[]| |[] mb eb];
    simpl; split; intros H; try discriminate; auto;
    destruct H; discriminate.
Qed.

Lemma fcmp_Some x y :
  is_nan x = false -> is_nan y = false -> exists c, fcmp x y = Some c.
Proof.
  intros Hx Hy. destruct (fcmp x y) as [c|] eqn:E; [eauto|].
  apply fcmp_None in E. destruct E; congruence.
Qed.

Lemma leb_not_nan_l x y : (x <=? y) = true -> is_nan x = false.
Proof.
  intros H. apply leb_fcmp in H.
  destruct (is_nan x) eqn:E; [|reflexivity].
  assert (fcmp x y = None) by (apply fcmp_None; auto).
  destruct H; congruence.
Qed.

Lemma leb_not_nan_r x y : (x <=? y) = true -> is_nan y = false.
Proof.
  intros H. apply leb_fcmp in H.
  destruct (is_nan y) eqn:E; [|reflexivity].
  assert (fcmp x y = None) by (apply fcmp_None; auto).
  destruct H; congruence.
Qed.

Lemma ltb_leb x y : (x <? y) = true -> (x <=? y) = true.
Proof. rewrite ltb_fcmp, leb_fcmp. auto. Qed.

Lemma leb_ltb_false x y : (x <=? y) = true -> (y <? x) = false.
Proof.
  intros H. apply leb_fcmp in H.
  destruct (y <? x) eqn:E; [|reflexivity].
  apply ltb_fcmp in E. rewrite fcmp_antisym in E.
  destruct H as [H|H]; rewrite H in E; discriminate.
Qed.

(** Neither [x < y] nor [y < x] on comparable floats: they are [===]. *)
Lemma not_ltb_eqb x y :
  is_nan x = false -> is_nan y = false ->
  (x <? y) = false -> (y <? x) = false -> (x =? y) = true.
Proof.
  intros Hx Hy H1 H2. destruct (fcmp_Some x y Hx Hy) as [c Hc].
  apply eqb_fcmp. destruct c; [assumption| |].
  - apply ltb_fcmp in Hc. congruence.
  - assert (fcmp y x = Some Lt) by (rewrite fcmp_antisym, Hc; reflexivity).
    apply ltb_fcmp in H. congruence.
Qed.

Lemma eqb_sym x y : (x =? y) = true -> (y =? x) = true.
Proof.
  rewrite !eqb_fcmp. intros H. rewrite fcmp_antisym, H. reflexivity.
Qed.

Lemma eqb_leb x y : (x =? y) = true -> (x <=? y) = true.
Proof. rewrite eqb_fcmp, leb_fcmp. auto. Qed.

Lemma SFcompare_Lt_trans (a b c : spec_float) :
  SFcompare a b = Some Lt -> SFcompare b c = Some Lt ->
  SFcompare a c = Some Lt.
Proof.
  destruct a as [[]|[]| |[] ma ea], b as [[]|[]| |[] mb eb],
           c as [[]|[]| |[] mc ec];
    simpl; try congruence;
    intros H1 H2; injection H1 as H1; injection H2 as H2; f_equal;
    change (Pos.compare_cont Eq) with Pos.compare in *;
    destruct (Z.compare_spec ea eb), (Z.compare_spec eb ec),
             (Z.compare_spec ea ec);
    try discriminate; try lia; try reflexivity; subst;
    destruct (Pos.compare_spec ma mb), (Pos.compare_spec mb mc),
             (Pos.compare_spec ma mc);
    simpl in *; try discriminate; try lia; try reflexivity.
Qed.

(** [<] on floats is transitive and irreflexive. *)
Lemma ltb_trans x y z :
  (x <? y) = true -> (y <? z) = true -> (x <? z) = true.
Proof. rewrite !ltb_fcmp. apply SFcompare_Lt_trans. Qed.

Lemma ltb_irrefl x : (x <? x) = false.
Proof.
  destruct (x <? x) eqn:E; [|reflexivity].
  apply ltb_fcmp in E. unfold fcmp in E.
  destruct (Prim2SF x) as [[]|[]| |[] m e] eqn:Ex; simpl in E;
    try discriminate;
    rewrite Z.compare_refl, Pos.compare_cont_refl in E; discriminate.
Qed.

(** [x + 0] is [x], except that [-0 + 0] is [+0]. *)
Lemma add_zero_r x : same_number (x + 0) x.
Proof.
  unfold same_number.
  destruct (Prim2SF x) as [[]|[]| |[] m e] eqn:E;
    try (left; apply Prim2SF_inj; rewrite add_spec, E; reflexivity).
  right. rewrite eqb_spec, add_spec, E. reflexivity.
Qed.

(** [x - 0] is [x]. *)
Lemma sub_zero_r x : x - 0 = x.
Proof.
  apply Prim2SF_inj. rewrite sub_spec.
  destruct (Prim2SF x) as [[]|[]| |[] m e]; reflexivity.
Qed.

(** [Math.max(0, d)] is [d] for [d >= 0], up to the sign of zero. *)
Lemma Math_max_zero_l d : (0 <=? d) = true -> same_number (Math_max 0 d) d.
Proof.
  intros H. unfold Math_max.
  rewrite (leb_not_nan_r _ _ H). simpl.
  rewrite (leb_ltb_false _ _ H).
  destruct (0 <? d) eqn:E; [left; reflexivity|].
  right. apply not_ltb_eqb;
    [reflexivity | eapply leb_not_nan_r; eassumption | assumption
    | apply leb_ltb_false; assumption].
Qed.

End FloatFacts.

(** ** The simulation clock *)

Import JS.
Open Scope float_scope.

(** For a number that is not NaN the stored time scale lies in [0.1, 100]. *)
Lemma setTimeScale_range (scale : float) (s : SimClock.SimClockState) :
  is_nan scale = false ->
  (0.1 <=? SimClock.timeScale (SimClock.setTimeScale scale s)) = true /\
  (SimClock.timeScale (SimClock.setTimeScale scale s) <=? 100) = true.
Proof.
  intros Hn.
  assert (Hts : SimClock.timeScale (SimClock.setTimeScale scale s)
                = Math_max 0.1 (Math_min 100 scale)).
  { unfold SimClock.setTimeScale. cbv zeta.
    destruct (_ =? 0); reflexivity. }
  rewrite Hts. clear Hts.
  assert (Hmin : Math_min 100 scale = 100 \/
                 (Math_min 100 scale = scale /\ (scale <=? 100) = true)).
  { unfold Math_min. rewrite Hn.
    change (is_nan 100 || false) with false. cbv iota.
    destruct (100 <? scale) eqn:E1; [left; reflexivity|].
    destruct (scale <? 100) eqn:E2.
    - right. split; [reflexivity | apply FloatFacts.ltb_leb; assumption].
    - right. split; [reflexivity|].
      apply FloatFacts.eqb_leb, FloatFacts.not_ltb_eqb; auto. }
  destruct Hmin as [-> | [-> Hle]]; [split; reflexivity|].
  unfold Math_max. rewrite Hn.
  change (is_nan 0.1 || false) with false. cbv iota.
  destruct (0.1 <? scale) eqn:E1.
  - split; [apply FloatFacts.ltb_leb; assumption | assumption].
  - destruct (scale <? 0.1) eqn:E2; split; reflexivity.
Qed.

(** The pause branch of [setTimeScale] is never taken: whatever the argument,
    the paused flag is left as it was. *)
Lemma setTimeScale_paused_unchanged (scale : float)
    (s : SimClock.SimClockState) :
  SimClock.paused (SimClock.setTimeScale scale s) = SimClock.paused s.
Proof.
  unfold SimClock.setTimeScale. cbv zeta.
  destruct (_ =? 0) eqn:E; [|reflexivity]. exfalso.
  cbn [SimClock.timeScale SimClock.with_timeScale] in E.
  destruct (is_nan scale) eqn:Hn.
  - unfold Math_max, Math_min in E. rewrite Hn in E.
    rewrite orb_true_r in E. vm_compute in E. discriminate.
  - destruct (setTimeScale_range scale s Hn) as [Hlo _].
    assert (Hts : SimClock.timeScale (SimClock.setTimeScale scale s)
                  = Math_max 0.1 (Math_min 100 scale)).
    { unfold SimClock.setTimeScale. cbv zeta.
      destruct (_ =? 0); reflexivity. }
    rewrite Hts in Hlo. clear Hts.
    set (r := Math_max 0.1 (Math_min 100 scale)) in *.
    apply FloatFacts.eqb_fcmp in E. apply FloatFacts.leb_fcmp in Hlo.
    unfold FloatFacts.fcmp in E, Hlo.
    destruct (Prim2SF r) as [[]|[]| |[] m e];
      vm_compute in E; try discriminate;
      vm_compute in Hlo; destruct Hlo; discriminate.
Qed.

(** C6 (second half, refuted on the code).  [setTimeScale(0)] stores the
    clamped value 0.1, so the test [timeScale === 0] that follows fails and
    the clock is not paused: a running clock keeps running. *)
Theorem setTimeScale_zero_not_paused (s : SimClock.SimClockState) :
  SimClock.timeScale (SimClock.setTimeScale 0 s) = 0.1 /\
  SimClock.paused (SimClock.setTimeScale 0 s) = SimClock.paused s.
Proof.
  split; [|apply setTimeScale_paused_unchanged].
  destruct s; reflexivity.
Qed.

(** The repository's test [auto-pauses when scale is set to 0], run on the
    code: a clock built with [paused: false]. *)
Example setTimeScale_zero_running_clock :
  SimClock.setTimeScale 0 (SimClock.mkSimClockState false 1 0 "default" 1)
  = SimClock.mkSimClockState false 0.1 0 "default" 1.
Proof. reflexivity. Qed.

(** [Math.min(100, NaN)] is NaN and so is the stored time scale. *)
Example setTimeScale_nan :
  SimClock.timeScale
    (SimClock.setTimeScale nan
       (SimClock.mkSimClockState false 1 0 "default" 1)) = nan.
Proof. reflexivity. Qed.

(** ** Impulsive burns *)

(** C4.  [applyDeltaV] throws when the budget is negative, throws when the
    magnitude of the requested delta-v exceeds the budget, and otherwise
    returns a state with the position of the input, the velocity of the input
    plus the delta-v component by component, and the budget
    [Math.max(0, dvRemaining - |dv|)].  The function has no access to the
    caller's object other than reading it, so no outcome mutates the input. *)
Theorem applyDeltaV_outcomes (state : Types.CartesianState)
    (dvx dvy dvz dvRemaining : float) :
  let dvMagnitude := Math_sqrt (dvx * dvx + dvy * dvy + dvz * dvz) in
  let result := DeltaV.applyDeltaV state (dvx, dvy, dvz) dvRemaining in
  ((dvRemaining <? 0) = true -> result = inl DeltaV.NegativeBudget) /\
  ((dvRemaining <? dvMagnitude) = true -> exists err, result = inl err) /\
  ((dvRemaining <? 0) = false -> (dvRemaining <? dvMagnitude) = false ->
   let '(vx, vy, vz) := Types.velocity state in
   result = inr (DeltaV.mkDeltaVResult
                   (Types.mkCartesianState (Types.position state)
                      (vx + dvx, vy + dvy, vz + dvz))
                   (Math_max 0 (dvRemaining - dvMagnitude)))).
Proof.
  cbv zeta. unfold DeltaV.applyDeltaV.
  repeat split.
  - intros ->. reflexivity.
  - intros H. destruct (dvRemaining <? 0); [eauto|]. rewrite H. eauto.
  - intros -> ->. destruct (Types.velocity state) as [[vx vy] vz].
    reflexivity.
Qed.

(** The burn of the specification: budget 100, requested magnitude 150
    (the vector (90, 120, 0)) is refused; a burn of magnitude 50 is applied
    and leaves a budget of 50. *)
Lemma applyDeltaV_outcomes_witness :
  let s := Types.mkCartesianState (7000000, 0, 0) (0, 7500, 0) in
  (exists err, DeltaV.applyDeltaV s (90, 120, 0) 100 = inl err) /\
  DeltaV.applyDeltaV s (0, 1, 0) (-1) = inl DeltaV.NegativeBudget /\
  DeltaV.applyDeltaV s (30, 40, 0) 100
  = inr (DeltaV.mkDeltaVResult
           (Types.mkCartesianState (7000000, 0, 0) (30, 7540, 0)) 50).
Proof.
  intro s. split; [|split].
  - apply (applyDeltaV_outcomes s 90 120 0 100). reflexivity.
  - apply (applyDeltaV_outcomes s 0 1 0 (-1)). reflexivity.
  - apply (applyDeltaV_outcomes s 30 40 0 100); reflexivity.
Defined.

(** C9.  A zero delta-v with a budget [dvRemaining >= 0] is accepted and is
    the identity: the position is the input's, every velocity component and
    the budget are the same numbers as before (the very same float, or equal
    as numbers when the input is a zero: [-0 + 0] is [+0]). *)
Theorem applyDeltaV_zero_identity (state : Types.CartesianState)
    (dvRemaining : float) :
  (0 <=? dvRemaining) = true ->
  exists r,
    DeltaV.applyDeltaV state (0, 0, 0) dvRemaining = inr r /\
    Types.position (DeltaV.newState r) = Types.position state /\
    same_vec3 (Types.velocity (DeltaV.newState r)) (Types.velocity state) /\
    same_number (DeltaV.newDvRemaining r) dvRemaining.
Proof.
  intros H. unfold DeltaV.applyDeltaV.
  rewrite (FloatFacts.leb_ltb_false _ _ H).
  change (Math_sqrt (0 * 0 + 0 * 0 + 0 * 0)) with 0.
  rewrite (FloatFacts.leb_ltb_false _ _ H).
  destruct (Types.velocity state) as [[vx vy] vz].
  eexists. split; [reflexivity|]. cbn [DeltaV.newState Types.position
    Types.velocity DeltaV.newDvRemaining].
  split; [reflexivity|]. split.
  - repeat split; apply FloatFacts.add_zero_r.
  - rewrite FloatFacts.sub_zero_r. apply FloatFacts.Math_max_zero_l, H.
Qed.

Lemma applyDeltaV_zero_identity_witness :
  exists r,
    DeltaV.applyDeltaV
      (Types.mkCartesianState (7000000, 0, 0) (0, 7500, -0)) (0, 0, 0) 100
    = inr r /\
    Types.position (DeltaV.newState r) = (7000000, 0, 0) /\
    same_vec3 (Types.velocity (DeltaV.newState r)) (0, 7500, -0) /\
    same_number (DeltaV.newDvRemaining r) 100.
Proof.
  apply (applyDeltaV_zero_identity
           (Types.mkCartesianState (7000000, 0, 0) (0, 7500, -0)) 100).
  reflexivity.
Defined.

(** ** Task allocation and objective completion *)

Section TaskFacts.
Import Types Tasks.

Lemma allocateObjective_completed agents assigned o :
  is_completed o = true -> allocateObjective agents assigned o = (o, assigned).
Proof. unfold allocateObjective. intros ->. reflexivity. Qed.

Lemma allocateTasks_from_nth_completed objectives :
  forall agents assigned k o,
    nth_error objectives k = Some o -> is_completed o = true ->
    nth_error (allocateTasks_from agents assigned objectives) k = Some o.
Proof.
  induction objectives as [|o' rest IH]; intros agents assigned k o Hk Hc.
  - destruct k; discriminate.
  - cbn [allocateTasks_from].
    destruct (allocateObjective agents assigned o') as [o1 assigned1] eqn:E.
    destruct k as [|k]; cbn in Hk |- *.
    + injection Hk as ->.
      rewrite allocateObjective_completed in E by assumption.
      injection E as <- _. reflexivity.
    + apply IH; assumption.
Qed.

End TaskFacts.

(** C10.  [allocateTasks] leaves every completed objective exactly as it
    was: the objective at the same index of the array after the call is the
    same value, field for field. *)
Theorem allocateTasks_completed_unchanged
    (agents : list Types.Agent) (objectives : list Tasks.Objective)
    (k : nat) (o : Tasks.Objective) :
  nth_error objectives k = Some o ->
  Tasks.is_completed o = true ->
  nth_error (Tasks.allocateTasks agents objectives) k = Some o.
Proof. apply allocateTasks_from_nth_completed. Qed.

Section CompletionFacts.
Import Types Tasks.

(** The objective at index [k] after [updateObjectiveState] is the result of
    the loop body on the objective at index [k] before, and what the body
    pushed is part of the returned array. *)
Lemma updateObjectiveState_nth objectives :
  forall agents simTime k o,
    nth_error objectives k = Some o ->
    nth_error (fst (updateObjectiveState objectives agents simTime)) k
    = Some (fst (updateObjective agents simTime o)) /\
    incl (snd (updateObjective agents simTime o))
         (snd (updateObjectiveState objectives agents simTime)).
Proof.
  induction objectives as [|o' rest IH]; intros agents simTime k o Hk.
  - destruct k; discriminate.
  - cbn [updateObjectiveState].
    destruct (updateObjective agents simTime o') as [o1 pushed] eqn:E.
    destruct (updateObjectiveState rest agents simTime) as [rest' more] eqn:R.
    destruct k as [|k]; cbn in Hk |- *.
    + injection Hk as ->. rewrite E. cbn. split; [reflexivity|].
      apply incl_appl, incl_refl.
    + destruct (IH agents simTime k o Hk) as [H1 H2]. rewrite R in H1, H2.
      split; [exact H1|]. apply incl_appr. exact H2.
Qed.

End CompletionFacts.

(** C3.  A relay node with an assigned agent that exists (the id is a
    non-empty string, as the scenario schema requires).  On a tick where the
    agent is within the threshold and no hold start is recorded, the hold
    start becomes the current [simTime]; on a tick where it is within the
    threshold and a hold start is recorded, the objective is completed (and
    its id returned) exactly when [simTime - startTime >= holdDuration], and
    is otherwise left as it is; on a tick where the agent is not within the
    threshold the hold start is reset to [null].  With threshold 1000 m and
    hold duration 30 s, an agent that enters at t = 10 s and stays completes
    at the tick t = 40 s, and one that is outside at t = 25 s and back at
    t = 30 s completes at the tick t = 60 s. *)
Theorem relay_hold_timer :
  (forall objectives agents simTime k b hold thr a start agent,
     nth_error objectives k
     = Some (Tasks.RelayNodeObjective b hold thr (Some a) start) ->
     Tasks.completed b = false ->
     a <> EmptyString ->
     Tasks.findAgent agents a = Some agent ->
     let dist :=
       Tasks.distance (Types.position (Types.state agent))
         (Tasks.objective_position b) in
     let result := Tasks.updateObjectiveState objectives agents simTime in
     let after := nth_error (fst result) k in
     match dist <=? thr, start with
     | true, None =>
       after = Some (Tasks.RelayNodeObjective b hold thr (Some a)
                       (Some simTime))
     | true, Some startTime =>
       if hold <=? simTime - startTime then
         after = Some (Tasks.RelayNodeObjective (Tasks.set_completed b)
                         hold thr (Some a) start) /\
         In (Tasks.objective_id b) (snd result)
       else
         after = Some (Tasks.RelayNodeObjective b hold thr (Some a) start)
     | false, _ =>
       after = Some (Tasks.RelayNodeObjective b hold thr (Some a) None)
     end) /\
  Driver.ticks Samples.stays [Samples.relay]
  = [[]; []; []; []; []; ["relay-1"%string]; []] /\
  Driver.ticks Samples.leaves [Samples.relay]
  = [[]; []; []; []; []; []; []; []; ["relay-1"%string]; []].
Proof.
  split; [|split; vm_compute; reflexivity].
  intros objectives agents simTime k b hold thr a start agent Hk Hc Ha Hf.
  cbv zeta.
  destruct (updateObjectiveState_nth objectives agents simTime k _ Hk)
    as [Hn Hi].
  rewrite Hn. clear Hn.
  unfold Tasks.updateObjective in *.
  unfold Tasks.is_completed in *. cbn [Tasks.base] in *.
  rewrite Hc in *.
  assert (Ht : Tasks.truthy (Some a) = true).
  { cbn. destruct (String.eqb_spec a EmptyString); [contradiction|reflexivity]. }
  rewrite Ht in *. cbn [negb] in *. rewrite Hf in *.
  destruct (_ <=? thr); [|reflexivity].
  destruct start as [startTime|]; [|reflexivity].
  destruct (hold <=? simTime - startTime); [|reflexivity].
  split; [reflexivity|]. apply Hi. left. reflexivity.
Qed.

(** The general part of [relay_hold_timer] on the relay node of the
    scenario: first entry at t = 10 s, then the tick at t = 40 s. *)
Lemma relay_hold_timer_witness :
  nth_error
    (fst (Tasks.updateObjectiveState [Samples.relay] Samples.inside 10)) 0
  = Some (Tasks.RelayNodeObjective
            (Tasks.mkBaseObjective "relay-1" (0, 0, 0) 100 false)
            30 1000 (Some "sat-1"%string) (Some 10)).
Proof.
  destruct relay_hold_timer as [H _].
  refine (H [Samples.relay] Samples.inside 10 0%nat
            (Tasks.mkBaseObjective "relay-1" (0, 0, 0) 100 false)
            30 1000 "sat-1"%string None
            (Samples.agentAt "sat-1" (600, 0, 0) (0, 0, 0)) _ _ _ _);
    [reflexivity | reflexivity | discriminate | reflexivity].
Defined.

Lemma allocateTasks_completed_unchanged_witness :
  let done :=
    Tasks.RelayNodeObjective
      (Tasks.mkBaseObjective "relay-0" (900, 0, 0) 50 true)
      30 1000 (Some "gone"%string) (Some 3) in
  nth_error (Tasks.allocateTasks Samples.inside [Samples.relay; done]) 1
  = Some done.
Proof.
  intro done.
  apply (allocateTasks_completed_unchanged Samples.inside
           [Samples.relay; done] 1 done); reflexivity.
Defined.

Section MonotonicityFacts.
Import Types Tasks Driver.

(** The loop body of [updateObjectiveState]: the id is kept, a completed
    objective is skipped, and an id is pushed exactly when the body has just
    set the flag. *)
Lemma updateObjective_props agents simTime o :
  oid (fst (updateObjective agents simTime o)) = oid o /\
  (is_completed o = true -> fst (updateObjective agents simTime o) = o) /\
  snd (updateObjective agents simTime o)
  = (if negb (is_completed o)
        && is_completed (fst (updateObjective agents simTime o))
     then [oid o] else []).
Proof.
  unfold updateObjective, oid, is_completed.
  destruct (completed (base o)) eqn:Hc; [repeat split; reflexivity|].
  destruct o as [b thr vthr | b hold thr aid start | b radius required ids];
    cbn [base] in Hc |- *.
  - destruct (inspectedBy _ _ _ _); cbn; rewrite ?Hc; repeat split;
      intros; discriminate.
  - destruct (truthy aid); cbn [negb];
      [|cbn; rewrite ?Hc; repeat split; intros; discriminate].
    destruct aid as [a|];
      [|cbn; rewrite ?Hc; repeat split; intros; discriminate].
    destruct (findAgent agents a) as [agent|];
      [|cbn; rewrite ?Hc; repeat split; intros; discriminate].
    destruct (_ <=? thr);
      [|cbn; rewrite ?Hc; repeat split; intros; discriminate].
    destruct start as [startTime|];
      [|cbn; rewrite ?Hc; repeat split; intros; discriminate].
    destruct (hold <=? _); cbn; rewrite ?Hc; repeat split;
      intros; discriminate.
  - destruct (_ <=? _)%Z; cbn; rewrite ?Hc; repeat split;
      intros; discriminate.
Qed.

(** The loop body of [allocateTasks] keeps the id and the completed flag. *)
Lemma allocateObjective_props agents assigned o :
  oid (fst (allocateObjective agents assigned o)) = oid o /\
  is_completed (fst (allocateObjective agents assigned o)) = is_completed o.
Proof.
  unfold allocateObjective, oid, is_completed.
  destruct (completed (base o)) eqn:Hc; [split; [reflexivity | exact Hc]|].
  destruct o as [b thr vthr | b hold thr aid start | b radius required ids];
    cbn [base] in Hc |- *.
  - destruct (findNearestAgent _ _ _); cbn; rewrite ?Hc; split; reflexivity.
  - destruct aid as [a|]; [destruct (truthy (Some a));
      [destruct (findAgent agents a)|]|];
      try destruct (findNearestAgent _ _ _);
      cbn; rewrite ?Hc; split; reflexivity.
  - destruct (addAgentsInZone _ _ _) as [ids2 assigned2].
    destruct (0 <? _)%Z; [destruct (assignNearest _ _ _ _ _)|];
      cbn; rewrite ?Hc; split; reflexivity.
Qed.

(** Two arrays related slot by slot: same ids, and a set flag stays set. *)
Definition advances (before after : list Objective) : Prop :=
  Forall2 (fun o o' =>
             oid o' = oid o /\ (is_completed o = true -> is_completed o' = true))
          before after.

Lemma advances_refl l : advances l l.
Proof. induction l; constructor; auto. Qed.

Lemma advances_trans l1 l2 l3 :
  advances l1 l2 -> advances l2 l3 -> advances l1 l3.
Proof.
  intros H. revert l3. induction H as [|a b l1 l2 [Hi Hc] _ IH];
    intros l3 H3; inversion H3 as [|b' c l2' l3' [Hi' Hc'] Hr]; subst.
  - constructor.
  - constructor; [split; [congruence | auto] | apply IH; exact Hr].
Qed.

Lemma advances_ids l1 l2 : advances l1 l2 -> map oid l2 = map oid l1.
Proof.
  induction 1 as [|a b l1 l2 [Hi _] _ IH]; [reflexivity|].
  cbn. rewrite Hi, IH. reflexivity.
Qed.

Lemma advances_nth l1 l2 k o :
  advances l1 l2 -> nth_error l1 k = Some o ->
  exists o', nth_error l2 k = Some o' /\ oid o' = oid o /\
             (is_completed o = true -> is_completed o' = true).
Proof.
  intros H. revert k. induction H as [|a b l1 l2 [Hi Hc] _ IH]; intros k Hk.
  - destruct k; discriminate.
  - destruct k as [|k]; cbn in Hk |- *.
    + injection Hk as <-. eauto.
    + auto.
Qed.

Lemma allocateTasks_from_advances objectives :
  forall agents assigned,
    advances objectives (allocateTasks_from agents assigned objectives) /\
    map is_completed (allocateTasks_from agents assigned objectives)
    = map is_completed objectives.
Proof.
  induction objectives as [|o rest IH]; intros agents assigned.
  - split; [constructor | reflexivity].
  - cbn [allocateTasks_from].
    destruct (allocateObjective agents assigned o) as [o1 assigned1] eqn:E.
    destruct (allocateObjective_props agents assigned o) as [Hi Hc].
    rewrite E in Hi, Hc. cbn [fst] in Hi, Hc.
    destruct (IH agents assigned1) as [IH1 IH2]. split.
    + constructor; [split; [exact Hi | congruence] | exact IH1].
    + cbn. rewrite Hc, IH2. reflexivity.
Qed.

Lemma updateObjectiveState_advances objectives agents simTime :
  advances objectives (fst (updateObjectiveState objectives agents simTime)).
Proof.
  induction objectives as [|o rest IH]; [constructor|].
  cbn [updateObjectiveState].
  destruct (updateObjective agents simTime o) as [o1 pushed] eqn:E.
  destruct (updateObjectiveState rest agents simTime) as [rest' more].
  destruct (updateObjective_props agents simTime o) as (Hi & Hc & _).
  rewrite E in Hi, Hc. cbn [fst] in *.
  constructor; [split; [exact Hi | intros H; rewrite (Hc H); exact H]
               | exact IH].
Qed.

Lemma includes_app l1 l2 x : includes (l1 ++ l2) x = includes l1 x || includes l2 x.
Proof. apply existsb_app. Qed.

(** Which ids [updateObjectiveState] returns: those of the objectives whose
    flag the call has just set. *)
Lemma updateObjectiveState_returned objectives agents simTime id :
  includes (snd (updateObjectiveState objectives agents simTime)) id
  = existsb (fun o =>
               String.eqb id (oid o)
               && (negb (is_completed o)
                   && is_completed (fst (updateObjective agents simTime o))))
            objectives.
Proof.
  induction objectives as [|o rest IH]; [reflexivity|].
  cbn [updateObjectiveState existsb].
  destruct (updateObjectiveState rest agents simTime) as [rest' more].
  destruct (updateObjective_props agents simTime o) as (_ & _ & Hp).
  destruct (updateObjective agents simTime o) as [o1 pushed].
  cbn [fst snd] in *. rewrite includes_app, IH. f_equal.
  rewrite Hp.
  destruct (negb (is_completed o) && is_completed o1); cbn;
    rewrite ?orb_false_r, ?andb_true_r, ?andb_false_r; reflexivity.
Qed.

Lemma existsb_unique_id (P : Objective -> bool) objectives :
  NoDup (map oid objectives) ->
  forall k o, nth_error objectives k = Some o ->
    existsb (fun o' => String.eqb (oid o) (oid o') && P o') objectives = P o.
Proof.
  induction objectives as [|o1 rest IH]; intros Hnd k o Hk.
  - destruct k; discriminate.
  - cbn [map] in Hnd. inversion Hnd as [|x l Hnot Hnd']; subst.
    assert (Hrest : forall o2, In o2 rest -> String.eqb (oid o1) (oid o2) = false).
    { intros o2 Hin. destruct (String.eqb_spec (oid o1) (oid o2)) as [e|];
        [|reflexivity].
      exfalso. apply Hnot. rewrite e. apply in_map. exact Hin. }
    destruct k as [|k]; cbn in Hk.
    + injection Hk as ->. cbn [existsb]. rewrite String.eqb_refl. cbn.
      destruct (P o); [reflexivity|]. cbn.
      apply not_true_is_false. intros H. apply existsb_exists in H.
      destruct H as (o2 & Hin & H). rewrite (Hrest o2 Hin) in H. discriminate.
    + cbn [existsb]. rewrite (IH Hnd' k o Hk).
      assert (Hin : In o rest) by (eapply nth_error_In; eassumption).
      rewrite String.eqb_sym, (Hrest o Hin). reflexivity.
Qed.

Lemma perform_advances c objectives :
  advances objectives (fst (perform c objectives)).
Proof.
  destruct c as [agents | agents simTime]; cbn.
  - apply allocateTasks_from_advances.
  - pose proof (updateObjectiveState_advances objectives agents simTime) as H.
    destruct (updateObjectiveState objectives agents simTime). exact H.
Qed.

Lemma run_advances calls :
  forall objectives, advances objectives (fst (run calls objectives)).
Proof.
  induction calls as [|c rest IH]; intros objectives; [apply advances_refl|].
  cbn [run].
  pose proof (perform_advances c objectives) as H1.
  destruct (perform c objectives) as [objectives1 returned].
  pose proof (IH objectives1) as H2.
  destruct (run rest objectives1) as [objectives2 returns].
  cbn [fst] in *. eapply advances_trans; eassumption.
Qed.

Lemma run_app calls1 :
  forall calls2 objectives,
    fst (run (calls1 ++ calls2) objectives)
    = fst (run calls2 (fst (run calls1 objectives))).
Proof.
  induction calls1 as [|c rest IH]; intros calls2 objectives; [reflexivity|].
  cbn [app run].
  destruct (perform c objectives) as [objectives1 returned].
  pose proof (IH calls2 objectives1) as H.
  destruct (run (rest ++ calls2) objectives1) as [o2 r2].
  destruct (run rest objectives1) as [o3 r3]. exact H.
Qed.

(** What one call returns for the objective at index [k]: its id is in the
    returned array exactly when the call set its flag. *)
Lemma perform_returned c objectives k o o' :
  NoDup (map oid objectives) ->
  nth_error objectives k = Some o ->
  nth_error (fst (perform c objectives)) k = Some o' ->
  match snd (perform c objectives) with
  | Some ids => includes ids (oid o)
  | None => false
  end = negb (is_completed o) && is_completed o'.
Proof.
  intros Hnd Hk Hk'. destruct c as [agents | agents simTime]; cbn in *.
  - destruct (allocateTasks_from_advances objectives agents []) as [_ Hf].
    assert (H : nth_error (map is_completed (allocateTasks agents objectives)) k
                = nth_error (map is_completed objectives) k)
      by (unfold allocateTasks; rewrite Hf; reflexivity).
    rewrite !nth_error_map, Hk, Hk' in H. cbn in H. injection H as ->.
    destruct (is_completed o); reflexivity.
  - destruct (updateObjectiveState_nth objectives agents simTime k o Hk)
      as [Hn _].
    pose proof (updateObjectiveState_returned objectives agents simTime (oid o))
      as Hr.
    destruct (updateObjectiveState objectives agents simTime) as [objs ids].
    cbn [fst snd] in *. rewrite Hr.
    rewrite (existsb_unique_id _ objectives Hnd k o Hk).
    rewrite Hn in Hk'. injection Hk' as ->. reflexivity.
Qed.

Lemma run_emissions calls :
  forall objectives k o o',
    NoDup (map oid objectives) ->
    nth_error objectives k = Some o ->
    nth_error (fst (run calls objectives)) k = Some o' ->
    emissions (oid o) (snd (run calls objectives))
    = if negb (is_completed o) && is_completed o' then 1%nat else 0%nat.
Proof.
  induction calls as [|c rest IH]; intros objectives k o o' Hnd Hk Hk'.
  - cbn in *. rewrite Hk in Hk'. injection Hk' as ->.
    destruct (is_completed o'); reflexivity.
  - cbn [run] in *.
    pose proof (perform_advances c objectives) as Ha.
    pose proof (perform_returned c objectives k o) as Hp.
    destruct (perform c objectives) as [objectives1 returned].
    cbn [fst snd] in *.
    destruct (advances_nth _ _ k o Ha Hk) as (o1 & Hk1 & Hi1 & Hc1).
    specialize (Hp o1 Hnd Hk Hk1).
    assert (Hnd1 : NoDup (map oid objectives1))
      by (rewrite (advances_ids _ _ Ha); exact Hnd).
    pose proof (IH objectives1 k o1 o') as IH1.
    pose proof (run_advances rest objectives1) as Ha2.
    destruct (run rest objectives1) as [objectives2 returns].
    cbn [fst snd] in *.
    specialize (IH1 Hnd1 Hk1 Hk').
    destruct (advances_nth _ _ k o1 Ha2 Hk1) as (o2 & Hk2 & _ & Hc2).
    rewrite Hk' in Hk2. injection Hk2 as <-.
    unfold emissions in *. cbn [filter].
    rewrite Hi1 in IH1. rewrite Hp.
    destruct (is_completed o) eqn:E0, (is_completed o1) eqn:E1;
      cbn [negb andb] in *; cbn [List.length];
      try (specialize (Hc1 eq_refl); discriminate);
      try rewrite IH1; try reflexivity.
    rewrite (Hc2 eq_refl). reflexivity.
Qed.

End MonotonicityFacts.

(** C8.  Over any sequence of [allocateTasks] and [updateObjectiveState]
    calls on the same array: an objective whose completed flag is set after
    some prefix of the calls still has it set after any longer sequence; and,
    the ids of the array being pairwise distinct, the id of an objective is
    returned as newly completed by exactly one call if the objective went
    from not completed to completed during the sequence, and by no call
    otherwise. *)
Theorem completed_monotonic_emitted_once :
  (forall calls1 calls2 objectives k o,
     nth_error (fst (Driver.run calls1 objectives)) k = Some o ->
     Tasks.is_completed o = true ->
     exists o',
       nth_error (fst (Driver.run (calls1 ++ calls2) objectives)) k = Some o'
       /\ Tasks.is_completed o' = true) /\
  (forall calls objectives k o,
     NoDup (map Tasks.oid objectives) ->
     nth_error objectives k = Some o ->
     exists o',
       nth_error (fst (Driver.run calls objectives)) k = Some o' /\
       Driver.emissions (Tasks.oid o) (snd (Driver.run calls objectives))
       = if negb (Tasks.is_completed o) && Tasks.is_completed o'
         then 1%nat else 0%nat).
Proof.
  split.
  - intros calls1 calls2 objectives k o Hk Hc. rewrite run_app.
    destruct (advances_nth _ _ k o (run_advances calls2 _) Hk)
      as (o' & Hk' & _ & Hc').
    eauto.
  - intros calls objectives k o Hnd Hk.
    destruct (advances_nth _ _ k o (run_advances calls objectives) Hk)
      as (o' & Hk' & _ & _).
    exists o'. split; [exact Hk'|].
    apply (run_emissions calls objectives k); assumption.
Qed.

Lemma completed_monotonic_emitted_once_witness :
  (exists o',
     nth_error
       (fst (Driver.run (Samples.holdCalls ++ Samples.laterCalls)
               [Samples.relay])) 0 = Some o'
     /\ Tasks.is_completed o' = true) /\
  Driver.emissions "relay-1"
    (snd (Driver.run (Samples.holdCalls ++ Samples.laterCalls)
            [Samples.relay])) = 1%nat.
Proof.
  destruct completed_monotonic_emitted_once as [Hmono Honce]. split.
  - apply (Hmono Samples.holdCalls Samples.laterCalls [Samples.relay] 0%nat
             (Tasks.RelayNodeObjective
                (Tasks.mkBaseObjective "relay-1" (0, 0, 0) 100 true)
                30 1000 (Some "sat-1"%string) (Some 10)));
      reflexivity.
  - destruct (Honce (Samples.holdCalls ++ Samples.laterCalls)
                [Samples.relay] 0%nat Samples.relay) as (o' & Hk & He).
    + repeat constructor. intros [].
    + reflexivity.
    + vm_compute in Hk. injection Hk as <-. exact He.
Defined.

(** ** Objective steering *)

(** C7 (refuted on the code).  The loop keeps a running target: an assigned
    relay node or zone replaces it unconditionally, and an inspect point
    replaces it when strictly closer than the running target, whatever that
    target is.  For [sat-1] and the array [Samples.busy] the function steers
    along +z to the inspect point 80 m away: this is not the nearest
    uncompleted inspect point (the one 50 m away, along +y) and not the
    relay node the agent is assigned to (100 m away, along +x). *)
Theorem computeObjectiveSteering_mixed_target :
  Tasks.selectTarget Samples.sat1 Samples.busy = Some Samples.inspectFar /\
  Tasks.computeObjectiveSteering Samples.sat1 Samples.busy
    Tasks.DEFAULT_OBJECTIVE_STEERING_PARAMS
  = Swarm.mkVelocityAdjustment (0, 0, 0.5) /\
  (Tasks.distance (0, 0, 0) (0, 50, 0) <? Tasks.distance (0, 0, 0) (0, 0, 80))
  = true.
Proof. repeat split. Qed.

(** Where the claim does hold: for an agent that is assigned to no
    uncompleted relay node or zone of the array, the target is a nearest
    uncompleted inspect point, and there is no target only if the array has
    no uncompleted inspect point. *)
Lemma selectTarget_nearest_inspectPoint agent objectives :
  (forall o, In o objectives -> Tasks.is_completed o = false ->
     SteeringSpec.assignedTo agent o = false) ->
  match Tasks.selectTarget agent objectives with
  | Some target => SteeringSpec.nearestInspectPoint agent objectives target
  | None =>
    forall o, In o objectives -> Tasks.is_completed o = false ->
      SteeringSpec.isInspectPoint o = false
  end.
Proof.
  unfold Tasks.selectTarget.
  induction objectives as [|o l IH] using rev_ind; intros Hassigned.
  - cbn. intros o [].
  - rewrite fold_left_app. cbn [fold_left].
    assert (IH' := IH (fun o' Hin => Hassigned o' (in_or_app _ _ _ (or_introl Hin)))).
    clear IH.
    assert (Ho := Hassigned o (in_or_app l [o] o (or_intror (in_eq o [])))).
    set (target := fold_left (Tasks.nextTarget agent) l None) in *.
    unfold Tasks.nextTarget.
    destruct (Tasks.is_completed o) eqn:Hc.
    { (* a completed objective is skipped *)
      destruct target as [t|].
      - destruct IH' as (Hin & Htc & Hti & Hnear).
        split; [apply in_or_app; left; exact Hin|].
        split; [exact Htc|]. split; [exact Hti|].
        intros o' Hin' Hc' Hi'. apply in_app_or in Hin'.
        destruct Hin' as [Hin' | [<- | []]]; [auto | congruence].
      - intros o' Hin' Hc' . apply in_app_or in Hin'.
        destruct Hin' as [Hin' | [<- | []]]; [auto | congruence]. }
    specialize (Ho eq_refl).
    destruct o as [b thr vthr | b hold thr aid start | b radius required ids];
      cbn [SteeringSpec.assignedTo] in Ho.
    + (* an inspect point *)
      set (o := Tasks.InspectPointObjective b thr vthr) in *.
      change (Tasks.distance (Types.position (Types.state agent))
                (Tasks.objective_position b))
        with (SteeringSpec.distanceTo agent o).
      destruct target as [t|].
      * destruct IH' as (Hin & Htc & Hti & Hnear).
        change (Tasks.distance (Types.position (Types.state agent))
                  (Tasks.objective_position (Tasks.base t)))
          with (SteeringSpec.distanceTo agent t).
        destruct (SteeringSpec.distanceTo agent o
                  <? SteeringSpec.distanceTo agent t) eqn:Hlt.
        -- split; [apply in_or_app; right; left; reflexivity|].
           split; [exact Hc|]. split; [reflexivity|].
           intros o' Hin' Hc' Hi'. apply in_app_or in Hin'.
           destruct Hin' as [Hin' | [<- | []]].
           ++ destruct (SteeringSpec.distanceTo agent o'
                        <? SteeringSpec.distanceTo agent o) eqn:E;
                [|reflexivity].
              rewrite <- (Hnear o' Hin' Hc' Hi').
              symmetry. eapply FloatFacts.ltb_trans; eassumption.
           ++ apply FloatFacts.ltb_irrefl.
        -- split; [apply in_or_app; left; exact Hin|].
           split; [exact Htc|]. split; [exact Hti|].
           intros o' Hin' Hc' Hi'. apply in_app_or in Hin'.
           destruct Hin' as [Hin' | [<- | []]]; [auto | exact Hlt].
      * split; [apply in_or_app; right; left; reflexivity|].
        split; [exact Hc|]. split; [reflexivity|].
        intros o' Hin' Hc' Hi'. apply in_app_or in Hin'.
        destruct Hin' as [Hin' | [<- | []]].
        -- rewrite (IH' o' Hin' Hc') in Hi'. discriminate.
        -- apply FloatFacts.ltb_irrefl.
    + (* a relay node the agent is not assigned to *)
      assert (Hskip : match aid with
                      | Some a => if String.eqb a (Types.agent_id agent)
                                  then Some (Tasks.RelayNodeObjective b hold thr aid start)
                                  else target
                      | None => target
                      end = target).
      { destruct aid as [a|]; [rewrite Ho|]; reflexivity. }
      rewrite Hskip. clear Hskip.
      destruct target as [t|].
      * destruct IH' as (Hin & Htc & Hti & Hnear).
        split; [apply in_or_app; left; exact Hin|].
        split; [exact Htc|]. split; [exact Hti|].
        intros o' Hin' Hc' Hi'. apply in_app_or in Hin'.
        destruct Hin' as [Hin' | [<- | []]]; [auto | discriminate].
      * intros o' Hin' Hc'. apply in_app_or in Hin'.
        destruct Hin' as [Hin' | [<- | []]]; [auto | reflexivity].
    + (* a zone the agent is not assigned to *)
      rewrite Ho.
      destruct target as [t|].
      * destruct IH' as (Hin & Htc & Hti & Hnear).
        split; [apply in_or_app; left; exact Hin|].
        split; [exact Htc|]. split; [exact Hti|].
        intros o' Hin' Hc' Hi'. apply in_app_or in Hin'.
        destruct Hin' as [Hin' | [<- | []]]; [auto | discriminate].
      * intros o' Hin' Hc'. apply in_app_or in Hin'.
        destruct Hin' as [Hin' | [<- | []]]; [auto | reflexivity].
Qed.

(** The tail of [computeObjectiveSteering], after the target is chosen:
    zero without a target or within 1e-6 m of it, otherwise the direction to
    the target divided by the distance and scaled by [objectiveWeight]. *)
Lemma computeObjectiveSteering_direction agent objectives params :
  let '(ax, ay, az) := Types.position (Types.state agent) in
  Tasks.computeObjectiveSteering agent objectives params
  = match Tasks.selectTarget agent objectives with
    | None => Swarm.mkVelocityAdjustment (0, 0, 0)
    | Some target =>
      let '(ox, oy, oz) := Tasks.objective_position (Tasks.base target) in
      let dist :=
        Math_sqrt ((ox - ax) * (ox - ax) + (oy - ay) * (oy - ay)
                   + (oz - az) * (oz - az)) in
      if dist <? 1e-6 then Swarm.mkVelocityAdjustment (0, 0, 0)
      else Swarm.mkVelocityAdjustment
             ((ox - ax) / dist * Tasks.objectiveWeight params,
              (oy - ay) / dist * Tasks.objectiveWeight params,
              (oz - az) / dist * Tasks.objectiveWeight params)
    end.
Proof.
  unfold Tasks.computeObjectiveSteering.
  destruct (Types.position (Types.state agent)) as [[ax ay] az].
  destruct (Tasks.selectTarget agent objectives) as [target|]; [|reflexivity].
  destruct (Tasks.objective_position (Tasks.base target)) as [[ox oy] oz].
  reflexivity.
Qed.

(** ** Minimum separation *)

Section SeparationFacts.
Import Types Swarm SeparationSpec.

Lemma length_set_nth {A} (l : list A) : forall i x,
  List.length (set_nth i x l) = List.length l.
Proof.
  induction l as [|y l IH]; intros [|i] x; cbn; auto.
Qed.

Lemma nth_error_set_nth_eq {A} (l : list A) : forall i x,
  (i < List.length l)%nat -> nth_error (set_nth i x l) i = Some x.
Proof.
  induction l as [|y l IH]; intros [|i] x H; cbn in *; try lia; auto.
  apply IH. lia.
Qed.

Lemma nth_error_set_nth_ne {A} (l : list A) : forall i k x,
  i <> k -> nth_error (set_nth i x l) k = nth_error l k.
Proof.
  induction l as [|y l IH]; intros [|i] [|k] x H; cbn; auto; try congruence.
Qed.

Lemma nth_error_lt {A} (l : list A) i :
  (i < List.length l)%nat -> exists x, nth_error l i = Some x.
Proof.
  intros H. destruct (nth_error l i) eqn:E; [eauto|].
  apply nth_error_None in E. lia.
Qed.

(** The loop body on one pair, against [repulsion]. *)
Lemma pairStep_repulsion params p o i j adjustments :
  i <> j ->
  (i < List.length adjustments)%nat -> (j < List.length adjustments)%nat ->
  exists after,
    pairStep params (minSeparation params * minSeparation params)
      p o i j adjustments = Some after /\
    List.length after = List.length adjustments /\
    match repulsion params p o with
    | None => after = adjustments
    | Some c =>
      exists ai bj,
        nth_error adjustments i = Some ai /\
        nth_error adjustments j = Some bj /\
        nth_error after i = Some (pushed ai c) /\
        nth_error after j = Some (pulled bj c) /\
        forall k, k <> i -> k <> j ->
          nth_error after k = nth_error adjustments k
    end.
Proof.
  intros Hij Hi Hj. unfold pairStep, repulsion.
  destruct p as [[px py] pz], o as [[ox oy] oz].
  destruct (_ && _); [|eauto].
  destruct (nth_error_lt adjustments i Hi) as [ai Hai].
  destruct (nth_error_lt adjustments j Hj) as [bj Hbj].
  rewrite Hai. destruct (delta ai) as [[a0 a1] a2] eqn:Ea.
  rewrite nth_error_set_nth_ne, Hbj by assumption.
  destruct (delta bj) as [[b0 b1] b2] eqn:Eb.
  eexists. split; [reflexivity|]. split.
  - rewrite !length_set_nth. reflexivity.
  - exists ai, bj. repeat split; try assumption.
    + rewrite nth_error_set_nth_ne by congruence.
      rewrite nth_error_set_nth_eq by assumption.
      unfold pushed. rewrite Ea. reflexivity.
    + rewrite nth_error_set_nth_eq by (rewrite length_set_nth; assumption).
      unfold pulled. rewrite Eb. reflexivity.
    + intros k Hki Hkj. rewrite !nth_error_set_nth_ne by congruence.
      reflexivity.
Qed.

Lemma processPairs_app agents params l1 : forall l2 adjustments,
  processPairs agents params (l1 ++ l2) adjustments
  = match processPairs agents params l1 adjustments with
    | None => None
    | Some adjustments' => processPairs agents params l2 adjustments'
    end.
Proof.
  induction l1 as [|ij l1 IH]; intros l2 adjustments; [reflexivity|].
  cbn. destruct (processPair agents params ij adjustments); auto.
Qed.

Lemma skipn_cons_nth {A} (l : list A) : forall i x rest,
  skipn i l = x :: rest -> nth_error l i = Some x /\ skipn (S i) l = rest.
Proof.
  induction l as [|y l IH]; intros [|i] x rest H; cbn in *; try discriminate.
  - injection H as -> ->. auto.
  - apply IH. exact H.
Qed.

(** The inner loop is the loop body on the pairs [(i, j), (i, j+1), ...]. *)
Lemma innerLoop_processPairs all params i agent others :
  nth_error all i = Some agent ->
  forall j adjustments,
    skipn j all = others ->
    innerLoop params (minSeparation params * minSeparation params)
      (position (state agent)) i j others adjustments
    = processPairs all params (map (pair i) (seq j (List.length others)))
        adjustments.
Proof.
  intros Hi. induction others as [|other rest IH]; intros j adjustments Hs;
    [reflexivity|].
  destruct (skipn_cons_nth _ _ _ _ Hs) as [Hj Hs'].
  cbn [innerLoop List.length seq map processPairs].
  unfold processPair. cbn [fst snd]. rewrite Hi, Hj.
  destruct (pairStep _ _ _ _ _ _ _); [|reflexivity].
  apply IH. exact Hs'.
Qed.

Lemma length_skipn_eq {A} (l : list A) i rest :
  skipn i l = rest -> List.length rest = (List.length l - i)%nat.
Proof. intros <-. apply length_skipn. Qed.

(** The outer loop is the loop body on all pairs from row [i] on. *)
Lemma outerLoop_processPairs all params agents :
  forall i adjustments,
    skipn i all = agents ->
    outerLoop params (minSeparation params * minSeparation params)
      i agents adjustments
    = processPairs all params
        (flat_map (fun i' => map (pair i')
                               (seq (S i') (List.length all - S i')))
                  (seq i (List.length agents)))
        adjustments.
Proof.
  induction agents as [|agent rest IH]; intros i adjustments Hs;
    [reflexivity|].
  destruct (skipn_cons_nth _ _ _ _ Hs) as [Hi Hs'].
  cbn [outerLoop List.length seq flat_map].
  rewrite processPairs_app.
  rewrite <- (length_skipn_eq all (S i) rest Hs').
  rewrite <- (innerLoop_processPairs all params i agent rest Hi (S i)
                adjustments Hs').
  destruct (innerLoop _ _ _ _ _ _ _); [|reflexivity].
  apply IH. exact Hs'.
Qed.

Lemma enforceMinimumSeparation_processPairs agents adjustments params :
  enforceMinimumSeparation agents adjustments params
  = processPairs agents params (separationPairs (List.length agents))
      adjustments.
Proof.
  unfold enforceMinimumSeparation, separationPairs.
  apply outerLoop_processPairs. reflexivity.
Qed.

Lemma in_separationPairs n i j :
  In (i, j) (separationPairs n) <-> (i < j < n)%nat.
Proof.
  unfold separationPairs. rewrite in_flat_map. split.
  - intros (i' & Hi' & H). apply in_map_iff in H.
    destruct H as (j' & E & Hj'). injection E as -> ->.
    apply in_seq in Hi', Hj'. lia.
  - intros H. exists i. split; [apply in_seq; lia|].
    apply in_map_iff. exists j. split; [reflexivity | apply in_seq; lia].
Qed.

Lemma NoDup_separationPairs n : NoDup (separationPairs n).
Proof.
  unfold separationPairs.
  assert (H : forall l, NoDup l ->
            NoDup (flat_map (fun i => map (pair i) (seq (S i) (n - S i))) l)).
  { induction l as [|i l IH]; intros Hnd; [constructor|].
    inversion Hnd as [|x l' Hnot Hnd']; subst. cbn [flat_map].
    apply NoDup_app.
    - apply NoDup_map_inv with (f := snd). rewrite map_map. cbn.
      rewrite map_id. apply seq_NoDup.
    - apply IH. exact Hnd'.
    - intros [a b] H1 H2. apply in_map_iff in H1.
      destruct H1 as (j & E & _). injection E as <- <-.
      apply in_flat_map in H2. destruct H2 as (i' & Hi' & H2).
      apply in_map_iff in H2. destruct H2 as (j' & E & _).
      injection E as <- _. contradiction. }
  apply H, seq_NoDup.
Qed.

Lemma processPairs_total agents params pairs :
  forall adjustments,
    (forall i j, In (i, j) pairs ->
       i <> j /\ (i < List.length adjustments)%nat
       /\ (j < List.length adjustments)%nat) ->
    exists final,
      processPairs agents params pairs adjustments = Some final /\
      List.length final = List.length adjustments.
Proof.
  induction pairs as [|[i j] rest IH]; intros adjustments H; [cbn; eauto|].
  cbn [processPairs].
  assert (Hstep : exists after,
            processPair agents params (i, j) adjustments = Some after /\
            List.length after = List.length adjustments).
  { unfold processPair. cbn [fst snd].
    destruct (nth_error agents i) as [a|]; [|eauto].
    destruct (nth_error agents j) as [b|]; [|eauto].
    destruct (H i j (or_introl eq_refl)) as (Hij & Hi & Hj).
    destruct (pairStep_repulsion params (position (state a))
                (position (state b)) i j adjustments Hij Hi Hj)
      as (after & E & Hl & _).
    eauto. }
  destruct Hstep as (after & -> & Hl).
  destruct (IH after) as (final & E & Hl').
  - intros i' j' Hin. rewrite Hl. apply H. right. exact Hin.
  - exists final. split; [exact E | congruence].
Qed.

End SeparationFacts.

(** C5.  With one adjustment per agent, [enforceMinimumSeparation] returns,
    and its effect is the loop body on every pair [i < j] exactly once, in
    row order.  For every pair of agents, at the moment the pair is
    processed: if the pair has no repulsion (not closer than
    [minSeparation], or not beyond the numerical floor) the adjustments are
    left untouched; otherwise adjustment [i] gains the repulsion vector,
    adjustment [j] loses the very same vector, and no other adjustment
    changes.  The repulsion vector is the unit vector between the two agents
    scaled by [separationWeight * ((minSeparation - distance) /
    minSeparation) * 10]. *)
Theorem enforceMinimumSeparation_pairwise
    (agents : list Types.Agent)
    (adjustments : list Swarm.VelocityAdjustment)
    (params : Swarm.BehaviorParams) :
  (List.length agents <= List.length adjustments)%nat ->
  exists final,
    Swarm.enforceMinimumSeparation agents adjustments params = Some final /\
    List.length final = List.length adjustments /\
    forall i j a b,
      (i < j)%nat ->
      nth_error agents i = Some a -> nth_error agents j = Some b ->
      exists earlier later before after,
        SeparationSpec.separationPairs (List.length agents)
        = earlier ++ (i, j) :: later /\
        ~ In (i, j) (earlier ++ later) /\
        SeparationSpec.processPairs agents params earlier adjustments
        = Some before /\
        SeparationSpec.processPair agents params (i, j) before = Some after /\
        SeparationSpec.processPairs agents params later after = Some final /\
        match SeparationSpec.repulsion params
                (Types.position (Types.state a))
                (Types.position (Types.state b)) with
        | None => after = before
        | Some c =>
          exists ai bj,
            nth_error before i = Some ai /\
            nth_error before j = Some bj /\
            nth_error after i = Some (SeparationSpec.pushed ai c) /\
            nth_error after j = Some (SeparationSpec.pulled bj c) /\
            forall k, k <> i -> k <> j ->
              nth_error after k = nth_error before k
        end.
Proof.
  intros Hlen.
  assert (Hin : forall l i j, incl l (SeparationSpec.separationPairs
                                        (List.length agents)) ->
            In (i, j) l ->
            i <> j /\ (i < List.length adjustments)%nat
            /\ (j < List.length adjustments)%nat).
  { intros l i j Hl H. apply Hl, in_separationPairs in H. lia. }
  destruct (processPairs_total agents params
              (SeparationSpec.separationPairs (List.length agents))
              adjustments (fun i j => Hin _ i j (incl_refl _)))
    as (final & Hfinal & Hflen).
  exists final. rewrite enforceMinimumSeparation_processPairs.
  split; [exact Hfinal|]. split; [exact Hflen|].
  intros i j a b Hij Ha Hb.
  assert (Hj : (j < List.length agents)%nat)
    by (apply nth_error_Some; congruence).
  assert (Hmem : In (i, j) (SeparationSpec.separationPairs
                              (List.length agents)))
    by (apply in_separationPairs; lia).
  destruct (in_split _ _ Hmem) as (earlier & later & Hsplit).
  exists earlier, later.
  pose proof (NoDup_separationPairs (List.length agents)) as Hnd.
  rewrite Hsplit in Hnd. apply NoDup_remove_2 in Hnd.
  destruct (processPairs_total agents params earlier adjustments)
    as (before & Hbefore & Hblen).
  { intros i' j' H. apply (Hin earlier); [|exact H].
    rewrite Hsplit. apply incl_appl, incl_refl. }
  rewrite Hsplit, processPairs_app, Hbefore in Hfinal.
  cbn [SeparationSpec.processPairs] in Hfinal.
  assert (Hi' : (i < List.length before)%nat) by lia.
  assert (Hj' : (j < List.length before)%nat) by lia.
  destruct (pairStep_repulsion params (Types.position (Types.state a))
              (Types.position (Types.state b)) i j before
              ltac:(lia) Hi' Hj') as (after & Hstep & _ & Hchar).
  assert (Hpair : SeparationSpec.processPair agents params (i, j) before
                  = Some after).
  { unfold SeparationSpec.processPair. cbn [fst snd]. rewrite Ha, Hb.
    exact Hstep. }
  rewrite Hpair in Hfinal.
  exists before, after. repeat split; try assumption.
Qed.

Lemma enforceMinimumSeparation_pairwise_witness :
  exists final,
    Swarm.enforceMinimumSeparation Samples.trio Samples.still
      Swarm.DEFAULT_BEHAVIOR_PARAMS = Some final /\
    List.length final = 3%nat.
Proof.
  destruct (enforceMinimumSeparation_pairwise Samples.trio Samples.still
              Swarm.DEFAULT_BEHAVIOR_PARAMS) as (final & H & Hl & _).
  - cbn. lia.
  - exists final. split; [exact H | exact Hl].
Defined.

(** Two agents 500 m apart with the default parameters: strength 0.5,
    weight 5, along the line between them; the third agent, further than
    [minSeparation] from both, is left alone. *)
Example enforceMinimumSeparation_trio :
  Swarm.enforceMinimumSeparation Samples.trio Samples.still
    Swarm.DEFAULT_BEHAVIOR_PARAMS
  = Some [Swarm.mkVelocityAdjustment (5, 0, 0);
          Swarm.mkVelocityAdjustment (-5, 0, 0);
          Swarm.mkVelocityAdjustment (0, 0, 0)].
Proof. reflexivity. Qed.

(** With fewer adjustments than agents the in-place update of a missing
    element raises a [TypeError]. *)
Example enforceMinimumSeparation_short_array :
  Swarm.enforceMinimumSeparation Samples.trio
    [Swarm.mkVelocityAdjustment (0, 0, 0)] Swarm.DEFAULT_BEHAVIOR_PARAMS
  = None.
Proof. reflexivity. Qed.

(** ** The remainder of a dividend smaller than the divisor *)

Section RemainderFacts.
Import JSNumber FloatFacts.
Local Open Scope Z_scope.

Lemma digits2_pos_bounds m :
  2 ^ (Z.pos (digits2_pos m) - 1) <= Z.pos m < 2 ^ Z.pos (digits2_pos m).
Proof.
  induction m as [p IH|p IH|]; cbn [digits2_pos].
  - rewrite Pos2Z.inj_succ.
    replace (Z.succ (Z.pos (digits2_pos p)) - 1)
      with (Z.succ (Z.pos (digits2_pos p) - 1)) by lia.
    rewrite !Z.pow_succ_r by lia. lia.
  - rewrite Pos2Z.inj_succ.
    replace (Z.succ (Z.pos (digits2_pos p)) - 1)
      with (Z.succ (Z.pos (digits2_pos p) - 1)) by lia.
    rewrite !Z.pow_succ_r by lia. lia.
  - cbn. lia.
Qed.

Lemma iter_xO_value m p :
  Z.pos (Pos.iter xO m p) = Z.pos m * 2 ^ Z.pos p.
Proof.
  revert m. induction p as [|p IH] using Pos.peano_ind; intros m.
  - cbn. lia.
  - rewrite Pos.iter_succ, Pos2Z.inj_succ, Z.pow_succ_r by lia.
    rewrite Pos2Z.inj_xO, IH. lia.
Qed.

Lemma iter_xO_digits m p :
  digits2_pos (Pos.iter xO m p) = (digits2_pos m + p)%positive.
Proof.
  induction p as [|p IH] using Pos.peano_ind.
  - cbn. lia.
  - rewrite Pos.iter_succ. cbn [digits2_pos]. rewrite IH. lia.
Qed.

Lemma iter_pos_iter {A} (f : A -> A) p :
  forall x, iter_pos f p x = Pos.iter f x p.
Proof.
  induction p as [p IH|p IH|]; intros x; cbn [iter_pos Pos.iter].
  - rewrite !IH. rewrite <- !Pos.iter_swap. reflexivity.
  - rewrite !IH. reflexivity.
  - reflexivity.
Qed.

(** Shifting right what was shifted left loses nothing. *)
Lemma shr_iter_xO p m :
  iter_pos shr_1 p (Build_shr_record (Z.pos (Pos.iter xO m p)) false false)
  = Build_shr_record (Z.pos m) false false.
Proof.
  rewrite iter_pos_iter. revert m.
  induction p as [|p IH] using Pos.peano_ind; intros m.
  - reflexivity.
  - rewrite !Pos.iter_succ, <- Pos.iter_swap. cbn [shr_1 orb]. apply IH.
Qed.

Lemma canonical_exponent m e :
  bounded prec emax m e = true ->
  fexp prec emax (Z.pos (digits2_pos m) + e) = e /\ e <= emax - prec.
Proof.
  unfold bounded, canonical_mantissa. intros H.
  apply andb_true_iff in H. destruct H as [H1 H2].
  split; [apply Z.eqb_eq, H1 | apply Z.leb_le, H2].
Qed.

(** Rounding the mantissa and exponent of a binary64 number gives the
    number back, also when the mantissa comes shifted to the left. *)
Lemma binary_round_canonical s m e :
  bounded prec emax m e = true ->
  binary_round prec emax s m e = S754_finite s m e.
Proof.
  intros H. destruct (canonical_exponent m e H) as [Hc Hb].
  apply Z.leb_le in Hb.
  unfold binary_round. rewrite Hc. unfold shl_align. rewrite Z.sub_diag.
  unfold binary_round_aux, shr_fexp. cbn [Zdigits2].
  rewrite Hc, Z.sub_diag.
  cbn [shr shr_record_of_loc shr_m loc_of_shr_record round_nearest_even
       Zdigits2].
  rewrite Hc, Z.sub_diag. cbn [shr shr_m]. rewrite Hb. reflexivity.
Qed.

Lemma binary_round_shifted s m e p :
  bounded prec emax m e = true ->
  binary_round prec emax s (Pos.iter xO m p) (e - Z.pos p)
  = S754_finite s m e.
Proof.
  intros H. destruct (canonical_exponent m e H) as [Hc Hb].
  apply Z.leb_le in Hb.
  assert (Hd : Z.pos (digits2_pos (Pos.iter xO m p)) + (e - Z.pos p)
               = Z.pos (digits2_pos m) + e)
    by (rewrite iter_xO_digits; lia).
  unfold binary_round. rewrite Hd, Hc. unfold shl_align.
  replace (e - (e - Z.pos p)) with (Z.pos p) by lia.
  unfold binary_round_aux, shr_fexp. cbn [Zdigits2]. rewrite Hd, Hc.
  replace (e - (e - Z.pos p)) with (Z.pos p) by lia.
  cbn [shr shr_record_of_loc]. rewrite shr_iter_xO.
  cbn [shr_m loc_of_shr_record round_nearest_even Zdigits2].
  replace (e - Z.pos p + Z.pos p) with e by lia.
  rewrite Hc, Z.sub_diag. cbn [shr shr_m]. rewrite Hb. reflexivity.
Qed.

(** The order of two positive binary64 numbers is the order of their
    values. *)
Lemma finite_ltb_values m1 e1 m2 e2 :
  bounded prec emax m1 e1 = true -> bounded prec emax m2 e2 = true ->
  SFltb (S754_finite false m1 e1) (S754_finite false m2 e2) = true ->
  Z.pos m1 * 2 ^ (e1 - Z.min e1 e2) < Z.pos m2 * 2 ^ (e2 - Z.min e1 e2).
Proof.
  intros H1 H2 Hlt.
  destruct (canonical_exponent m1 e1 H1) as [Hc1 _].
  destruct (canonical_exponent m2 e2 H2) as [Hc2 _].
  unfold fexp in Hc1, Hc2.
  pose proof (digits2_pos_bounds m1) as [_ Hm1].
  pose proof (digits2_pos_bounds m2) as [Hm2 _].
  unfold SFltb, SFcompare in Hlt.
  destruct (Z.compare_spec e1 e2) as [E | E | E]; [| |discriminate].
  - subst e2. rewrite Z.min_id, Z.sub_diag. cbn [Z.pow].
    change (Pos.compare_cont Eq m1 m2) with (Pos.compare m1 m2) in Hlt.
    destruct (Pos.compare_spec m1 m2); try discriminate. lia.
  - rewrite Z.min_l by lia. rewrite Z.sub_diag. cbn [Z.pow].
    assert (Hd1 : Z.pos (digits2_pos m1) <= prec) by lia.
    assert (Hd2 : Z.pos (digits2_pos m2) = prec) by lia.
    rewrite Hd2 in Hm2.
    assert (Hp1 : 2 ^ Z.pos (digits2_pos m1) <= 2 ^ prec)
      by (apply Z.pow_le_mono_r; lia).
    assert (Hp2 : 2 ^ 1 <= 2 ^ (e2 - e1)) by (apply Z.pow_le_mono_r; lia).
    assert (Hprec : 2 ^ prec = 2 * 2 ^ (prec - 1)) by reflexivity.
    change (2 ^ 1) with 2 in Hp2. nia.
Qed.

Lemma shifted_mantissa m k :
  0 <= k ->
  Z.pos m * 2 ^ k
  = match k with Z.pos p => Z.pos (Pos.iter xO m p) | _ => Z.pos m end.
Proof.
  intros Hk. destruct k as [|p|p]; [cbn [Z.pow]; lia | | lia].
  symmetry. apply iter_xO_value.
Qed.

(** [n % d] is [n] when [n] is the smaller of the two in magnitude: the
    division leaves everything, and rounding an exact binary64 value
    changes nothing. *)
Lemma remainder_small (n d : float) :
  (abs n <? abs d)%float = true -> remainder n d = n.
Proof.
  intros Hlt. rewrite ltb_spec, !abs_spec in Hlt.
  pose proof (Prim2SF_valid n) as Vn. pose proof (Prim2SF_valid d) as Vd.
  pose proof (SF2Prim_Prim2SF n) as Hn.
  unfold remainder.
  destruct (Prim2SF n) as [sn| sn | |sn mn en] eqn:En;
    destruct (Prim2SF d) as [sd| sd | |sd md ed] eqn:Ed;
    try discriminate Hlt; try reflexivity.
  cbn [SFabs] in Hlt. cbn [SpecFloat.valid_binary] in Vn, Vd.
  pose proof (finite_ltb_values mn en md ed Vn Vd Hlt) as Hv.
  set (e := Z.min en ed) in *.
  assert (He : 0 <= en - e) by (subst e; lia).
  rewrite Z.rem_small
    by (split; [apply Z.mul_nonneg_nonneg; [lia | apply Z.pow_nonneg; lia]
               | exact Hv]).
  rewrite (shifted_mantissa mn (en - e) He).
  rewrite <- Hn. f_equal.
  destruct (en - e) as [|p|p] eqn:Ek; [| |lia].
  - assert (e = en) by lia. subst e. rewrite H.
    destruct sn; cbn [binary_normalize Z.opp];
      apply binary_round_canonical; exact Vn.
  - assert (Hep : e = en - Z.pos p) by lia. rewrite Hep.
    destruct sn; cbn [binary_normalize Z.opp];
      apply binary_round_shifted; exact Vn.
Qed.

End RemainderFacts.

(** ** Normalized angles *)

Section NormalizeAngleFacts.
Import JSNumber FloatFacts Orbit.

Lemma abs_ltb_of_range (v d : float) :
  (0 <=? v) = true -> (v <? d) = true -> (abs v <? abs d) = true.
Proof.
  rewrite leb_spec, !ltb_spec, !abs_spec.
  change (Prim2SF 0) with (S754_zero false).
  destruct (Prim2SF v) as [[]|[]| |[] mv ev];
    destruct (Prim2SF d) as [[]|[]| |[] md ed];
    cbn; try discriminate; trivial.
Qed.

(** [normalizeAngle] returns an angle of [[0, 2π)] as it is. *)
Lemma normalizeAngle_small (v : float) :
  (0 <=? v) = true -> (v <? 2 * Math_PI) = true -> normalizeAngle v = v.
Proof.
  intros H0 H1. unfold normalizeAngle.
  rewrite (remainder_small v (2 * Math_PI) (abs_ltb_of_range _ _ H0 H1)).
  rewrite (leb_ltb_false _ _ H0). reflexivity.
Qed.

Lemma normalizeAngle_nan (v : float) :
  is_nan v = true -> normalizeAngle v = v.
Proof.
  intros H. pose proof (SF2Prim_Prim2SF v) as Hv.
  apply is_nan_Prim2SF in H. rewrite H in Hv.
  rewrite <- Hv. reflexivity.
Qed.

Lemma normalizeAngle_normalized (v : float) :
  OrbitSpec.normalized v = true -> normalizeAngle v = v.
Proof.
  unfold OrbitSpec.normalized. intros H.
  apply orb_true_iff in H. destruct H as [H|H].
  - apply normalizeAngle_nan, H.
  - apply andb_true_iff in H. destruct H as [H0 H1].
    apply normalizeAngle_small; assumption.
Qed.

(** In binary64 [normalizeAngle] can return 2π itself, which it then
    takes to 0: it is not idempotent. *)
Example normalizeAngle_rounds_up_to_2pi :
  normalizeAngle (-1e-20) = 2 * Math_PI
  /\ OrbitSpec.normalized (2 * Math_PI) = false
  /\ normalizeAngle (normalizeAngle (-1e-20)) = 0.
Proof. repeat split; vm_compute; reflexivity. Qed.

End NormalizeAngleFacts.

(** ** The round trip of the conversions

    What the section asks of the library: the cosine and the sine of 0,
    which ECMAScript fixes; those of 1 rounded to nearest, as the engines
    return them; NaN for the arc cosine of a number above 1, which
    ECMAScript fixes; and, for [atan2 y x] with [0 <= y <= x] and [0 < x],
    an angle of [[0, 0.8)] (the angle itself is at most π/4). *)

Section RoundTripFailures.
Import JSNumber FloatFacts Orbit OrbitSpec OrbitScenes.
Context {lib : MathLibrary} {arc : ArcLibrary}.
Hypothesis cos_0 : Math_cos 0 = 1.
Hypothesis sin_0 : Math_sin 0 = 0.
Hypothesis cos_1 : Math_cos 1 = 0.5403023058681398.
Hypothesis sin_1 : Math_sin 1 = 0.8414709848078965.
Hypothesis acos_above_1 : forall x, (1 <? x) = true -> Math_acos x = nan.
Hypothesis atan2_first_octant : forall y x,
  (0 <=? y) = true -> (y <=? x) = true -> (0 <? x) = true ->
  (0 <=? Math_atan2 y x) = true /\ (Math_atan2 y x <? 0.8) = true.

(** A state of energy 0 is refused, whatever the library: the parabola
    counts as hyperbolic. *)
Example cartesianToElements_parabolic :
  cartesianToElements parabolic = inl HyperbolicOrbit.
Proof. vm_compute. reflexivity. Qed.

Lemma elementsToCartesian_lowOrbitAtPeriapsis :
  elementsToCartesian lowOrbitAtPeriapsis
  = inr (Types.mkCartesianState
           (3292548.2217298565, 5127840.0343208397, 0)
           (-3856.5017721045888, 2476.2313112060178, 7137.6740950755157)).
Proof.
  unfold elementsToCartesian, lowOrbitAtPeriapsis.
  cbn [a e i Ω ω ν M]. rewrite cos_0, sin_0, cos_1, sin_1.
  vm_compute. reflexivity.
Qed.

(** The cosine of the argument of periapsis comes out as
    1.0000000000000002, and [Math.acos] is called on it as it is. *)
Lemma roundTrip_lowOrbitAtPeriapsis :
  exists a' e' i' Ω' ν',
    roundTrip lowOrbitAtPeriapsis
    = inr (mkOrbitalElements a' e' i' Ω' nan ν' None).
Proof.
  unfold roundTrip. rewrite elementsToCartesian_lowOrbitAtPeriapsis.
  cbv -[normalizeAngle Math_acos Math_atan2].
  rewrite (acos_above_1 1.0000000000000002 eq_refl).
  rewrite (normalizeAngle_nan nan eq_refl).
  do 5 eexists. reflexivity.
Qed.

Lemma elementsToCartesian_lowOrbitPastPeriapsis :
  exists state, elementsToCartesian lowOrbitPastPeriapsis = inr state.
Proof.
  unfold elementsToCartesian, lowOrbitPastPeriapsis.
  cbn [a e i Ω ω ν M]. rewrite cos_0, sin_0, cos_1, sin_1.
  vm_compute. eexists. reflexivity.
Qed.

(** [Math.atan2] is called on the sine 1.2553104293681096e-08 and the
    cosine 0.54030230586814088. *)
Lemma roundTrip_lowOrbitPastPeriapsis :
  exists a' e' i' Ω' ω' ν',
    roundTrip lowOrbitPastPeriapsis
    = inr (mkOrbitalElements a' e' i' Ω' ω' (Some ν') None)
    /\ (0 <=? ν') = true /\ (ν' <? 0.8) = true.
Proof.
  unfold roundTrip, elementsToCartesian, lowOrbitPastPeriapsis.
  cbn [a e i Ω ω ν M]. rewrite cos_0, sin_0, cos_1, sin_1.
  cbv -[normalizeAngle Math_acos Math_atan2].
  match goal with
  | |- context [Math_atan2 ?s ?c] =>
    destruct (atan2_first_octant s c eq_refl eq_refl eq_refl) as [H0 H1]
  end.
  rewrite (leb_ltb_false _ _ H0).
  rewrite (normalizeAngle_small _ H0
             (ltb_trans _ 0.8 (2 * Math_PI) H1 eq_refl)).
  do 6 eexists. split; [reflexivity|]. split; assumption.
Qed.

(** The recovered semi-major axis of [farOrbit] is off by 0.5, and the
    conversion back of [tinyOrbit] throws. *)
Lemma roundTrip_farOrbit :
  exists elements,
    roundTrip farOrbit = inr elements /\ a elements = 999999999999999.5.
Proof.
  unfold roundTrip, elementsToCartesian, farOrbit.
  cbn [a e i Ω ω ν M]. rewrite cos_0, sin_0.
  cbv -[normalizeAngle Math_acos Math_atan2].
  eexists. split; reflexivity.
Qed.

Lemma roundTrip_tinyOrbit :
  roundTrip tinyOrbit = inl AngularMomentumTooSmall.
Proof.
  unfold roundTrip, elementsToCartesian, tinyOrbit.
  cbn [a e i Ω ω ν M]. rewrite cos_0, sin_0.
  vm_compute. reflexivity.
Qed.

(** C1 (refuted on the code).  The round trip
    [cartesianToElements(elementsToCartesian(e))] does not recover the
    angles of every valid ellipse.  With a library as the section asks:
    - at the periapsis of the low orbit (a = 6771 km, e = 0.1, i = 1,
      Ω = 1, ω = 0, ν = 0) the round trip returns elements whose argument
      of periapsis is NaN: the cosine [eDotN / (e * n)] rounds to
      1.0000000000000002 and goes to [Math.acos] unclamped;
    - one radian further on the same orbit (ν = 1) the round trip returns
      a true anomaly of [[0, 0.8)], more than 0.2 away from 1, also modulo
      2π: the sine that goes to [Math.atan2] is
      [rv / (r * sqrt(μ a (1 - e²)))], which is [e sin ν / p] and not
      [sin ν]. *)
Theorem roundTrip_loses_periapsis_and_anomaly :
  (exists elements,
     roundTrip lowOrbitAtPeriapsis = inr elements
     /\ is_nan (ω elements) = true)
  /\ (exists elements ν',
        roundTrip lowOrbitPastPeriapsis = inr elements
        /\ ν elements = Some ν'
        /\ (0 <=? ν') = true /\ (ν' <? 0.8) = true).
Proof.
  split.
  - destruct roundTrip_lowOrbitAtPeriapsis as (a' & e' & i' & Ω' & ν' & H).
    eexists. split; [exact H | reflexivity].
  - destruct roundTrip_lowOrbitPastPeriapsis
      as (a' & e' & i' & Ω' & ω' & ν' & H & H0 & H1).
    exists (mkOrbitalElements a' e' i' Ω' ω' (Some ν') None), ν'.
    repeat split; assumption.
Qed.

End RoundTripFailures.

Lemma roundTrip_loses_periapsis_and_anomaly_witness :
  (exists elements,
     OrbitSpec.roundTrip (lib := OrbitScenes.roundedLibrary)
       (arc := OrbitScenes.coarseArcs) OrbitScenes.lowOrbitAtPeriapsis
     = inr elements
     /\ is_nan (Orbit.ω elements) = true)
  /\ (exists elements ν',
        OrbitSpec.roundTrip (lib := OrbitScenes.roundedLibrary)
          (arc := OrbitScenes.coarseArcs) OrbitScenes.lowOrbitPastPeriapsis
        = inr elements
        /\ Orbit.ν elements = Some ν'
        /\ (0 <=? ν') = true /\ (ν' <? 0.8) = true).
Proof.
  apply (@roundTrip_loses_periapsis_and_anomaly
           OrbitScenes.roundedLibrary OrbitScenes.coarseArcs);
    try reflexivity.
  - intros x H. cbn. rewrite H. reflexivity.
  - intros y x _ _ _. split; reflexivity.
Defined.

(** ** The normalization of the advanced mean anomaly *)

Section MeanAnomalyNormalization.
Import JSNumber FloatFacts Orbit OrbitSpec OrbitScenes.
Context {lib : MathLibrary} {arc : ArcLibrary}.

(** [solveKeplerEquation] normalizes its argument first: it does not see
    a normalization that came before, as long as a second normalization
    changes nothing. *)
Lemma solveKeplerEquation_normalized_argument (M e : float) :
  normalized (normalizeAngle M) = true ->
  solveKeplerEquation (normalizeAngle M) e = solveKeplerEquation M e.
Proof.
  intros H. unfold solveKeplerEquation.
  rewrite (normalizeAngle_normalized _ H). reflexivity.
Qed.

Lemma elementsToCartesian_mean_anomaly (elements : OrbitalElements)
    (M1 M1' : float) :
  solveKeplerEquation M1 (e elements) = solveKeplerEquation M1' (e elements) ->
  elementsToCartesian
    (mkOrbitalElements (a elements) (e elements) (i elements) (Ω elements)
       (ω elements) None (Some M1))
  = elementsToCartesian
      (mkOrbitalElements (a elements) (e elements) (i elements)
         (Ω elements) (ω elements) None (Some M1')).
Proof.
  intros H. unfold elementsToCartesian. cbn [a e i Ω ω ν M].
  rewrite H. reflexivity.
Qed.

(** C2 (amended).  [propagateKepler] returns the very state that the
    variant without the normalization step returns, whenever the normalized
    mean anomaly [normalizeAngle(M₀ + nΔt)] is an angle of [[0, 2π)] or NaN:
    [solveKeplerEquation] normalizes its argument first, and a second
    normalization leaves such an angle as it is.  (The hypothesis cannot
    go: in binary64 the normalization can return 2π itself, and then
    [solveKeplerEquation] works on 0 where the variant works on 2π.) *)
Theorem propagateKepler_normalization_redundant_below_2pi
    (state : Types.CartesianState) (deltaTime : float)
    (elements : OrbitalElements) :
  cartesianToElements state = inr elements ->
  normalized (normalizeAngle (advancedMeanAnomaly elements deltaTime))
  = true ->
  propagateKepler state deltaTime
  = propagateKepler_unnormalized state deltaTime.
Proof.
  intros Hel Hn. unfold propagateKepler, propagateKepler_unnormalized.
  rewrite Hel. cbv zeta.
  apply elementsToCartesian_mean_anomaly.
  apply (solveKeplerEquation_normalized_argument _ _ Hn).
Qed.

End MeanAnomalyNormalization.

(** A minute after the periapsis of the eccentric orbit, with sines and
    cosines rounded to nearest. *)
Example propagateKepler_one_minute :
  Orbit.propagateKepler (lib := OrbitScenes.roundedLibrary)
    (arc := OrbitScenes.roundedArcs) OrbitScenes.eccentricAtPeriapsis 60
  = inr (Types.mkCartesianState
           (6985376.372200331, 623565.7352935962, 0)
           (-486.8277385186205, 10378.314215363274, 0)).
Proof. vm_compute. reflexivity. Qed.

Lemma propagateKepler_normalization_redundant_below_2pi_witness :
  Orbit.propagateKepler (lib := OrbitScenes.roundedLibrary)
    (arc := OrbitScenes.roundedArcs) OrbitScenes.eccentricAtPeriapsis 60
  = OrbitSpec.propagateKepler_unnormalized
      (lib := OrbitScenes.roundedLibrary) (arc := OrbitScenes.roundedArcs)
      OrbitScenes.eccentricAtPeriapsis 60.
Proof.
  apply (@propagateKepler_normalization_redundant_below_2pi
           OrbitScenes.roundedLibrary OrbitScenes.roundedArcs
           OrbitScenes.eccentricAtPeriapsis 60
           (Orbit.mkOrbitalElements 69614310.913046032 0.89944596293219656
              0 0 0 (Some 0) None));
    vm_compute; reflexivity.
Defined.

(** With sines and cosines rounded to nearest, from the periapsis of the
    eccentric orbit and for a time step of -1e-17 s: the advanced mean
    anomaly is -3.4e-22, which [normalizeAngle] takes to 2π.
    [propagateKepler] hands 2π to [solveKeplerEquation], which normalizes
    it to 0; the variant hands it -3.4e-22, which [solveKeplerEquation]
    normalizes to 2π.  The eccentricity is above 0.8, so both Newton
    iterations start from π: one ends near 0, the other near 2π, and the
    two states differ in their y coordinate (5.6e-12 m against 5.4e-8 m)
    and in their x velocity. *)
Lemma propagateKepler_normalization_counterexample :
  Orbit.propagateKepler (lib := OrbitScenes.roundedLibrary)
    (arc := OrbitScenes.roundedArcs) OrbitScenes.eccentricAtPeriapsis (-1e-17)
  = inr (Types.mkCartesianState
           (7000000.0000000233, 5.5679003774322304e-12, 0)
           (-4.355116857030735e-15, 10399.999999999982, 0))
  /\ OrbitSpec.propagateKepler_unnormalized
       (lib := OrbitScenes.roundedLibrary) (arc := OrbitScenes.roundedArcs)
       OrbitScenes.eccentricAtPeriapsis (-1e-17)
     = inr (Types.mkCartesianState
              (7000000.0000000233, 5.4043313450195e-08, 0)
              (-4.227175945365679e-11, 10399.999999999982, 0))
  /\ Orbit.propagateKepler (lib := OrbitScenes.roundedLibrary)
       (arc := OrbitScenes.roundedArcs) OrbitScenes.eccentricAtPeriapsis
       (-1e-17)
     <> OrbitSpec.propagateKepler_unnormalized
          (lib := OrbitScenes.roundedLibrary)
          (arc := OrbitScenes.roundedArcs)
          OrbitScenes.eccentricAtPeriapsis (-1e-17).
Proof.
  assert (H1 : Orbit.propagateKepler (lib := OrbitScenes.roundedLibrary)
    (arc := OrbitScenes.roundedArcs) OrbitScenes.eccentricAtPeriapsis (-1e-17)
  = inr (Types.mkCartesianState
           (7000000.0000000233, 5.5679003774322304e-12, 0)
           (-4.355116857030735e-15, 10399.999999999982, 0)))
    by (vm_compute; reflexivity).
  assert (H2 : OrbitSpec.propagateKepler_unnormalized
       (lib := OrbitScenes.roundedLibrary) (arc := OrbitScenes.roundedArcs)
       OrbitScenes.eccentricAtPeriapsis (-1e-17)
     = inr (Types.mkCartesianState
              (7000000.0000000233, 5.4043313450195e-08, 0)
              (-4.227175945365679e-11, 10399.999999999982, 0)))
    by (vm_compute; reflexivity).
  split; [exact H1|]. split; [exact H2|].
  rewrite H1, H2. intros H.
  apply (f_equal (fun r =>
    match r with
    | inr s => Prim2SF (snd (fst (Types.position s)))
    | inl _ => S754_nan
    end)) in H.
  vm_compute in H. discriminate H.
Qed.

(** * Further properties of the embedded code *)

(** ** Task allocation, agent by agent *)

Section NearestAgentFacts.
Import JS Types Tasks AllocationSpec.
Local Open Scope float_scope.

(** The loop of [findNearestAgent] from any point on: the final
    [nearestDistance] is the starting one or a strictly smaller distance of
    an agent met on the way, and no agent met on the way that is not
    excluded is strictly closer. *)
Lemma findNearestAgent_from_spec pos excl agents :
  forall nearestAgent nearestDistance,
  exists finalDistance,
    ((findNearestAgent_from agents pos excl nearestAgent nearestDistance
      = nearestAgent /\ finalDistance = nearestDistance) \/
     (exists a,
        findNearestAgent_from agents pos excl nearestAgent nearestDistance
        = Some a /\
        In a agents /\ has excl (agent_id a) = false /\
        finalDistance = distanceFrom pos a /\
        (finalDistance <? nearestDistance) = true)) /\
    (forall b, In b agents -> has excl (agent_id b) = false ->
       (distanceFrom pos b <? finalDistance) = false).
Proof.
  induction agents as [|agent rest IH]; intros best bd.
  - exists bd. split; [left; split; reflexivity | intros b []].
  - cbn [findNearestAgent_from].
    destruct (has excl (agent_id agent)) eqn:Hex.
    + destruct (IH best bd) as [fd [Hres Hall]].
      exists fd. split.
      * destruct Hres as [H | [a [H1 [H2 H3]]]]; [left; exact H|].
        right. exists a. split; [exact H1|]. split; [right; exact H2|exact H3].
      * intros b [<- | Hb] Hnb; [congruence | apply Hall; assumption].
    + fold (distanceFrom pos agent).
      destruct (distanceFrom pos agent <? bd) eqn:Hlt.
      * destruct (IH (Some agent) (distanceFrom pos agent)) as [fd [Hres Hall]].
        exists fd.
        destruct Hres as [[H1 ->] | [a [H1 [H2 [H3 [H4 H5]]]]]].
        -- split.
           ++ right. exists agent. rewrite H1.
              repeat split; auto. left; reflexivity.
           ++ intros b [<- | Hb] Hnb;
                [apply FloatFacts.ltb_irrefl | apply Hall; assumption].
        -- split.
           ++ right. exists a. repeat split; auto.
              ** right; exact H2.
              ** eapply FloatFacts.ltb_trans; eassumption.
           ++ intros b [<- | Hb] Hnb; [|apply Hall; assumption].
              destruct (distanceFrom pos agent <? fd) eqn:E; [|reflexivity].
              pose proof (FloatFacts.ltb_trans _ _ _ E H5) as Hc.
              rewrite FloatFacts.ltb_irrefl in Hc. discriminate.
      * destruct (IH best bd) as [fd [Hres Hall]].
        exists fd. split.
        -- destruct Hres as [H | [a [H1 [H2 H3]]]]; [left; exact H|].
           right. exists a. split; [exact H1|].
           split; [right; exact H2 | exact H3].
        -- intros b [<- | Hb] Hnb; [|apply Hall; assumption].
           destruct Hres as [[_ ->] | [a [_ [_ [_ [_ H5]]]]]];
             [exact Hlt|].
           destruct (distanceFrom pos agent <? fd) eqn:E; [|reflexivity].
           pose proof (FloatFacts.ltb_trans _ _ _ E H5) as Hc.
           congruence.
Qed.

(** What [findNearestAgent] returns is an agent of the array that is not
    excluded. *)
Lemma findNearestAgent_some agents pos excl a :
  findNearestAgent agents pos excl = Some a ->
  In a agents /\ has excl (agent_id a) = false.
Proof.
  unfold findNearestAgent. intros H.
  destruct (findNearestAgent_from_spec pos excl agents None infinity)
    as [fd [[[H1 _] | [a' [H1 [H2 [H3 _]]]]] _]]; [congruence|].
  rewrite H in H1. injection H1 as <-. split; assumption.
Qed.

End NearestAgentFacts.

(** [findNearestAgent] returns the nearest agent that is not excluded: the
    agent it returns belongs to the array, is not excluded, is at a distance
    below [Infinity], and no agent of the array that is not excluded is
    strictly closer; it returns [null] exactly when no agent that is not
    excluded is at a distance below [Infinity] (none is left, or their
    distances are [Infinity] or NaN). *)
Theorem findNearestAgent_nearest
    (agents : list Types.Agent) (pos : JS.vec3) (excl : Tasks.StringSet) :
  match Tasks.findNearestAgent agents pos excl with
  | Some a =>
    In a agents /\ Tasks.has excl (Types.agent_id a) = false /\
    (AllocationSpec.distanceFrom pos a <? infinity) = true /\
    forall b, In b agents -> Tasks.has excl (Types.agent_id b) = false ->
      (AllocationSpec.distanceFrom pos b <? AllocationSpec.distanceFrom pos a)
      = false
  | None =>
    forall b, In b agents -> Tasks.has excl (Types.agent_id b) = false ->
      (AllocationSpec.distanceFrom pos b <? infinity) = false
  end.
Proof.
  unfold Tasks.findNearestAgent.
  destruct (findNearestAgent_from_spec pos excl agents None infinity)
    as [fd [Hres Hall]].
  destruct Hres as [[-> ->] | [a [-> [H2 [H3 [-> H5]]]]]].
  - exact Hall.
  - repeat split; assumption.
Qed.

(** Three agents on a line and a point next to the second: the second is
    returned, and the first once the second is excluded. *)
Example findNearestAgent_trio :
  option_map Types.agent_id
    (Tasks.findNearestAgent Samples.trio (7000100, 0, 0) []%list)
  = Some "sat-2"%string /\
  option_map Types.agent_id
    (Tasks.findNearestAgent Samples.trio (7000100, 0, 0) ["sat-2"%string])
  = Some "sat-1"%string /\
  Tasks.findNearestAgent []%list (7000100, 0, 0) []%list = None.
Proof. repeat split; vm_compute; reflexivity. Qed.

(** ** What [allocateTasks] changes, and what it leaves alone *)

Section AllocationFacts.
Import JS Types Tasks AllocationSpec.
Local Open Scope float_scope.

Lemma sameButAssignment_refl o : sameButAssignment o o.
Proof. destruct o; cbn; repeat split; reflexivity. Qed.

Lemma allocateObjective_sameButAssignment agents assigned o :
  sameButAssignment o (fst (allocateObjective agents assigned o)).
Proof.
  unfold allocateObjective.
  destruct (is_completed o); [apply sameButAssignment_refl|].
  destruct o as [b thr vthr | b hold thr aid start | b radius required ids].
  - destruct (findNearestAgent _ _ _); reflexivity.
  - destruct aid as [a|]; [destruct (truthy (Some a));
      [destruct (findAgent agents a)|]|];
      try destruct (findNearestAgent _ _ _);
      cbn; repeat split; reflexivity.
  - destruct (addAgentsInZone _ _ _) as [ids2 assigned2].
    destruct (0 <? _)%Z; [destruct (assignNearest _ _ _ _ _)|];
      cbn; repeat split; reflexivity.
Qed.

Lemma allocateTasks_from_sameButAssignment agents objectives :
  forall assigned,
    Forall2 sameButAssignment objectives
      (allocateTasks_from agents assigned objectives).
Proof.
  induction objectives as [|o rest IH]; intros assigned; cbn.
  - constructor.
  - pose proof (allocateObjective_sameButAssignment agents assigned o) as H.
    destruct (allocateObjective agents assigned o) as [o' assigned'].
    constructor; [exact H | apply IH].
Qed.

Lemma findAgent_isAgentId agents a agent :
  findAgent agents a = Some agent -> isAgentId agents a.
Proof.
  unfold findAgent. intros H. apply find_some in H. destruct H as [H1 H2].
  exists agent. split; [exact H1|]. apply String.eqb_eq. exact H2.
Qed.

Lemma findNearestAgent_isAgentId agents pos excl nearest :
  findNearestAgent agents pos excl = Some nearest ->
  isAgentId agents (agent_id nearest).
Proof.
  intros H. apply findNearestAgent_some in H. destruct H as [H _].
  exists nearest. split; [exact H | reflexivity].
Qed.

Lemma addAgentsInZone_ids agents agentsInZone :
  forall ids assigned,
    (forall agent, In agent agentsInZone -> In agent agents) ->
    (forall id, In id ids -> isAgentId agents id) ->
    forall id, In id (fst (addAgentsInZone agentsInZone ids assigned)) ->
      isAgentId agents id.
Proof.
  induction agentsInZone as [|agent rest IH]; intros ids assigned Hin Hids;
    cbn [addAgentsInZone].
  - exact Hids.
  - apply IH.
    + intros a Ha. apply Hin. right. exact Ha.
    + intros id Hid. destruct (includes ids (agent_id agent)).
      * apply Hids, Hid.
      * apply in_app_or in Hid. destruct Hid as [Hid | [<- | []]].
        -- apply Hids, Hid.
        -- exists agent. split; [apply Hin; left; reflexivity | reflexivity].
Qed.

Lemma assignNearest_ids agents pos needed :
  forall ids assigned,
    (forall id, In id ids -> isAgentId agents id) ->
    forall id, In id (fst (assignNearest needed agents pos ids assigned)) ->
      isAgentId agents id.
Proof.
  induction needed as [|n IH]; intros ids assigned Hids; cbn [assignNearest].
  - exact Hids.
  - destruct (findNearestAgent agents pos assigned) as [nearest|] eqn:E.
    + apply IH. intros id Hid. apply in_app_or in Hid.
      destruct Hid as [Hid | [<- | []]]; [apply Hids, Hid|].
      eapply findNearestAgent_isAgentId; eassumption.
    + exact Hids.
Qed.

Lemma allocateObjective_assignmentKnown agents assigned o :
  is_completed o = false ->
  assignmentKnown agents (fst (allocateObjective agents assigned o)).
Proof.
  unfold allocateObjective. intros ->.
  destruct o as [b thr vthr | b hold thr aid start | b radius required ids].
  - destruct (findNearestAgent _ _ _); exact I.
  - destruct aid as [a|].
    + destruct (truthy (Some a)) eqn:Ht.
      * destruct (findAgent agents a) as [agent|] eqn:Ef.
        -- cbn. intros _. eapply findAgent_isAgentId; eassumption.
        -- destruct (findNearestAgent _ _ _) as [nearest|] eqn:En; cbn;
             [|exact I].
           intros _. eapply findNearestAgent_isAgentId; eassumption.
      * destruct (findNearestAgent _ _ _) as [nearest|] eqn:En;
          cbn [fst assignmentKnown].
        -- intros _. eapply findNearestAgent_isAgentId; eassumption.
        -- rewrite Ht. discriminate.
    + destruct (findNearestAgent _ _ _) as [nearest|] eqn:En; cbn; [|exact I].
      intros _. eapply findNearestAgent_isAgentId; eassumption.
  - set (ids1 := filter _ ids).
    set (zone := findAgentsInRadius agents (objective_position b) radius []).
    assert (H1 : forall id, In id ids1 -> isAgentId agents id).
    { intros id Hid. apply filter_In in Hid. destruct Hid as [_ Hid].
      apply existsb_exists in Hid. destruct Hid as [agent [Ha Hid]].
      exists agent. split; [exact Ha | apply String.eqb_eq; exact Hid]. }
    assert (Hz : forall agent, In agent zone -> In agent agents).
    { intros agent Ha. apply filter_In in Ha. apply Ha. }
    pose proof (addAgentsInZone_ids agents zone ids1 assigned Hz H1) as H2.
    destruct (addAgentsInZone zone ids1 assigned) as [ids2 assigned2].
    cbn [fst] in H2.
    destruct (0 <? _)%Z.
    + pose proof (assignNearest_ids agents (objective_position b)
                    (Z.to_nat (required - Z.of_nat (List.length ids2)))
                    ids2 assigned2 H2) as H3.
      destruct (assignNearest _ _ _ _ _) as [ids3 assigned3]. exact H3.
    + exact H2.
Qed.

Lemma allocateTasks_from_assignmentKnown agents objectives :
  forall assigned,
    Forall (fun o => is_completed o = true \/ assignmentKnown agents o)
      (allocateTasks_from agents assigned objectives).
Proof.
  induction objectives as [|o rest IH]; intros assigned; cbn.
  - constructor.
  - pose proof (allocateObjective_assignmentKnown agents assigned o) as H.
    pose proof (allocateObjective_props agents assigned o) as [_ Hc].
    destruct (allocateObjective agents assigned o) as [o' assigned'].
    cbn [fst] in H, Hc.
    constructor; [|apply IH].
    destruct (is_completed o) eqn:E; [left; exact Hc | right; auto].
Qed.

End AllocationFacts.

(** [allocateTasks] changes nothing but assignments: the array keeps its
    length and order, an inspect point is returned exactly as it was, and a
    relay node or a zone keeps its id, position, points, completed flag,
    thresholds, hold duration and hold start; only [assignedAgentId] and
    [assignedAgentIds] may differ. *)
Theorem allocateTasks_changes_assignments_only
    (agents : list Types.Agent) (objectives : list Tasks.Objective) :
  Forall2 AllocationSpec.sameButAssignment
    objectives (Tasks.allocateTasks agents objectives).
Proof. apply allocateTasks_from_sameButAssignment. Qed.

(** After [allocateTasks] no uncompleted objective is assigned to an agent
    that does not exist: the [assignedAgentId] of an uncompleted relay node
    is falsy or the id of an agent of the array, and every id in the
    [assignedAgentIds] of an uncompleted zone is the id of an agent of the
    array. *)
Theorem allocateTasks_assigns_known_agents
    (agents : list Types.Agent) (objectives : list Tasks.Objective) :
  Forall (fun o => Tasks.is_completed o = true \/
                   AllocationSpec.assignmentKnown agents o)
    (Tasks.allocateTasks agents objectives).
Proof. apply allocateTasks_from_assignmentKnown. Qed.

Section DistinctRelayFacts.
Import JS Types Tasks AllocationSpec.
Local Open Scope float_scope.

Lemma has_add x y s : has (add x s) y = has s y || String.eqb y x.
Proof.
  unfold add. destruct (has s x) eqn:E.
  - destruct (String.eqb y x) eqn:Eyx.
    + apply String.eqb_eq in Eyx. subst y. rewrite E. reflexivity.
    + rewrite orb_false_r. reflexivity.
  - unfold has. cbn [existsb]. apply orb_comm.
Qed.

Lemma has_add_same x s : has (add x s) x = true.
Proof. rewrite has_add, String.eqb_refl. apply orb_true_r. Qed.

Lemma has_add_mono x y s : has s y = true -> has (add x s) y = true.
Proof. intros H. rewrite has_add, H. reflexivity. Qed.

Lemma addAgentsInZone_mono agentsInZone y :
  forall ids assigned,
    has assigned y = true ->
    has (snd (addAgentsInZone agentsInZone ids assigned)) y = true.
Proof.
  induction agentsInZone as [|agent rest IH]; intros ids assigned H;
    cbn [addAgentsInZone]; [exact H|].
  apply IH, has_add_mono, H.
Qed.

Lemma assignNearest_mono agents pos y needed :
  forall ids assigned,
    has assigned y = true ->
    has (snd (assignNearest needed agents pos ids assigned)) y = true.
Proof.
  induction needed as [|n IH]; intros ids assigned H; cbn [assignNearest];
    [exact H|].
  destruct (findNearestAgent agents pos assigned); [|exact H].
  apply IH, has_add_mono, H.
Qed.

(** One iteration of the loop of [allocateTasks]: the set of tracked agents
    only grows; the agent of the relay node after the iteration is tracked if
    the relay node is not completed; and an agent the iteration has just
    given to a relay node was not tracked before. *)
Lemma allocateObjective_tracks agents assigned o :
  (forall y, has assigned y = true ->
     has (snd (allocateObjective agents assigned o)) y = true) /\
  (is_completed o = false ->
   forall a, relayAgent (fst (allocateObjective agents assigned o)) = Some a ->
     has (snd (allocateObjective agents assigned o)) a = true) /\
  (forall a,
     relayAgent (fst (allocateObjective agents assigned o)) = Some a ->
     relayAgent (fst (allocateObjective agents assigned o)) <> relayAgent o ->
     has assigned a = false).
Proof.
  unfold allocateObjective.
  destruct (is_completed o) eqn:Hc.
  { cbn [fst snd]. split; [auto|]. split; [discriminate|].
    intros a _ Hne. contradiction Hne. reflexivity. }
  destruct o as [b thr vthr | b hold thr aid start | b radius required ids].
  - destruct (findNearestAgent _ _ _) as [nearest|]; cbn [fst snd relayAgent].
    + split; [intros y; apply has_add_mono|]. split; discriminate.
    + split; [auto|]. split; discriminate.
  - assert (Hnew : forall current,
      relayAgent (RelayNodeObjective b hold thr current start) = None ->
      let r := match findNearestAgent agents (objective_position b) assigned
               with
               | Some nearest =>
                 (RelayNodeObjective b hold thr (Some (agent_id nearest))
                    start, add (agent_id nearest) assigned)
               | None => (RelayNodeObjective b hold thr current start, assigned)
               end in
      (forall y, has assigned y = true -> has (snd r) y = true) /\
      (forall a, relayAgent (fst r) = Some a -> has (snd r) a = true) /\
      (forall a, relayAgent (fst r) = Some a -> has assigned a = false)).
    { intros current Hcur.
      destruct (findNearestAgent agents (objective_position b) assigned)
        as [nearest|] eqn:En; cbn zeta; cbn [fst snd].
      - split; [intros y; apply has_add_mono|].
        cbn [relayAgent].
        destruct (truthy (Some (agent_id nearest))); split;
          try discriminate.
        + intros a [= <-]. apply has_add_same.
        + intros a [= <-]. apply findNearestAgent_some in En. apply En.
      - rewrite Hcur. split; [auto|]. split; discriminate. }
    destruct aid as [a0|].
    + destruct (truthy (Some a0)) eqn:Ht.
      * destruct (findAgent agents a0) as [agent|].
        -- cbn [fst snd]. split; [intros y; apply has_add_mono|].
           split.
           ++ intros _ a. cbn [relayAgent]. rewrite Ht. intros [= <-].
              apply has_add_same.
           ++ intros a _ Hne. contradiction Hne. reflexivity.
        -- destruct (Hnew None eq_refl) as [H1 [H2 H3]].
           split; [exact H1|]. split; [intros _; exact H2|].
           intros a Ha _. apply H3, Ha.
      * assert (Hcur : relayAgent (RelayNodeObjective b hold thr (Some a0)
                                     start) = None).
        { cbn [relayAgent]. rewrite Ht. reflexivity. }
        destruct (Hnew (Some a0) Hcur) as [H1 [H2 H3]].
        split; [exact H1|]. split; [intros _; exact H2|].
        intros a Ha _. apply H3, Ha.
    + destruct (Hnew None eq_refl) as [H1 [H2 H3]].
      split; [exact H1|]. split; [intros _; exact H2|].
      intros a Ha _. apply H3, Ha.
  - set (zone := findAgentsInRadius agents (objective_position b) radius []).
    set (ids1 := filter _ ids).
    pose proof (fun y => addAgentsInZone_mono zone y ids1 assigned) as H2.
    destruct (addAgentsInZone zone ids1 assigned) as [ids2 assigned2].
    cbn [snd] in H2.
    destruct (0 <? _)%Z.
    + pose proof (fun y => assignNearest_mono agents (objective_position b) y
                    (Z.to_nat (required - Z.of_nat (List.length ids2)))
                    ids2 assigned2) as H3.
      destruct (assignNearest _ _ _ _ _) as [ids3 assigned3].
      cbn [fst snd relayAgent] in *.
      split; [auto|]. split; discriminate.
    + cbn [fst snd relayAgent]. split; [auto|]. split; discriminate.
Qed.

(** An agent just given to the relay node at index [j] was not tracked when
    the loop started. *)
Lemma allocateTasks_from_fresh agents objectives :
  forall assigned j oj oj' a,
    nth_error objectives j = Some oj ->
    nth_error (allocateTasks_from agents assigned objectives) j = Some oj' ->
    relayAgent oj' = Some a -> relayAgent oj' <> relayAgent oj ->
    has assigned a = false.
Proof.
  induction objectives as [|o rest IH];
    intros assigned j oj oj' a Hj Hj' Ha Hne.
  - destruct j; discriminate.
  - cbn [allocateTasks_from] in Hj'.
    pose proof (allocateObjective_tracks agents assigned o)
      as [Hmono [_ Hfresh]].
    destruct (allocateObjective agents assigned o) as [o' assigned'].
    cbn [fst snd] in *.
    destruct j as [|j]; cbn in Hj, Hj'.
    + injection Hj as ->. injection Hj' as ->. apply Hfresh; assumption.
    + specialize (IH assigned' j oj oj' a Hj Hj' Ha Hne).
      destruct (has assigned a) eqn:E; [|reflexivity].
      apply Hmono in E. congruence.
Qed.

Lemma allocateTasks_from_distinct agents objectives :
  forall assigned i j oi' oj oj' a a',
    (i < j)%nat ->
    nth_error (allocateTasks_from agents assigned objectives) i = Some oi' ->
    is_completed oi' = false -> relayAgent oi' = Some a ->
    nth_error objectives j = Some oj ->
    nth_error (allocateTasks_from agents assigned objectives) j = Some oj' ->
    relayAgent oj' = Some a' -> relayAgent oj' <> relayAgent oj ->
    a <> a'.
Proof.
  induction objectives as [|o rest IH];
    intros assigned i j oi' oj oj' a a' Hij Hi Hc Ha Hj Hj' Ha' Hne.
  - destruct j; discriminate.
  - cbn [allocateTasks_from] in Hi, Hj'.
    pose proof (allocateObjective_tracks agents assigned o) as [_ [Htrack _]].
    pose proof (allocateObjective_props agents assigned o) as [_ Hsame].
    destruct (allocateObjective agents assigned o) as [o' assigned'].
    cbn [fst snd] in *.
    destruct j as [|j]; [lia|]. cbn in Hj, Hj'.
    destruct i as [|i]; cbn in Hi.
    + injection Hi as ->.
      assert (Hin : has assigned' a = true).
      { apply Htrack; [congruence | exact Ha]. }
      pose proof (allocateTasks_from_fresh agents rest assigned' j oj oj' a'
                    Hj Hj' Ha' Hne) as Hout.
      intros ->. congruence.
    + apply (IH assigned' i j oi' oj oj' a a'); auto. lia.
Qed.

End DistinctRelayFacts.

(** Within one call of [allocateTasks], a relay node that the call gives an
    agent never gets the agent of an uncompleted relay node placed before it
    in the array: if the relay node at index [j] ends the call with an
    assignment it did not have before, that agent differs from the agent of
    every uncompleted relay node at an index [i < j].  (The loop tracks the
    agents of the objectives it has already visited; nothing is said of the
    relay nodes placed after index [j].) *)
Theorem allocateTasks_fresh_relay_agent
    (agents : list Types.Agent) (objectives : list Tasks.Objective)
    (i j : nat) (oi' oj oj' : Tasks.Objective) (a a' : string) :
  (i < j)%nat ->
  nth_error (Tasks.allocateTasks agents objectives) i = Some oi' ->
  Tasks.is_completed oi' = false ->
  AllocationSpec.relayAgent oi' = Some a ->
  nth_error objectives j = Some oj ->
  nth_error (Tasks.allocateTasks agents objectives) j = Some oj' ->
  AllocationSpec.relayAgent oj' = Some a' ->
  AllocationSpec.relayAgent oj' <> AllocationSpec.relayAgent oj ->
  a <> a'.
Proof. apply allocateTasks_from_distinct. Qed.

(** Two free relay nodes and two agents: each relay node gets its own
    agent. *)
Lemma allocateTasks_fresh_relay_agent_witness :
  "sat-1"%string <> "sat-2"%string.
Proof.
  apply (allocateTasks_fresh_relay_agent Scenes.pair
           [Scenes.relayA; Scenes.relayB] 0 1
           (Tasks.RelayNodeObjective
              (Tasks.mkBaseObjective "relay-a" (0, 0, 0) 100 false)
              30 1000 (Some "sat-1"%string) None)
           Scenes.relayB
           (Tasks.RelayNodeObjective
              (Tasks.mkBaseObjective "relay-b" (2000, 0, 0) 100 false)
              30 1000 (Some "sat-2"%string) None)).
  - lia.
  - vm_compute. reflexivity.
  - reflexivity.
  - reflexivity.
  - reflexivity.
  - vm_compute. reflexivity.
  - reflexivity.
  - vm_compute. discriminate.
Defined.

(** The tracking runs forwards only: a free relay node placed before a relay
    node that already holds the only agent is given that same agent. *)
Example allocateTasks_shared_agent :
  map AllocationSpec.relayAgent
    (Tasks.allocateTasks Samples.inside [Scenes.relayA; Samples.relay])
  = [Some "sat-1"%string; Some "sat-1"%string].
Proof. vm_compute. reflexivity. Qed.

(** ** Steering and completed objectives *)

Section SteeringFacts.
Import JS Types Tasks Steering AllocationSpec.
Local Open Scope float_scope.

Lemma fold_nextTarget_uncompleted agent objectives :
  forall target,
    fold_left (nextTarget agent) (uncompleted objectives) target
    = fold_left (nextTarget agent) objectives target.
Proof.
  induction objectives as [|o rest IH]; intros target; [reflexivity|].
  unfold uncompleted. cbn [filter fold_left].
  destruct (is_completed o) eqn:Hc; cbn [negb].
  - fold (uncompleted rest). rewrite IH. f_equal.
    unfold nextTarget. rewrite Hc. reflexivity.
  - cbn [fold_left]. apply IH.
Qed.

Lemma selectTarget_uncompleted agent objectives :
  selectTarget agent (uncompleted objectives) = selectTarget agent objectives.
Proof. apply fold_nextTarget_uncompleted. Qed.

Lemma computeObjectiveSteering_uncompleted agent objectives params :
  computeObjectiveSteering agent (uncompleted objectives) params
  = computeObjectiveSteering agent objectives params.
Proof.
  unfold computeObjectiveSteering. rewrite selectTarget_uncompleted.
  reflexivity.
Qed.

End SteeringFacts.

(** Completed objectives never attract an agent: [computeObjectiveSteering]
    and [computeObjectiveSteeringBatch] return what they return on the array
    with the completed objectives removed, so with every objective completed
    (or none at all) every adjustment is zero; the batch holds one adjustment
    per agent, in the order of the agents. *)
Theorem computeObjectiveSteering_ignores_completed
    (agents : list Types.Agent) (objectives : list Tasks.Objective)
    (params : Tasks.ObjectiveSteeringParams) :
  let remaining := AllocationSpec.uncompleted objectives in
  Steering.computeObjectiveSteeringBatch agents objectives params
  = map (fun agent => Tasks.computeObjectiveSteering agent remaining params)
        agents /\
  (remaining = []%list ->
   Steering.computeObjectiveSteeringBatch agents objectives params
   = map (fun _ => Swarm.mkVelocityAdjustment (0, 0, 0)) agents).
Proof.
  cbv zeta. unfold Steering.computeObjectiveSteeringBatch. split.
  - apply map_ext. intros agent. symmetry.
    apply computeObjectiveSteering_uncompleted.
  - intros Hnone. apply map_ext. intros agent.
    rewrite <- computeObjectiveSteering_uncompleted.
    rewrite Hnone. reflexivity.
Qed.

(** A completed inspect point next to the agents attracts nobody, the
    uncompleted one at the origin attracts both. *)
Example computeObjectiveSteeringBatch_pair :
  Steering.computeObjectiveSteeringBatch Scenes.pair [Scenes.inspectDone]
    Tasks.DEFAULT_OBJECTIVE_STEERING_PARAMS
  = [Swarm.mkVelocityAdjustment (0, 0, 0);
     Swarm.mkVelocityAdjustment (0, 0, 0)] /\
  Steering.computeObjectiveSteeringBatch Scenes.pair
    [Scenes.inspectDone; Scenes.inspectOrigin]
    Tasks.DEFAULT_OBJECTIVE_STEERING_PARAMS
  = [Swarm.mkVelocityAdjustment (-0.5, 0, 0);
     Swarm.mkVelocityAdjustment (-0.5, 0, 0)].
Proof. split; vm_compute; reflexivity. Qed.

(** ** When an inspect point and a zone complete *)

Section CompletionCriteria.
Import JS Types Tasks AllocationSpec.
Local Open Scope float_scope.

Lemma inspectedBy_existsb pos thr vthr agents :
  inspectedBy agents pos thr vthr = existsb (inspects pos thr vthr) agents.
Proof.
  induction agents as [|agent rest IH]; [reflexivity|].
  cbn [inspectedBy existsb]. unfold inspects at 1, distanceFrom, speed.
  destruct (distance (position (state agent)) pos <=? thr); cbn [andb orb];
    [|exact IH].
  destruct (velocity (state agent)) as [[vx vy] vz].
  destruct (_ <=? _); cbn [orb]; [reflexivity | exact IH].
Qed.

Lemma findAgentsInRadius_all agents pos radius :
  findAgentsInRadius agents pos radius [] = filter (inZone pos radius) agents.
Proof. reflexivity. Qed.

End CompletionCriteria.

(** [updateObjectiveState] on an uncompleted objective: an inspect point is
    completed by the call exactly when some agent of the array is within its
    threshold with a speed of at most [vThreshold] (10 m/s when the field is
    absent); a zone is completed exactly when the number of agents of the
    array within its radius is at least [requiredAgents], whoever is
    assigned to it.  In both cases a completed objective has its id in the
    returned array. *)
Theorem updateObjectiveState_completion_criteria
    (objectives : list Tasks.Objective) (agents : list Types.Agent)
    (simTime : float) (k : nat) (o : Tasks.Objective) :
  nth_error objectives k = Some o ->
  Tasks.is_completed o = false ->
  exists o',
    nth_error (fst (Tasks.updateObjectiveState objectives agents simTime)) k
    = Some o' /\
    match o with
    | Tasks.InspectPointObjective b thr vthr =>
      Tasks.is_completed o'
      = existsb (AllocationSpec.inspects (Tasks.objective_position b) thr vthr)
          agents
    | Tasks.HoldFormationZoneObjective b radius required _ =>
      Tasks.is_completed o'
      = (required <=?
         Z.of_nat
           (List.length
              (filter (AllocationSpec.inZone (Tasks.objective_position b)
                         radius) agents)))%Z
    | Tasks.RelayNodeObjective _ _ _ _ _ => True
    end /\
    (Tasks.is_completed o' = true ->
     In (Tasks.oid o)
        (snd (Tasks.updateObjectiveState objectives agents simTime))).
Proof.
  intros Hk Hc.
  destruct (updateObjectiveState_nth objectives agents simTime k o Hk)
    as [Hnth Hincl].
  exists (fst (Tasks.updateObjective agents simTime o)).
  split; [exact Hnth|]. split.
  - unfold Tasks.updateObjective. rewrite Hc.
    destruct o as [b thr vthr | b hold thr aid start | b radius required ids];
      [| exact I |].
    + rewrite inspectedBy_existsb.
      destruct (existsb _ agents); [reflexivity | exact Hc].
    + rewrite findAgentsInRadius_all.
      destruct (_ <=? _)%Z; [reflexivity | exact Hc].
  - intros Hdone. apply Hincl.
    destruct (updateObjective_props agents simTime o) as [_ [_ ->]].
    rewrite Hc, Hdone. left. reflexivity.
Qed.

(** An inspect point and a zone for two agents, with two slow agents 600 m and
    1500 m away: the inspect point (threshold 1000 m) and the zone (radius
    2 km) both complete. *)
Lemma updateObjectiveState_completion_criteria_witness :
  exists o',
    nth_error
      (fst (Tasks.updateObjectiveState
              [Scenes.inspectOrigin; Scenes.zoneOrigin] Scenes.pair 0)) 1
    = Some o' /\
    Tasks.is_completed o'
    = (2 <=?
       Z.of_nat
         (List.length
            (filter (AllocationSpec.inZone (0, 0, 0)%float 2000%float)
               Scenes.pair)))%Z /\
    (Tasks.is_completed o' = true ->
     In "zone-1"%string
        (snd (Tasks.updateObjectiveState
                [Scenes.inspectOrigin; Scenes.zoneOrigin] Scenes.pair 0))).
Proof.
  exact (updateObjectiveState_completion_criteria
           [Scenes.inspectOrigin; Scenes.zoneOrigin] Scenes.pair 0 1
           Scenes.zoneOrigin eq_refl eq_refl).
Defined.

(** ** The clock over any sequence of calls *)

Section ClockFacts.
Import JS SimClock SimClockCalls.
Local Open Scope float_scope.

Lemma setTimeScale_timeScale scale s :
  timeScale (setTimeScale scale s) = Math_max 0.1 (Math_min 100 scale).
Proof.
  unfold setTimeScale. cbv zeta. destruct (_ =? 0); reflexivity.
Qed.

Lemma Math_min_nan_r a : Math_min a nan = nan.
Proof. unfold Math_min. rewrite orb_true_r. reflexivity. Qed.

Lemma Math_max_nan_r a : Math_max a nan = nan.
Proof. unfold Math_max. rewrite orb_true_r. reflexivity. Qed.

Lemma is_nan_eq x : is_nan x = true -> x = nan.
Proof.
  intros H. apply FloatFacts.is_nan_Prim2SF in H.
  apply Prim2SF_inj. rewrite H. reflexivity.
Qed.

Lemma perform_timeScaleInRange c s :
  timeScaleInRange s -> timeScaleInRange (perform c s).
Proof.
  intros H. destruct c; cbn [perform]; try exact H.
  - unfold timeScaleInRange. rewrite setTimeScale_timeScale.
    destruct (is_nan scale) eqn:En.
    + right. apply is_nan_eq in En. subst scale.
      rewrite Math_min_nan_r, Math_max_nan_r. reflexivity.
    + left. rewrite <- setTimeScale_timeScale with (s := s).
      apply setTimeScale_range. exact En.
  - unfold update. destruct (paused s || (timeScale s =? 0)); exact H.
Qed.

End ClockFacts.

(** Whatever methods are called on a clock, in whatever order and with
    whatever arguments, a time scale that is in [0.1, 100] (or NaN) stays
    so; this holds in particular from [new SimClock()], whose time scale is
    1.  ([setTimeScale(NaN)] stores NaN.) *)
Theorem clock_timeScale_invariant
    (calls : list SimClockCalls.Call) (s : SimClock.SimClockState) :
  SimClockCalls.timeScaleInRange s ->
  SimClockCalls.timeScaleInRange (SimClockCalls.run calls s).
Proof.
  unfold SimClockCalls.run. revert s.
  induction calls as [|c rest IH]; intros s H; [exact H|].
  cbn [fold_left]. apply IH, perform_timeScaleInRange, H.
Qed.

Lemma clock_timeScale_invariant_witness :
  SimClockCalls.timeScaleInRange
    (SimClockCalls.run
       [SimClockCalls.SetTimeScale 500; SimClockCalls.Update 0.016;
        SimClockCalls.SetTimeScale 0; SimClockCalls.Toggle;
        SimClockCalls.Step; SimClockCalls.Reset]
       SimClockCalls.initial).
Proof.
  apply clock_timeScale_invariant. left. split; reflexivity.
Defined.

(** ** Burn after burn *)

Section BudgetFacts.
Import JS.
Local Open Scope float_scope.

Lemma Math_max_zero_not_negative x : (Math_max 0 x <? 0) = false.
Proof.
  unfold Math_max. change (is_nan 0) with false. cbn [orb].
  destruct (is_nan x); [reflexivity|].
  destruct (0 <? x) eqn:E1.
  - apply FloatFacts.leb_ltb_false, FloatFacts.ltb_leb, E1.
  - destruct (x <? 0); reflexivity.
Qed.

End BudgetFacts.

(** The budget [applyDeltaV] returns is never negative, so that a burn that
    follows a successful burn is never refused for a negative budget. *)
Theorem applyDeltaV_budget_never_negative
    (state : Types.CartesianState) (dvVector dvVector' : vec3)
    (dvRemaining : float) (result : DeltaV.DeltaVResult) :
  DeltaV.applyDeltaV state dvVector dvRemaining = inr result ->
  (DeltaV.newDvRemaining result <? 0) = false /\
  DeltaV.applyDeltaV (DeltaV.newState result) dvVector'
    (DeltaV.newDvRemaining result)
  <> inl DeltaV.NegativeBudget.
Proof.
  intros H.
  assert (Hb : (DeltaV.newDvRemaining result <? 0) = false).
  { unfold DeltaV.applyDeltaV in H.
    destruct (dvRemaining <? 0); [discriminate|].
    destruct dvVector as [[dvx dvy] dvz].
    destruct (dvRemaining <? _); [discriminate|].
    destruct (Types.velocity state) as [[vx vy] vz].
    injection H as <-. apply Math_max_zero_not_negative. }
  split; [exact Hb|].
  unfold DeltaV.applyDeltaV. rewrite Hb.
  destruct dvVector' as [[dvx dvy] dvz].
  destruct (_ <? Math_sqrt _); [discriminate|].
  destruct (Types.velocity (DeltaV.newState result)) as [[vx vy] vz].
  discriminate.
Qed.

(** A burn of 3 m/s with a budget of 3 m/s leaves a budget of 0, and the
    next burn is refused for exceeding it, not for a negative budget. *)
Lemma applyDeltaV_budget_never_negative_witness :
  (0 <? 0) = false /\
  DeltaV.applyDeltaV
    (Types.mkCartesianState (7000000, 0, 0) (0, 7503, 0)) (1, 0, 0) 0
  <> inl DeltaV.NegativeBudget.
Proof.
  exact (applyDeltaV_budget_never_negative
           (Types.mkCartesianState (7000000, 0, 0) (0, 7500, 0))
           (0, 3, 0) (1, 0, 0) 3
           (DeltaV.mkDeltaVResult
              (Types.mkCartesianState (7000000, 0, 0) (0, 7503, 0)) 0)
           eq_refl).
Defined.

(** ** When [enforceMinimumSeparation] fails *)

Section SeparationFailure.
Import JS Types Swarm SeparationSpec.
Local Open Scope float_scope.

(** The loop body on one pair: it fails exactly when the pair has a
    repulsion and one of the two indices is outside the adjustment array;
    otherwise it keeps the length of the array. *)
Lemma pairStep_outcome params p o i j adjustments :
  match pairStep params (minSeparation params * minSeparation params)
          p o i j adjustments with
  | None =>
    repulsion params p o <> None /\
    (List.length adjustments <= i \/ List.length adjustments <= j)%nat
  | Some after =>
    List.length after = List.length adjustments /\
    (repulsion params p o = None \/
     (i < List.length adjustments /\ j < List.length adjustments)%nat)
  end.
Proof.
  unfold pairStep, repulsion.
  destruct p as [[px py] pz], o as [[ox oy] oz].
  destruct (_ && _); [|split; [reflexivity | left; reflexivity]].
  destruct (nth_error adjustments i) as [ai|] eqn:Ei.
  - assert (Hi : (i < List.length adjustments)%nat).
    { apply nth_error_Some. congruence. }
    destruct (delta ai) as [[a0 a1] a2].
    match goal with
    | |- context [nth_error (set_nth i ?x adjustments) j] =>
      destruct (nth_error (set_nth i x adjustments) j) as [bj|] eqn:Ej;
      [ assert (Hj : (j < List.length (set_nth i x adjustments))%nat)
          by (apply nth_error_Some; congruence)
      | apply nth_error_None in Ej ];
      rewrite length_set_nth in *
    end.
    + destruct (delta bj) as [[b0 b1] b2].
      rewrite !length_set_nth. split; [reflexivity | right; lia].
    + split; [discriminate | right; exact Ej].
  - apply nth_error_None in Ei. split; [discriminate | left; exact Ei].
Qed.

Lemma processPairs_outcome agents params pairs :
  forall adjustments,
    match processPairs agents params pairs adjustments with
    | None =>
      exists i j a b,
        In (i, j) pairs /\
        nth_error agents i = Some a /\ nth_error agents j = Some b /\
        repulsion params (position (state a)) (position (state b)) <> None /\
        (List.length adjustments <= i \/ List.length adjustments <= j)%nat
    | Some after =>
      List.length after = List.length adjustments /\
      forall i j a b,
        In (i, j) pairs ->
        nth_error agents i = Some a -> nth_error agents j = Some b ->
        repulsion params (position (state a)) (position (state b)) = None \/
        (i < List.length adjustments /\ j < List.length adjustments)%nat
    end.
Proof.
  induction pairs as [|[i j] rest IH]; intros adjustments.
  - cbn. split; [reflexivity | intros i j a b []].
  - cbn [processPairs]. unfold processPair. cbn [fst snd].
    assert (Hskip :
      (nth_error agents i = None \/ nth_error agents j = None) ->
      match processPairs agents params rest adjustments with
      | None =>
        exists i0 j0 a b,
          In (i0, j0) ((i, j) :: rest) /\
          nth_error agents i0 = Some a /\ nth_error agents j0 = Some b /\
          repulsion params (position (state a)) (position (state b)) <> None /\
          (List.length adjustments <= i0 \/ List.length adjustments <= j0)%nat
      | Some after =>
        List.length after = List.length adjustments /\
        forall i0 j0 a b,
          In (i0, j0) ((i, j) :: rest) ->
          nth_error agents i0 = Some a -> nth_error agents j0 = Some b ->
          repulsion params (position (state a)) (position (state b)) = None \/
          (i0 < List.length adjustments /\ j0 < List.length adjustments)%nat
      end).
    { intros Hnone. specialize (IH adjustments).
      destruct (processPairs agents params rest adjustments) as [after|].
      - destruct IH as [Hl Hall]. split; [exact Hl|].
        intros i0 j0 a b [E | Hin] Ha Hb; [|eapply Hall; eassumption].
        injection E as <- <-. destruct Hnone; congruence.
      - destruct IH as (i0 & j0 & a & b & Hin & H).
        exists i0, j0, a, b. split; [right; exact Hin | exact H]. }
    destruct (nth_error agents i) as [a|] eqn:Ea; [|apply Hskip; auto].
    destruct (nth_error agents j) as [b|] eqn:Eb; [|apply Hskip; auto].
    clear Hskip.
    pose proof (pairStep_outcome params (position (state a))
                  (position (state b)) i j adjustments) as Hstep.
    destruct (pairStep _ _ _ _ _ _ adjustments) as [after1|].
    + destruct Hstep as [Hl1 Hok]. specialize (IH after1).
      destruct (processPairs agents params rest after1) as [after|].
      * destruct IH as [Hl Hall]. split; [congruence|].
        intros i0 j0 a0 b0 [E | Hin] Ha0 Hb0.
        -- injection E as <- <-.
           assert (a0 = a) by congruence. assert (b0 = b) by congruence.
           subst. exact Hok.
        -- rewrite <- Hl1. eapply Hall; eassumption.
      * destruct IH as (i0 & j0 & a0 & b0 & Hin & Ha0 & Hb0 & Hr & Hlen).
        exists i0, j0, a0, b0. rewrite <- Hl1.
        repeat split; auto. right. exact Hin.
    + destruct Hstep as [Hr Hlen].
      exists i, j, a, b. repeat split; auto. left. reflexivity.
Qed.

(** The separation pass on [agents] fails exactly for an array of
    adjustments that is too short for a pair in need of repulsion. *)
Lemma enforceMinimumSeparation_short agents adjustments params :
  enforceMinimumSeparation agents adjustments params = None <->
  exists i j a b,
    (i < j)%nat /\
    nth_error agents i = Some a /\ nth_error agents j = Some b /\
    repulsion params (position (state a)) (position (state b)) <> None /\
    (List.length adjustments <= j)%nat.
Proof.
  rewrite enforceMinimumSeparation_processPairs.
  pose proof (processPairs_outcome agents params
                (separationPairs (List.length agents)) adjustments) as H.
  destruct (processPairs _ _ _ _) as [after|].
  - destruct H as [_ H]. split; [discriminate|].
    intros (i & j & a & b & Hij & Ha & Hb & Hr & Hlen). exfalso.
    assert (Hj : (j < List.length agents)%nat)
      by (apply nth_error_Some; congruence).
    destruct (H i j a b) as [Hnone | [_ Hlt]]; auto; [|lia].
    apply in_separationPairs. lia.
  - split; [intros _|reflexivity].
    destruct H as (i & j & a & b & Hin & Ha & Hb & Hr & Hlen).
    apply in_separationPairs in Hin.
    exists i, j, a, b. repeat split; auto; lia.
Qed.

End SeparationFailure.

(** [enforceMinimumSeparation] fails (with the [TypeError] of
    [adjustments[j]!.delta]) exactly when the adjustment array is too short
    for a pair of agents that repel each other: there are agents at indices
    [i < j] that are closer than [minSeparation] and further apart than the
    numerical floor, and the array has no element [j].  In every other case
    it returns. *)
Theorem enforceMinimumSeparation_fails_exactly
    (agents : list Types.Agent)
    (adjustments : list Swarm.VelocityAdjustment)
    (params : Swarm.BehaviorParams) :
  Swarm.enforceMinimumSeparation agents adjustments params = None <->
  exists i j a b,
    (i < j)%nat /\
    nth_error agents i = Some a /\ nth_error agents j = Some b /\
    SeparationSpec.repulsion params
      (Types.position (Types.state a)) (Types.position (Types.state b))
    <> None /\
    (List.length adjustments <= j)%nat.
Proof.
  exact (enforceMinimumSeparation_short agents adjustments params).
Qed.

(** Three agents, the first two 500 m apart: with one adjustment the call
    fails, with none it fails, with three it returns. *)
Example enforceMinimumSeparation_short_arrays :
  Swarm.enforceMinimumSeparation Samples.trio
    [Swarm.mkVelocityAdjustment (0, 0, 0)] Swarm.DEFAULT_BEHAVIOR_PARAMS
  = None /\
  Swarm.enforceMinimumSeparation Samples.trio []%list
    Swarm.DEFAULT_BEHAVIOR_PARAMS = None /\
  Swarm.enforceMinimumSeparation Samples.trio Samples.still
    Swarm.DEFAULT_BEHAVIOR_PARAMS <> None.
Proof.
  split; [vm_compute; reflexivity|].
  split; [vm_compute; reflexivity|].
  vm_compute. discriminate.
Qed.

(** ** The propagator and its errors *)

Section PropagatorFacts.
Import JSNumber Orbit.
Context {lib : MathLibrary} {arc : ArcLibrary}.

(** With a mean anomaly, [elementsToCartesian] returns a state. *)
Lemma elementsToCartesian_returns (a e i Ω ω M1 : float) :
  exists state,
    elementsToCartesian (mkOrbitalElements a e i Ω ω None (Some M1))
    = inr state.
Proof. unfold elementsToCartesian. cbn [Orbit.ν Orbit.M]. eauto. Qed.

Lemma cartesianToElements_errors (state : Types.CartesianState) :
  cartesianToElements state <> inl MissingAnomaly.
Proof.
  unfold cartesianToElements.
  destruct (Types.position state) as [[x y] z].
  destruct (Types.velocity state) as [[vx vy] vz]. cbv zeta.
  match goal with
  | |- context [match ?c with
                | Some _ => _
                | None => inl HyperbolicOrbit
                end] => destruct c
  end; [|discriminate].
  destruct (_ <? 1e-10); discriminate.
Qed.

Lemma propagateKepler_outcome (state : Types.CartesianState)
    (deltaTime : float) :
  match cartesianToElements state with
  | inl err => propagateKepler state deltaTime = inl err
  | inr _ => exists state', propagateKepler state deltaTime = inr state'
  end.
Proof.
  unfold propagateKepler.
  destruct (cartesianToElements state) as [err|el]; [reflexivity|].
  cbv zeta. apply elementsToCartesian_returns.
Qed.

(** [propagateKepler] fails exactly when the extraction of the elements
    fails, and then with the error of [cartesianToElements]: a hyperbolic
    orbit, or an angular momentum below 1e-10.  The conversion back never
    fails, and the missing-anomaly error never comes out of
    [propagateKepler]. *)
Theorem propagateKepler_fails_exactly
    (state : Types.CartesianState) (deltaTime : float) (err : OrbitError) :
  (propagateKepler state deltaTime = inl err <->
   cartesianToElements state = inl err) /\
  propagateKepler state deltaTime <> inl MissingAnomaly.
Proof.
  pose proof (propagateKepler_outcome state deltaTime) as H.
  pose proof (cartesianToElements_errors state) as Hm.
  destruct (cartesianToElements state) as [err'|el] eqn:Hc.
  - rewrite H. split; [split; intros [= ->]; reflexivity|].
    intros [= ->]. apply Hm. reflexivity.
  - destruct H as [state' ->]. split; [|discriminate].
    split; discriminate.
Qed.

(** [propagateKeplerBatch] is all or nothing: it returns one propagated
    state per input state, in order, when every state propagates; when some
    state does not, the whole batch fails with the error of the first such
    state and no state is returned. *)
Theorem propagateKeplerBatch_all_or_nothing
    (states : list Types.CartesianState) (deltaTime : float) :
  match propagateKeplerBatch states deltaTime with
  | inr states' =>
    Forall2 (fun state state' =>
               propagateKepler state deltaTime = inr state')
      states states'
  | inl err =>
    exists before state after,
      states = (before ++ state :: after)%list /\
      Forall (fun s => exists s', propagateKepler s deltaTime = inr s')
        before /\
      propagateKepler state deltaTime = inl err
  end.
Proof.
  induction states as [|state rest IH]; cbn [propagateKeplerBatch].
  - constructor.
  - destruct (propagateKepler state deltaTime) as [err|state'] eqn:E.
    + exists []%list, state, rest. repeat split; [constructor | exact E].
    + destruct (propagateKeplerBatch rest deltaTime) as [err|rest'].
      * destruct IH as (before & s & after & -> & Hb & Hs).
        exists (state :: before)%list, s, after.
        repeat split; [constructor; eauto | exact Hs].
      * constructor; assumption.
Qed.

End PropagatorFacts.

(** ** The Kepler solver at the periapsis *)

Section SolverFacts.
Import JSNumber FloatFacts Orbit.
Context {lib : MathLibrary} {arc : ArcLibrary}.

(** The residual [E - e * sin E - M] at [E = M = 0], with [sin 0 = 0]: 0
    for a finite eccentricity, NaN for another one. *)
Lemma residual_at_zero (e : float) :
  0 - e * 0 - 0 = 0 \/ 0 - e * 0 - 0 = nan.
Proof.
  assert (H : Prim2SF (0 - e * 0 - 0)
              = SF64sub (SF64sub (S754_zero false)
                         (SF64mul (Prim2SF e) (S754_zero false)))
                  (S754_zero false))
    by (rewrite !sub_spec, mul_spec; reflexivity).
  destruct (Prim2SF e) as [[]|[]| |[] m ex]; cbn in H;
    ((left; apply Prim2SF_inj; rewrite H; reflexivity)
     || (right; apply Prim2SF_inj; rewrite H; reflexivity)).
Qed.

Lemma nan_div (x : float) : nan / x = nan.
Proof.
  apply Prim2SF_inj. rewrite div_spec.
  change (Prim2SF nan) with S754_nan.
  destruct (Prim2SF x) as [[]|[]| |[] m ex]; reflexivity.
Qed.

(** From [E = 0] for [M = 0] the iteration stays at 0: the residual is 0
    and the loop ends, or it is NaN, and then the loop skips the step
    or falls back to [M]. *)
Lemma newtonRaphson_at_zero (iterations : nat) (e : float) :
  Math_sin 0 = 0 -> newtonRaphson iterations 0 e 0 = 0.
Proof.
  intros Hsin. induction iterations as [|n IH]; [reflexivity|].
  cbn [newtonRaphson]. rewrite Hsin.
  destruct (residual_at_zero e) as [-> | ->].
  - reflexivity.
  - change (Math_abs nan <? 1e-12) with false. cbv iota.
    destruct (Math_abs (1 - e * Math_cos 0) <? 1e-10); [exact IH|].
    rewrite nan_div. reflexivity.
Qed.

(** For a mean anomaly that normalizes to 0 and an eccentricity that is
    not above 0.8, [solveKeplerEquation] returns 0, whatever the
    eccentricity else is (NaN included), as soon as the sine of 0 is 0:
    the iteration starts from [E = M]. *)
Theorem solveKeplerEquation_at_periapsis (M e : float) :
  Math_sin 0 = 0 ->
  normalizeAngle M = 0 -> (0.8 <? e) = false ->
  solveKeplerEquation M e = 0.
Proof.
  intros Hsin HM He. unfold solveKeplerEquation.
  rewrite HM, He, (newtonRaphson_at_zero 50 e Hsin). reflexivity.
Qed.

End SolverFacts.

Lemma solveKeplerEquation_at_periapsis_witness :
  Orbit.solveKeplerEquation (lib := OrbitScenes.roundedLibrary)
    (2 * JSNumber.Math_PI) 0.5 = 0.
Proof.
  apply (@solveKeplerEquation_at_periapsis OrbitScenes.roundedLibrary);
    reflexivity.
Defined.

(** [normalizeAngle] returns the angles of [[0, 2π)], and NaN, as they
    are: the remainder of the division by 2π leaves such an angle alone,
    bit for bit, and nothing is added to it. *)
Theorem normalizeAngle_fixes_normalized (angle : float) :
  OrbitSpec.normalized angle = true -> Orbit.normalizeAngle angle = angle.
Proof.
  unfold OrbitSpec.normalized. intros H.
  apply orb_true_iff in H. destruct H as [H|H].
  - apply is_nan_eq in H. subst angle. reflexivity.
  - apply andb_true_iff in H. destruct H as [H0 H1].
    unfold Orbit.normalizeAngle.
    rewrite (remainder_small angle (2 * JSNumber.Math_PI)
               (abs_ltb_of_range _ _ H0 H1)).
    rewrite (FloatFacts.leb_ltb_false _ _ H0). reflexivity.
Qed.

Lemma normalizeAngle_fixes_normalized_witness :
  Orbit.normalizeAngle 6.2831853071795853 = 6.2831853071795853.
Proof. apply normalizeAngle_fixes_normalized. reflexivity. Defined.

(** ** The task store: points for a completed objective *)

Section TaskStoreFacts.
Import JS Types Tasks TaskStore.
Local Open Scope float_scope.

Lemma oid_markCompleted o : oid (markCompleted o) = oid o.
Proof. destruct o; reflexivity. Qed.

Lemma is_completed_markCompleted o : is_completed (markCompleted o) = true.
Proof. destruct o; reflexivity. Qed.

Lemma oid_applyUpdates updates o : oid (applyUpdates updates o) = oid o.
Proof. destruct o; reflexivity. Qed.

(** [find] by id through a [map] that keeps the ids. *)
Lemma find_id_map (g : Objective -> Objective) id l :
  (forall o, oid (g o) = oid o) ->
  find (fun o => String.eqb (oid o) id) (map g l)
  = option_map g (find (fun o => String.eqb (oid o) id) l).
Proof.
  intros Hg. induction l as [|o rest IH]; [reflexivity|].
  cbn [map find]. rewrite Hg.
  destruct (String.eqb (oid o) id); [reflexivity | exact IH].
Qed.

End TaskStoreFacts.

(** [completeObjective] awards the points of an objective once: calling it
    a second time with the same id changes nothing, whatever the store
    holds (an unknown id and an objective that is already completed change
    nothing the first time either). *)
Theorem completeObjective_awards_once
    (id : string) (s : TaskStore.TaskState) :
  TaskStore.completeObjective id (TaskStore.completeObjective id s)
  = TaskStore.completeObjective id s.
Proof.
  destruct (find (fun obj => String.eqb (Tasks.oid obj) id)
              (TaskStore.objectives s)) as [objective|] eqn:Ef.
  - destruct (Tasks.is_completed objective) eqn:Ec.
    + unfold TaskStore.completeObjective. rewrite Ef, Ec, Ef, Ec. reflexivity.
    + assert (Hs : TaskStore.completeObjective id s
                   = let updatedObjectives :=
                       map (fun obj => if String.eqb (Tasks.oid obj) id
                                       then TaskStore.markCompleted obj
                                       else obj)
                           (TaskStore.objectives s) in
                     TaskStore.mkTaskState updatedObjectives
                       (TaskStore.score s + Tasks.points (Tasks.base objective))
                       (TaskStore.gameTime s)
                       (negb (forallb Tasks.is_completed updatedObjectives))
                       (if forallb Tasks.is_completed updatedObjectives
                        then None else TaskStore.lastTimerUpdate s)).
      { unfold TaskStore.completeObjective. rewrite Ef, Ec. reflexivity. }
      rewrite Hs. cbv zeta. unfold TaskStore.completeObjective.
      cbn [TaskStore.objectives].
      rewrite (find_id_map
                 (fun obj => if String.eqb (Tasks.oid obj) id
                             then TaskStore.markCompleted obj else obj)).
      * rewrite Ef. cbn [option_map].
        apply find_some in Ef. destruct Ef as [_ Hid]. rewrite Hid.
        rewrite is_completed_markCompleted. reflexivity.
      * intros o. destruct (String.eqb (Tasks.oid o) id);
          [apply oid_markCompleted | reflexivity].
  - unfold TaskStore.completeObjective. rewrite Ef, Ef. reflexivity.
Qed.

(** A store with one inspect point worth 10 points: the first call awards
    10 points and stops the timer, the second changes nothing. *)
Example completeObjective_inspect_point :
  let s := TaskStore.setObjectives [Scenes.inspectOrigin] 1000
             TaskStore.initial in
  let s1 := TaskStore.completeObjective "inspect-1" s in
  TaskStore.score s = 0 /\ TaskStore.timerRunning s = true /\
  TaskStore.score s1 = 10 /\ TaskStore.timerRunning s1 = false /\
  TaskStore.completeObjective "inspect-1" s1 = s1 /\
  TaskStore.completeObjective "unknown" s = s.
Proof. cbv zeta. repeat split; vm_compute; reflexivity. Qed.

(** ** A tick and the score *)

Section TickFacts.
Import JS Types Tasks TaskStore TickCompletion.
Local Open Scope float_scope.

Lemma map_other_id (g : Objective -> Objective) id l :
  (forall o, In o l -> oid o <> id) ->
  map (fun o => if String.eqb (oid o) id then g o else o) l = l.
Proof.
  intros H. induction l as [|o rest IH]; [reflexivity|].
  cbn [map]. rewrite IH by (intros o' Ho'; apply H; right; exact Ho').
  destruct (String.eqb_spec (oid o) id) as [E|E]; [|reflexivity].
  exfalso. apply (H o); [left; reflexivity | exact E].
Qed.

Lemma find_other_id id l :
  (forall o, In o l -> oid o <> id) ->
  find (fun o => String.eqb (oid o) id) l = None.
Proof.
  intros H. induction l as [|o rest IH]; [reflexivity|].
  cbn [find].
  destruct (String.eqb_spec (oid o) id) as [E|E].
  - exfalso. apply (H o); [left; reflexivity | exact E].
  - apply IH. intros o' Ho'. apply H. right. exact Ho'.
Qed.

Lemma find_app_other id l1 l2 :
  (forall o, In o l1 -> oid o <> id) ->
  find (fun o => String.eqb (oid o) id) (l1 ++ l2)
  = find (fun o => String.eqb (oid o) id) l2.
Proof.
  intros H. induction l1 as [|o rest IH]; [reflexivity|].
  cbn [app find].
  destruct (String.eqb_spec (oid o) id) as [E|E].
  - exfalso. apply (H o); [left; reflexivity | exact E].
  - apply IH. intros o' Ho'. apply H. right. exact Ho'.
Qed.

(** In an array with distinct ids, the ids before and after a slot differ
    from the id of the slot. *)
Lemma NoDup_ids_split pre o suf :
  NoDup (map oid (pre ++ o :: suf)) ->
  (forall x, In x pre -> oid x <> oid o) /\
  (forall x, In x suf -> oid x <> oid o).
Proof.
  rewrite map_app. cbn [map]. intros H.
  apply NoDup_remove_2 in H. split; intros x Hx E; apply H, in_or_app.
  - left. rewrite <- E. apply in_map. exact Hx.
  - right. rewrite <- E. apply in_map. exact Hx.
Qed.

Lemma same_ids_other (l l' : list Objective) id :
  map oid l' = map oid l ->
  (forall x, In x l -> oid x <> id) -> forall x, In x l' -> oid x <> id.
Proof.
  intros Hids H x Hx E.
  assert (Hin : In id (map oid l')) by (rewrite <- E; apply in_map; exact Hx).
  rewrite Hids in Hin. apply in_map_iff in Hin.
  destruct Hin as (y & Ey & Hy). exact (H y Hy Ey).
Qed.

Lemma oid_committed obj cur stored :
  oid (committed obj cur stored) = oid stored.
Proof.
  unfold committed. cbv zeta. destruct (hasKeys _); [|reflexivity].
  apply oid_applyUpdates.
Qed.

Lemma is_completed_applyUpdates updates o :
  is_completed (applyUpdates updates o)
  = orElse (upd_completed updates) (is_completed o).
Proof. destruct o; reflexivity. Qed.

(** The first loop writes the completed flag of the copy on a stored
    objective that has the flag the component read. *)
Lemma is_completed_committed obj cur stored :
  is_completed stored = is_completed cur ->
  is_completed (committed obj cur stored) = is_completed obj.
Proof.
  intros Hflag. unfold committed. cbv zeta.
  destruct (hasKeys (completionUpdates obj cur)) eqn:Hk.
  - rewrite is_completed_applyUpdates. unfold completionUpdates.
    cbn [upd_completed].
    destruct (Bool.eqb (is_completed obj) (is_completed cur)) eqn:E;
      [|reflexivity].
    cbn [orElse]. apply eqb_prop in E. congruence.
  - unfold hasKeys, completionUpdates in Hk. cbn [upd_completed] in Hk.
    destruct (Bool.eqb (is_completed obj) (is_completed cur)) eqn:E;
      [|discriminate Hk].
    apply eqb_prop in E. congruence.
Qed.

Lemma fst_updateObjectiveState objectives agents simTime :
  fst (updateObjectiveState objectives agents simTime)
  = map (fun o => fst (Tasks.updateObjective agents simTime o)) objectives.
Proof.
  induction objectives as [|o rest IH]; [reflexivity|].
  cbn [updateObjectiveState map].
  destruct (Tasks.updateObjective agents simTime o) as [o1 pushed].
  destruct (updateObjectiveState rest agents simTime) as [rest' more].
  cbn [fst] in *. rewrite IH. reflexivity.
Qed.

(** The first loop, slot by slot: with distinct ids, the body for a slot of
    the copy reaches the objective of the store in the same slot and no
    other, and nothing but the objectives of the store changes. *)
Lemma commit_loop (f : Objective -> Objective) :
  (forall o, oid (f o) = oid o) ->
  forall suf suf_stored pre_orig pre_done store,
    objectives store = pre_done ++ suf_stored ->
    map oid pre_done = map oid pre_orig ->
    map oid suf_stored = map oid suf ->
    NoDup (map oid (pre_orig ++ suf)) ->
    let store1 :=
      fold_left (fun st obj => commitObjective (pre_orig ++ suf) obj st)
        (map f suf) store in
    objectives store1
    = pre_done
      ++ map (fun p => committed (f (fst p)) (fst p) (snd p))
           (combine suf suf_stored) /\
    score store1 = score store /\
    gameTime store1 = gameTime store /\
    timerRunning store1 = timerRunning store /\
    lastTimerUpdate store1 = lastTimerUpdate store.
Proof.
  intros Hf. induction suf as [|o suf' IH];
    intros suf_stored pre_orig pre_done store Hobj Hids Hsuf_ids Hnd.
  - destruct suf_stored; [|discriminate].
    cbn. rewrite Hobj. repeat split; reflexivity.
  - destruct suf_stored as [|st suf_stored']; [discriminate|].
    cbn [map] in Hsuf_ids. injection Hsuf_ids as Hst Hsuf_ids.
    cbn [map fold_left combine fst snd].
    destruct (NoDup_ids_split pre_orig o suf' Hnd) as [Hpre Hsuf].
    assert (Hstep :
      commitObjective (pre_orig ++ o :: suf') (f o) store
      = with_objectives (pre_done ++ committed (f o) o st :: suf_stored')
          store).
    { unfold commitObjective. rewrite Hf.
      rewrite (find_app_other (oid o) pre_orig (o :: suf') Hpre).
      cbn [find]. rewrite String.eqb_refl. cbv zeta.
      unfold committed. cbv zeta.
      destruct (hasKeys (completionUpdates (f o) o)).
      - unfold updateObjective. f_equal. rewrite Hobj, map_app.
        cbn [map]. rewrite Hst, String.eqb_refl.
        rewrite (map_other_id _ (oid o) pre_done)
          by (eapply same_ids_other; eassumption).
        rewrite (map_other_id _ (oid o) suf_stored')
          by (eapply same_ids_other; eassumption).
        reflexivity.
      - unfold with_objectives. rewrite <- Hobj. destruct store; reflexivity. }
    rewrite Hstep.
    replace (pre_orig ++ o :: suf') with ((pre_orig ++ [o]) ++ suf')
      by (rewrite <- app_assoc; reflexivity).
    destruct (IH suf_stored' (pre_orig ++ [o])
                (pre_done ++ [committed (f o) o st])
                (with_objectives
                   (pre_done ++ committed (f o) o st :: suf_stored') store))
      as (H1 & H2 & H3 & H4 & H5).
    + cbn [with_objectives objectives]. rewrite <- app_assoc. reflexivity.
    + rewrite !map_app. cbn [map]. rewrite oid_committed, Hids, Hst.
      reflexivity.
    + exact Hsuf_ids.
    + rewrite <- app_assoc. exact Hnd.
    + cbv zeta in H1, H2, H3, H4, H5.
      rewrite H1, H2, H3, H4, H5. rewrite <- app_assoc.
      repeat split; reflexivity.
Qed.

(** The second loop changes nothing when every id it is given names a
    completed objective of the store. *)
Lemma complete_loop ids store :
  (forall id, In id ids ->
     exists o, find (fun x => String.eqb (oid x) id) (objectives store)
               = Some o /\ is_completed o = true) ->
  fold_left (fun st id => completeObjective id st) ids store = store.
Proof.
  induction ids as [|id rest IH]; intros H; [reflexivity|].
  cbn [fold_left].
  assert (Hid : completeObjective id store = store).
  { destruct (H id (or_introl eq_refl)) as (o & Hfind & Hc).
    unfold completeObjective. rewrite Hfind, Hc. reflexivity. }
  rewrite Hid. apply IH. intros id' Hin. apply H. right. exact Hin.
Qed.

Lemma find_unique_id objectives o :
  NoDup (map oid objectives) -> In o objectives ->
  find (fun x => String.eqb (oid x) (oid o)) objectives = Some o.
Proof.
  intros Hnd Hin. apply in_split in Hin. destruct Hin as (pre & suf & ->).
  destruct (NoDup_ids_split pre o suf Hnd) as [Hpre _].
  rewrite (find_app_other (oid o) pre (o :: suf) Hpre).
  cbn [find]. rewrite String.eqb_refl. reflexivity.
Qed.

Lemma agrees_ids l stored :
  Forall2 agrees l stored -> map oid stored = map oid l.
Proof.
  induction 1 as [|o st l stored [Hid _] _ IH]; cbn; congruence.
Qed.

Lemma committed_ids (f : Objective -> Objective) l stored :
  Forall2 agrees l stored ->
  map oid (map (fun p => committed (f (fst p)) (fst p) (snd p))
             (combine l stored))
  = map oid l.
Proof.
  induction 1 as [|o st l stored [Hid _] _ IH]; cbn; [reflexivity|].
  rewrite oid_committed, Hid, IH. reflexivity.
Qed.

Lemma committed_flags (f : Objective -> Objective) l stored :
  Forall2 agrees l stored ->
  map is_completed
    (map (fun p => committed (f (fst p)) (fst p) (snd p)) (combine l stored))
  = map is_completed (map f l).
Proof.
  induction 1 as [|o st l stored [_ Hflag] _ IH]; cbn; [reflexivity|].
  rewrite is_completed_committed, IH by exact Hflag. reflexivity.
Qed.

Lemma committed_in (f : Objective -> Objective) l stored o :
  Forall2 agrees l stored -> In o l ->
  exists st,
    In (committed (f o) o st)
      (map (fun p => committed (f (fst p)) (fst p) (snd p))
         (combine l stored)) /\
    agrees o st.
Proof.
  induction 1 as [|o' st' l stored Hag _ IH]; intros Hin; [destruct Hin|].
  destruct Hin as [-> | Hin].
  - exists st'. split; [left; reflexivity | exact Hag].
  - destruct (IH Hin) as (st & Hst & Hagr).
    exists st. split; [right; exact Hst | exact Hagr].
Qed.

Lemma completionPhase_store objectives agents simTime store :
  NoDup (map oid objectives) ->
  Forall2 agrees objectives (TaskStore.objectives store) ->
  completionPhase objectives agents simTime store
  = with_objectives
      (map (fun p =>
              committed (fst (Tasks.updateObjective agents simTime (fst p)))
                (fst p) (snd p))
         (combine objectives (TaskStore.objectives store))) store.
Proof.
  intros Hnd Hag. unfold completionPhase.
  pose proof (fst_updateObjectiveState objectives agents simTime) as Hcopy.
  pose proof (fun id => updateObjectiveState_returned objectives agents
                          simTime id) as Hret.
  destruct (updateObjectiveState objectives agents simTime)
    as [copy newly]. cbn [fst snd] in Hcopy, Hret. subst copy.
  unfold commitCompletion. cbv zeta.
  set (f := fun o => fst (Tasks.updateObjective agents simTime o)).
  assert (Hf : forall o, oid (f o) = oid o).
  { intros o. unfold f. apply updateObjective_props. }
  destruct (commit_loop f Hf objectives (TaskStore.objectives store) [] []
              store eq_refl eq_refl (agrees_ids _ _ Hag) Hnd)
    as (H1 & H2 & H3 & H4 & H5).
  cbn [app] in H1, H2, H3, H4, H5. cbv zeta in H1, H2, H3, H4, H5.
  set (store1 := fold_left _ (map f objectives) store) in *.
  change (map (fun p =>
                 committed
                   (fst (Tasks.updateObjective agents simTime (fst p)))
                   (fst p) (snd p))
            (combine objectives (TaskStore.objectives store)))
    with (map (fun p => committed (f (fst p)) (fst p) (snd p))
            (combine objectives (TaskStore.objectives store))).
  rewrite complete_loop.
  - unfold with_objectives. rewrite <- H2, <- H3, <- H4, <- H5, <- H1.
    destruct store1; reflexivity.
  - intros id Hin.
    assert (Hinc : includes newly id = true).
    { unfold includes. apply existsb_exists. exists id.
      split; [exact Hin | apply String.eqb_refl]. }
    rewrite Hret in Hinc. apply existsb_exists in Hinc.
    destruct Hinc as (o & Ho & Hcond).
    apply andb_true_iff in Hcond. destruct Hcond as [Hid Hcond].
    apply andb_true_iff in Hcond. destruct Hcond as [_ Hdone].
    apply String.eqb_eq in Hid. subst id.
    destruct (committed_in f objectives (TaskStore.objectives store) o Hag Ho)
      as (st & Hst & [Hsid Hsflag]).
    exists (committed (f o) o st). rewrite H1. split.
    + replace (oid o) with (oid (committed (f o) o st))
        by (rewrite oid_committed; exact Hsid).
      apply find_unique_id; [|exact Hst].
      rewrite (committed_ids f _ _ Hag). exact Hnd.
    + rewrite is_completed_committed by exact Hsflag. exact Hdone.
Qed.

End TickFacts.

(** A tick never awards points.  When the objectives have distinct ids and
    the store holds, slot by slot, objectives with the ids and the
    completed flags of those the component read (their assignments may have
    been updated since), the tick's update of the store (the updates that
    follow [updateObjectiveState], then [completeObjective] on every newly
    completed id) writes the completed flags that [updateObjectiveState]
    has set and keeps the ids, but leaves the score, the game time and the
    timer flag as they were: every [completeObjective] call finds its
    objective already marked completed by the update just before, and
    returns without awarding its points. *)
Theorem completionPhase_awards_no_points
    (objectives : list Tasks.Objective) (agents : list Types.Agent)
    (simTime : float) (store : TaskStore.TaskState) :
  NoDup (map Tasks.oid objectives) ->
  Forall2 TickCompletion.agrees objectives (TaskStore.objectives store) ->
  let store' :=
    TickCompletion.completionPhase objectives agents simTime store in
  TaskStore.score store' = TaskStore.score store /\
  TaskStore.gameTime store' = TaskStore.gameTime store /\
  TaskStore.timerRunning store' = TaskStore.timerRunning store /\
  map Tasks.oid (TaskStore.objectives store') = map Tasks.oid objectives /\
  map Tasks.is_completed (TaskStore.objectives store')
  = map Tasks.is_completed
      (fst (Tasks.updateObjectiveState objectives agents simTime)).
Proof.
  intros Hnd Hag. cbv zeta.
  rewrite (completionPhase_store objectives agents simTime store Hnd Hag).
  cbn [TaskStore.with_objectives TaskStore.score TaskStore.gameTime
       TaskStore.timerRunning TaskStore.objectives].
  split; [reflexivity|]. split; [reflexivity|]. split; [reflexivity|].
  rewrite fst_updateObjectiveState. split.
  - apply (committed_ids
             (fun o => fst (Tasks.updateObjective agents simTime o))
             _ _ Hag).
  - apply (committed_flags
             (fun o => fst (Tasks.updateObjective agents simTime o))
             _ _ Hag).
Qed.

(** A store with the inspect point worth 10 points, and a tick in which an
    agent completes it: the objective is marked completed in the store, the
    score is still 0 and the timer still runs. *)
Lemma completionPhase_awards_no_points_witness :
  let store :=
    TaskStore.setObjectives [Scenes.inspectOrigin] 1000 TaskStore.initial in
  let store' :=
    TickCompletion.completionPhase [Scenes.inspectOrigin] Scenes.pair 1
      store in
  TaskStore.score store' = TaskStore.score store /\
  TaskStore.gameTime store' = TaskStore.gameTime store /\
  TaskStore.timerRunning store' = TaskStore.timerRunning store /\
  map Tasks.oid (TaskStore.objectives store') = ["inspect-1"%string] /\
  map Tasks.is_completed (TaskStore.objectives store')
  = map Tasks.is_completed
      (fst (Tasks.updateObjectiveState [Scenes.inspectOrigin] Scenes.pair 1)).
Proof.
  apply (completionPhase_awards_no_points [Scenes.inspectOrigin] Scenes.pair 1
           (TaskStore.setObjectives [Scenes.inspectOrigin] 1000
              TaskStore.initial)).
  - repeat constructor. intros [].
  - repeat constructor.
Defined.

Example completionPhase_inspect_point :
  let store :=
    TaskStore.setObjectives [Scenes.inspectOrigin] 1000 TaskStore.initial in
  let store' :=
    TickCompletion.completionPhase [Scenes.inspectOrigin] Scenes.pair 1
      store in
  snd (Tasks.updateObjectiveState [Scenes.inspectOrigin] Scenes.pair 1)
  = ["inspect-1"%string] /\
  map Tasks.is_completed (TaskStore.objectives store') = [true] /\
  TaskStore.score store' = 0 /\ TaskStore.timerRunning store' = true.
Proof. cbv zeta. repeat split; vm_compute; reflexivity. Qed.

(** ** Swarm forces: one adjustment per agent *)

Section SwarmForceFacts.
Import Types JSNumber LocalFrame Swarm Behaviors Formations SwarmSystem.
Context {lib : MathLibrary}.

Lemma findIndex_bound id activeAgents : forall i k,
  findIndex id i activeAgents = Some k ->
  (i <= k < i + List.length activeAgents)%nat.
Proof.
  induction activeAgents as [|a rest IH]; intros i k; cbn; [discriminate|].
  destruct (String.eqb (agent_id a) id).
  - intros [= <-]. lia.
  - intros H. apply IH in H. lia.
Qed.

Lemma computeCohesion_in_range agents k localFrame params :
  (k < List.length agents)%nat ->
  computeCohesion agents k localFrame params <> None.
Proof.
  intros Hk. unfold computeCohesion.
  destruct (Nat.leb _ 1); [discriminate|].
  destruct (nth_error agents k) as [agent|] eqn:E;
    [|apply nth_error_None in E; lia].
  destruct (local_position agent) as [[px py] pz].
  destruct (neighborLoop _ _ _ _ _) as [[[sumX sumY] sumZ] count].
  destruct (Nat.eqb count 0); [discriminate|].
  cbv zeta. destruct (_ <? _); discriminate.
Qed.

Lemma computeSeparation_in_range agents k localFrame params :
  (k < List.length agents)%nat ->
  computeSeparation agents k localFrame params <> None.
Proof.
  intros Hk. unfold computeSeparation.
  destruct (Nat.leb _ 1); [discriminate|].
  destruct (nth_error agents k) as [agent|] eqn:E;
    [|apply nth_error_None in E; lia].
  destruct (local_position agent) as [[px py] pz]. discriminate.
Qed.

Lemma computeAlignment_in_range agents k localFrame params :
  (k < List.length agents)%nat ->
  computeAlignment agents k localFrame params <> None.
Proof.
  intros Hk. unfold computeAlignment.
  destruct (Nat.leb _ 1); [discriminate|].
  destruct (nth_error agents k) as [agent|] eqn:E;
    [|apply nth_error_None in E; lia].
  destruct (local_position agent) as [[px py] pz].
  destruct (local_velocity agent) as [[vx vy] vz].
  destruct (neighborLoop _ _ _ _ _) as [[[sumX sumY] sumZ] count].
  destruct (Nat.eqb count 0); discriminate.
Qed.

Lemma getFormationTarget_positive formation k n params :
  (0 < n)%nat -> getFormationTarget formation k n params <> None.
Proof.
  intros Hn. unfold getFormationTarget, computeRingFormation,
    computePlaneFormation, computeLatticeFormation.
  destruct n as [|n]; [lia|].
  destruct formation as [[]|]; cbn; discriminate.
Qed.

Lemma formationSteering_in_range formation k n localState params v :
  (0 < n)%nat ->
  exists v', formationSteering formation k n (Some localState) params v
             = inr v'.
Proof.
  intros Hn. unfold formationSteering.
  pose proof (getFormationTarget_positive (Some formation) k n None Hn) as H.
  destruct (getFormationTarget _ _ _ _) as [[[[tr ta] tc]|]|];
    [| eexists; reflexivity | congruence].
  destruct (local_position localState) as [[pr pa] pc]. cbv zeta.
  destruct (_ <? _); eexists; reflexivity.
Qed.

(** The loop body never throws when the local states are those of the
    active agents, and pushes zero for an agent without behaviours. *)
Lemma adjustmentFor_outcome activeAgents localStates localFrame params agent :
  List.length localStates = List.length activeAgents ->
  exists adjustment,
    adjustmentFor activeAgents localStates localFrame params agent
    = inr adjustment /\
    (isActive (behaviors agent) = false ->
     adjustment = mkVelocityAdjustment (0, 0, 0)).
Proof.
  intros Hlen. unfold adjustmentFor, isActive.
  destruct (cohesion (behaviors agent)), (separation (behaviors agent)),
    (alignment (behaviors agent));
    cbn [negb andb orb].
  all: destruct (formation (behaviors agent)) as [f|] eqn:Ef;
    cbn [negb andb orb].
  all: try (eexists; split; [reflexivity | intros _; reflexivity]).
  all: destruct (findIndex _ 0 activeAgents) as [k|] eqn:Ek;
    [|eexists; split; [reflexivity | discriminate]].
  all: apply findIndex_bound in Ek.
  all: assert (Hk : (k < List.length localStates)%nat) by lia.
  all: assert (Hn : (0 < List.length activeAgents)%nat) by lia.
  all: pose proof (computeCohesion_in_range localStates k localFrame params Hk)
    as Hc.
  all: pose proof
    (computeSeparation_in_range localStates k localFrame params Hk) as Hs.
  all: pose proof
    (computeAlignment_in_range localStates k localFrame params Hk) as Ha.
  all: destruct (nth_error localStates k) as [localState|] eqn:El;
    [|apply nth_error_None in El; lia].
  all: try destruct (computeCohesion _ _ _ _) as [c|]; try congruence.
  all: try destruct (computeSeparation _ _ _ _) as [s|]; try congruence.
  all: try destruct (computeAlignment _ _ _ _) as [a|]; try congruence.
  all: cbv zeta.
  all: try match goal with
    | |- context [formationSteering ?f ?k ?n (Some ?ls) ?p ?v] =>
      destruct (formationSteering_in_range f k n ls p v Hn) as [v' ->]
    end.
  all: eexists; split; [reflexivity | discriminate].
Qed.

Lemma adjustmentLoop_outcome activeAgents localStates localFrame params :
  List.length localStates = List.length activeAgents ->
  forall agents,
  exists adjustments,
    adjustmentLoop activeAgents localStates localFrame params agents
    = inr adjustments /\
    List.length adjustments = List.length agents /\
    forall i agent,
      nth_error agents i = Some agent ->
      isActive (behaviors agent) = false ->
      nth_error adjustments i = Some (mkVelocityAdjustment (0, 0, 0)).
Proof.
  intros Hlen. induction agents as [|agent rest IH].
  - exists []. cbn. repeat split; auto. intros [|i] agent; discriminate.
  - cbn [adjustmentLoop].
    destruct (adjustmentFor_outcome activeAgents localStates localFrame
                params agent Hlen) as (adjustment & -> & Hzero).
    destruct IH as (adjustments & -> & Hl & Hrest).
    exists (adjustment :: adjustments). cbn [List.length].
    split; [reflexivity|]. split; [congruence|].
    intros [|i] agent' Hn Hinactive; cbn in *.
    + injection Hn as <-. rewrite Hzero by assumption. reflexivity.
    + eapply Hrest; eassumption.
Qed.

Lemma computeCentroid_outcome states :
  match computeCentroid states with
  | inl err => err = EmptyArray /\ states = []
  | inr _ => states <> []
  end.
Proof.
  unfold computeCentroid.
  destruct states as [|s rest]; cbn [List.length Nat.eqb].
  - auto.
  - destruct (fold_left _ _ _) as [[[a b] c] [[d e] f]]. discriminate.
Qed.

Lemma computeLocalFrame_error referenceState err :
  computeLocalFrame referenceState = inl err -> err = TooCloseToCenter.
Proof.
  unfold computeLocalFrame.
  destruct (position referenceState) as [[rx ry] rz].
  destruct (velocity referenceState) as [[vx vy] vz]. cbv zeta.
  destruct (_ <? 1e-6); [congruence|].
  destruct (_ <? 1e-6); discriminate.
Qed.

Lemma computeSwarmForces_outcome agents params deltaTime :
  match computeSwarmForces agents params deltaTime with
  | inr adjustments =>
    List.length adjustments = List.length agents /\
    forall i agent,
      nth_error agents i = Some agent ->
      isActive (behaviors agent) = false ->
      nth_error adjustments i = Some (mkVelocityAdjustment (0, 0, 0))
  | inl err => err = Frame TooCloseToCenter
  end.
Proof.
  unfold computeSwarmForces.
  destruct (Nat.eqb (List.length agents) 0) eqn:E0.
  { apply Nat.eqb_eq in E0. split; [auto|].
    destruct agents; [|discriminate]. intros [|i] agent; discriminate. }
  destruct (Nat.eqb (List.length (filter _ agents)) 0) eqn:E1.
  { split; [apply length_map|].
    intros i agent Hn _. rewrite nth_error_map, Hn. reflexivity. }
  pose proof (computeCentroid_outcome
                (map state (filter (fun agent => isActive (behaviors agent))
                              agents))) as Hc.
  destruct (computeCentroid _) as [err|centroidState].
  { destruct Hc as [_ Hc]. apply map_eq_nil in Hc. rewrite Hc in E1.
    discriminate. }
  destruct (computeLocalFrame centroidState) as [err|localFrame] eqn:Ef.
  { apply computeLocalFrame_error in Ef. congruence. }
  match goal with
  | |- context [adjustmentLoop ?act ?ls ?lf ?p ?ag] =>
    destruct (adjustmentLoop_outcome act ls lf p (length_map _ _) ag)
      as (adjustments & -> & H)
  end.
  exact H.
Qed.

End SwarmForceFacts.

(** [computeSwarmForces] returns one adjustment per agent, in the order of
    [agents], and the zero adjustment for every agent that has no behaviour
    switched on.  The only error it can end with is the one of
    [computeLocalFrame], for a centroid of the active agents closer than
    1e-6 to the centre: no index leaves the arrays of active agents and no
    formation is asked for zero agents. *)
Theorem computeSwarmForces_one_adjustment_per_agent
    {lib : JSNumber.MathLibrary} (agents : list Types.Agent)
    (params : Swarm.BehaviorParams) (deltaTime : float) :
  match SwarmSystem.computeSwarmForces agents params deltaTime with
  | inr adjustments =>
    List.length adjustments = List.length agents /\
    forall i agent,
      nth_error agents i = Some agent ->
      SwarmSystem.isActive (Types.behaviors agent) = false ->
      nth_error adjustments i = Some (Swarm.mkVelocityAdjustment (0, 0, 0))
  | inl err =>
    err = SwarmSystem.Frame LocalFrame.TooCloseToCenter /\
    exists centroidState,
      LocalFrame.computeCentroid
        (map Types.state
           (filter (fun agent => SwarmSystem.isActive (Types.behaviors agent))
              agents))
      = inr centroidState /\
      LocalFrame.computeLocalFrame centroidState
      = inl LocalFrame.TooCloseToCenter
  end.
Proof.
  pose proof (computeSwarmForces_outcome agents params deltaTime) as H.
  destruct (SwarmSystem.computeSwarmForces agents params deltaTime)
    as [err|adjustments] eqn:E; [|exact H].
  split; [exact H|]. subst err.
  unfold SwarmSystem.computeSwarmForces in E.
  destruct (Nat.eqb (List.length agents) 0); [discriminate|].
  destruct (Nat.eqb (List.length (filter _ agents)) 0); [discriminate|].
  destruct (LocalFrame.computeCentroid _) as [err|centroidState] eqn:Ec.
  - pose proof (computeCentroid_outcome
      (map Types.state
         (filter (fun agent => SwarmSystem.isActive (Types.behaviors agent))
            agents))) as Hc.
    rewrite Ec in Hc. destruct Hc as [-> _]. discriminate.
  - exists centroidState. split; [reflexivity|].
    destruct (LocalFrame.computeLocalFrame centroidState)
      as [err|localFrame] eqn:Ef.
    + apply computeLocalFrame_error in Ef. congruence.
    + destruct (adjustmentLoop_outcome
        (filter (fun agent => SwarmSystem.isActive (Types.behaviors agent))
           agents)
        (map (fun agent => LocalFrame.eciToLocalFrame (Types.state agent)
                localFrame)
           (filter (fun agent => SwarmSystem.isActive (Types.behaviors agent))
              agents))
        localFrame params (length_map _ _) agents) as (adjs & Hadj & _).
      rewrite Hadj in E. discriminate.
Qed.

(** ** The velocity adjustments of a tick *)

Section TickSteeringFacts.
Import Types JSNumber LocalFrame Swarm SeparationSpec Tasks Steering.
Import SwarmSystem TickSteering.
Context {lib : MathLibrary}.

Lemma combineFrom_outcome objectiveAdjustments :
  forall swarmAdjustments index,
    (index + List.length swarmAdjustments
     <= List.length objectiveAdjustments)%nat ->
    exists velocityAdjustments,
      combineFrom index swarmAdjustments objectiveAdjustments
      = Some velocityAdjustments /\
      List.length velocityAdjustments = List.length swarmAdjustments.
Proof.
  induction swarmAdjustments as [|swarmAdj rest IH]; intros index Hlen.
  - exists []. split; reflexivity.
  - cbn [combineFrom]. cbn [List.length] in Hlen.
    destruct (nth_error objectiveAdjustments index) as [objAdj|] eqn:E;
      [|apply nth_error_None in E; lia].
    destruct (delta swarmAdj) as [[s0 s1] s2].
    destruct (delta objAdj) as [[o0 o1] o2].
    destruct (IH (S index)) as (rest' & -> & Hl); [lia|].
    eexists. split; [reflexivity|]. cbn. congruence.
Qed.

End TickSteeringFacts.

(** Without objectives the frame callback hands [enforceMinimumSeparation]
    the auto-navigated agents and their own swarm adjustments: the pass
    never reads outside the array.  The callback gets one adjustment per
    auto-navigated agent, or the error of [computeLocalFrame]. *)
Theorem adjustmentsWithoutObjectives_one_per_auto_agent
    {lib : JSNumber.MathLibrary} (agents : list Types.Agent)
    (simDelta : float) :
  match TickSteering.adjustmentsWithoutObjectives agents simDelta with
  | inr velocityAdjustments =>
    List.length velocityAdjustments
    = List.length (TickSteering.autoAgents agents)
  | inl err =>
    err = TickSteering.SwarmFailure
            (SwarmSystem.Frame LocalFrame.TooCloseToCenter)
  end.
Proof.
  unfold TickSteering.adjustmentsWithoutObjectives.
  pose proof (computeSwarmForces_outcome (TickSteering.autoAgents agents)
                Swarm.DEFAULT_BEHAVIOR_PARAMS simDelta) as H.
  destruct (SwarmSystem.computeSwarmForces _ _ _) as [err|adjustments];
    [congruence|].
  destruct H as [Hlen _].
  rewrite enforceMinimumSeparation_processPairs.
  pose proof (processPairs_outcome (TickSteering.autoAgents agents)
                Swarm.DEFAULT_BEHAVIOR_PARAMS
                (SeparationSpec.separationPairs
                   (List.length (TickSteering.autoAgents agents)))
                adjustments) as Hp.
  destruct (SeparationSpec.processPairs _ _ _ _) as [after|].
  - destruct Hp as [Hl _]. congruence.
  - destruct Hp as (i & j & a & b & Hin & _ & _ & _ & Hshort).
    apply in_separationPairs in Hin. lia.
Qed.

(** With objectives the frame callback hands [enforceMinimumSeparation]
    the array of all agents, with the adjustments of the auto-navigated
    agents only.  It ends with the [TypeError] of a missing adjustment
    exactly when the swarm forces were computed and two agents
    [agents[i]], [agents[j]], [i < j], closer than the minimum separation
    have [j] at or beyond the number of auto-navigated agents. *)
Theorem adjustmentsWithObjectives_missing_adjustment
    {lib : JSNumber.MathLibrary} (agents : list Types.Agent)
    (objectives : list Tasks.Objective) (simDelta : float) :
  TickSteering.adjustmentsWithObjectives agents objectives simDelta
  = inl TickSteering.MissingAdjustment
  <->
  (exists swarmAdjustments,
     SwarmSystem.computeSwarmForces (TickSteering.autoAgents agents)
       Swarm.DEFAULT_BEHAVIOR_PARAMS simDelta = inr swarmAdjustments) /\
  exists i j a b,
    (i < j)%nat /\
    nth_error agents i = Some a /\ nth_error agents j = Some b /\
    SeparationSpec.repulsion Swarm.DEFAULT_BEHAVIOR_PARAMS
      (Types.position (Types.state a)) (Types.position (Types.state b))
    <> None /\
    (List.length (TickSteering.autoAgents agents) <= j)%nat.
Proof.
  unfold TickSteering.adjustmentsWithObjectives.
  pose proof (computeSwarmForces_outcome (TickSteering.autoAgents agents)
                Swarm.DEFAULT_BEHAVIOR_PARAMS simDelta) as H.
  destruct (SwarmSystem.computeSwarmForces _ _ _) as [err|swarmAdjustments].
  { split; [discriminate|]. intros [[sw Hsw] _]. discriminate. }
  destruct H as [Hlen _].
  destruct (combineFrom_outcome
              (Steering.computeObjectiveSteeringBatch
                 (TickSteering.autoAgents agents) objectives
                 Tasks.DEFAULT_OBJECTIVE_STEERING_PARAMS)
              swarmAdjustments 0) as (velocityAdjustments & -> & Hl).
  { unfold Steering.computeObjectiveSteeringBatch. rewrite length_map.
    cbn. lia. }
  pose proof (enforceMinimumSeparation_short agents velocityAdjustments
                Swarm.DEFAULT_BEHAVIOR_PARAMS) as Hs.
  rewrite Hl, Hlen in Hs.
  destruct (Swarm.enforceMinimumSeparation _ _ _) as [after|].
  - split; [discriminate|]. intros [_ Hpair].
    apply Hs in Hpair. discriminate.
  - split; [intros _|reflexivity].
    split; [eexists; reflexivity|]. apply Hs. reflexivity.
Qed.

(** The selected agent of [Scenes.escorted] has no adjustment of its own,
    and is 500 m from the other agent: the callback ends with the
    [TypeError]; without objectives it does not. *)
Example adjustmentsWithObjectives_selected_agent
    {lib : JSNumber.MathLibrary} :
  TickSteering.adjustmentsWithObjectives Scenes.escorted
    [Scenes.inspectOrigin] 1
  = inl TickSteering.MissingAdjustment /\
  TickSteering.adjustmentsWithoutObjectives Scenes.escorted 1
  = inr [Swarm.mkVelocityAdjustment (0, 0, 0)].
Proof. split; vm_compute; reflexivity. Qed.

(** The two agents of [Scenes.flock] with cohesion are pulled towards each
    other along the line that joins them, with the cohesion weight; the
    agent between them, without behaviours, is left alone. *)
Example computeSwarmForces_flock {lib : JSNumber.MathLibrary} :
  SwarmSystem.computeSwarmForces Scenes.flock Swarm.DEFAULT_BEHAVIOR_PARAMS 1
  = inr [Swarm.mkVelocityAdjustment (0, 0.1, 0);
         Swarm.mkVelocityAdjustment (0, 0, 0);
         Swarm.mkVelocityAdjustment (0, -0.1, 0)].
Proof. vm_compute. reflexivity. Qed.

(** Five agents in the plane formation fill a 3 by 3 grid row by row,
    centred on the origin of the frame; no agents, no formation. *)
Example computePlaneFormation_five {lib : JSNumber.MathLibrary} :
  map (fun agentIndex => Formations.computePlaneFormation agentIndex 5 None)
    (seq 0 5)
  = [Some (0, -5000, -5000); Some (0, 0, -5000); Some (0, 5000, -5000);
     Some (0, -5000, 0); Some (0, 0, 0)] /\
  Formations.computePlaneFormation 0 0 None = None.
Proof. split; vm_compute; reflexivity. Qed.

(** ** The agent store *)

Section AgentStoreFacts.
Import Types LocalFrame Maneuvers DeltaV AgentStore.

Lemma applyDeltaV_result state dvVector dvRemaining result :
  applyDeltaV state dvVector dvRemaining = inr result ->
  position (newState result) = position state /\
  (newDvRemaining result <? 0) = false.
Proof.
  unfold applyDeltaV. destruct (dvRemaining <? 0); [discriminate|].
  destruct dvVector as [[dvx dvy] dvz].
  destruct (dvRemaining <? _); [discriminate|].
  destruct (velocity state) as [[vx vy] vz].
  intros [= <-]. split; [reflexivity | apply Math_max_zero_not_negative].
Qed.

Lemma find_id_unique (agents : list Agent) id agent a :
  NoDup (map agent_id agents) ->
  find (fun a => String.eqb (agent_id a) id) agents = Some agent ->
  In a agents -> agent_id a = id -> a = agent.
Proof.
  induction agents as [|b rest IH]; cbn; [discriminate|].
  intros Hnd Hfind Hin Hid. inversion Hnd as [|? ? Hnotin Hnd']; subst.
  destruct (String.eqb (agent_id b) (agent_id a)) eqn:E.
  - injection Hfind as <-. apply String.eqb_eq in E.
    destruct Hin as [-> | Hin]; [reflexivity|].
    exfalso. apply Hnotin. rewrite E. apply in_map. exact Hin.
  - destruct Hin as [-> | Hin]; [rewrite String.eqb_refl in E; discriminate|].
    apply IH; auto.
Qed.

Lemma Forall2_map_in {A B} (f : A -> B) (P : A -> B -> Prop) (l : list A) :
  (forall a, In a l -> P a (f a)) -> Forall2 P l (map f l).
Proof.
  induction l as [|a l IH]; intros H; cbn; constructor.
  - apply H. left. reflexivity.
  - apply IH. intros b Hb. apply H. right. exact Hb.
Qed.

End AgentStoreFacts.

(** A burn through the store, on agents with distinct ids, changes nothing
    but the velocity and the budget of the agent with the given id: the
    selection, the order of the agents, every other agent and the position
    of the burning agent stay as they are, and the budget left is not
    negative.  An id that no agent has leaves the store as it is. *)
Theorem applyDeltaVToAgent_burns_one_agent
    (id : string) (rtnVector : vec3) (s s' : AgentStore.AgentState) :
  NoDup (map Types.agent_id (AgentStore.agents s)) ->
  AgentStore.applyDeltaVToAgent id rtnVector s = inr s' ->
  AgentStore.selectedAgentId s' = AgentStore.selectedAgentId s /\
  AgentStore.hoveredAgentId s' = AgentStore.hoveredAgentId s /\
  Forall2
    (fun a a' =>
       Types.agent_id a' = Types.agent_id a /\
       Types.position (Types.state a') = Types.position (Types.state a) /\
       Types.behaviors a' = Types.behaviors a /\
       Types.team a' = Types.team a /\
       Types.selected a' = Types.selected a /\
       Types.hovered a' = Types.hovered a /\
       (Types.agent_id a <> id -> a' = a) /\
       (Types.agent_id a = id -> (Types.dvRemaining a' <? 0) = false))
    (AgentStore.agents s) (AgentStore.agents s') /\
  (find (fun a => String.eqb (Types.agent_id a) id) (AgentStore.agents s)
   = None -> s' = s).
Proof.
  intros Hnd. unfold AgentStore.applyDeltaVToAgent.
  destruct (find _ (AgentStore.agents s)) as [agent|] eqn:Efind.
  - destruct (Maneuvers.rtnToEci rtnVector (Types.state agent))
      as [err|dvVector]; [discriminate|].
    destruct (DeltaV.applyDeltaV _ _ _) as [err|result] eqn:Eburn;
      [discriminate|].
    apply applyDeltaV_result in Eburn. destruct Eburn as [Hpos Hbudget].
    intros [= <-]. cbn.
    split; [reflexivity|]. split; [reflexivity|]. split; [|discriminate].
    apply Forall2_map_in. intros a Hin.
    destruct (String.eqb (Types.agent_id a) id) eqn:E.
    + apply String.eqb_eq in E.
      rewrite (find_id_unique _ _ _ _ Hnd Efind Hin E). cbn.
      repeat split; auto. intros Hne. apply find_some in Efind.
      destruct Efind as [_ Hid]. apply String.eqb_eq in Hid. congruence.
    + apply String.eqb_neq in E. repeat split; auto. congruence.
  - intros [= <-]. split; [reflexivity|]. split; [reflexivity|].
    split; [|reflexivity].
    rewrite <- (map_id (AgentStore.agents s)) at 2.
    apply Forall2_map_in. intros a Hin. repeat split; auto.
    intros Hid. exfalso.
    apply (find_none _ _ Efind) in Hin. apply String.eqb_neq in Hin.
    congruence.
Qed.

(** A prograde burn of 3 m/s on [sat-1] of three agents: its velocity and
    its budget change, nothing else does. *)
Lemma applyDeltaVToAgent_burns_one_agent_witness :
  let s := AgentStore.mkAgentState Samples.trio (Some "sat-2"%string) None in
  let s' :=
    AgentStore.mkAgentState
      [AgentStore.with_burn
         (Types.mkCartesianState (7000500, 0, 0) (0, 7503, 0)) 997
         (Samples.agentAt "sat-1" (7000500, 0, 0) (0, 7500, 0));
       Samples.agentAt "sat-2" (7000000, 0, 0) (0, 7500, 0);
       Samples.agentAt "sat-3" (7005500, 0, 0) (0, 7500, 0)]
      (Some "sat-2"%string) None in
  AgentStore.selectedAgentId s' = AgentStore.selectedAgentId s /\
  AgentStore.hoveredAgentId s' = AgentStore.hoveredAgentId s /\
  Forall2
    (fun a a' =>
       Types.agent_id a' = Types.agent_id a /\
       Types.position (Types.state a') = Types.position (Types.state a) /\
       Types.behaviors a' = Types.behaviors a /\
       Types.team a' = Types.team a /\
       Types.selected a' = Types.selected a /\
       Types.hovered a' = Types.hovered a /\
       (Types.agent_id a <> "sat-1"%string -> a' = a) /\
       (Types.agent_id a = "sat-1"%string ->
        (Types.dvRemaining a' <? 0) = false))
    (AgentStore.agents s) (AgentStore.agents s') /\
  (find (fun a => String.eqb (Types.agent_id a) "sat-1")
     (AgentStore.agents s) = None -> s' = s).
Proof.
  apply (applyDeltaVToAgent_burns_one_agent "sat-1" (0, 3, 0)
           (AgentStore.mkAgentState Samples.trio (Some "sat-2"%string) None)).
  - repeat constructor; cbn; intuition discriminate.
  - vm_compute. reflexivity.
Defined.

(** A burn beyond the budget, and a burn from a position at the centre, are
    rethrown and leave no new state; an unknown id is ignored. *)
Example applyDeltaVToAgent_refused :
  let s := AgentStore.mkAgentState Samples.trio None None in
  AgentStore.applyDeltaVToAgent "sat-1" (600, 800, 1) s
  = inl (AgentStore.BurnRefused DeltaV.BudgetExceeded) /\
  AgentStore.applyDeltaVToAgent "sat-0" (0, 1, 0)
    (AgentStore.mkAgentState
       [Samples.agentAt "sat-0" (0, 0, 0) (0, 7500, 0)] None None)
  = inl (AgentStore.FrameFailure LocalFrame.TooCloseToCenter) /\
  AgentStore.applyDeltaVToAgent "sat-9" (600, 800, 1) s = inr s.
Proof. cbv zeta. repeat split; vm_compute; reflexivity. Qed.

Section SelectionFacts.
Import Types Tasks AgentStore TickSteering.

Lemma isId_with_selected id b a :
  isId id (with_selected b a) = isId id a.
Proof. destruct id; reflexivity. Qed.

Lemma includes_selected_ids id (agents : list Agent) a' :
  let agents' := map (fun a => with_selected (isId id a) a) agents in
  In a' agents' ->
  includes (playerControlledIds agents') (agent_id a') = isId id a'.
Proof.
  intros agents' Hin. unfold includes, playerControlledIds.
  destruct (isId id a') eqn:Ea.
  - apply existsb_exists. exists (agent_id a'). split.
    + apply in_map. apply filter_In. split; [exact Hin|].
      apply in_map_iff in Hin. destruct Hin as (a & <- & _).
      rewrite isId_with_selected in Ea. unfold isSelected. cbn. exact Ea.
    + apply String.eqb_refl.
  - apply not_true_iff_false. intros H. apply existsb_exists in H.
    destruct H as (x & Hx & Heq). apply String.eqb_eq in Heq. subst x.
    apply in_map_iff in Hx. destruct Hx as (b' & Hid & Hb').
    apply filter_In in Hb'. destruct Hb' as [Hb' Hsel].
    apply in_map_iff in Hb'. destruct Hb' as (b & <- & _).
    unfold isSelected in Hsel. cbn in Hsel, Hid.
    destruct id as [id|]; cbn in *; [|discriminate].
    apply String.eqb_eq in Hsel. rewrite Hid in Hsel.
    apply String.eqb_neq in Ea. contradiction.
Qed.

End SelectionFacts.

(** After [selectAgent(id)] the frame callback treats exactly the agents
    with that id as player-controlled and all others as auto-navigated;
    after [selectAgent(null)] or [clearSelection()] every agent is
    auto-navigated. *)
Theorem selectAgent_splits_the_agents
    (id : option string) (s : AgentStore.AgentState) :
  let agents' := AgentStore.agents (AgentStore.selectAgent id s) in
  let cleared := AgentStore.agents (AgentStore.clearSelection s) in
  TickSteering.playerControlledAgents agents'
  = filter (AgentStore.isId id) agents' /\
  TickSteering.autoAgents agents'
  = filter (fun a => negb (AgentStore.isId id a)) agents' /\
  TickSteering.playerControlledAgents cleared = [] /\
  TickSteering.autoAgents cleared = cleared.
Proof.
  assert (Hsplit : forall id,
    let agents' := AgentStore.agents (AgentStore.selectAgent id s) in
    TickSteering.playerControlledAgents agents'
    = filter (AgentStore.isId id) agents' /\
    TickSteering.autoAgents agents'
    = filter (fun a => negb (AgentStore.isId id a)) agents').
  { intros id0 agents0. split.
    - apply filter_ext_in. intros a Ha.
      apply (includes_selected_ids id0 (AgentStore.agents s) a Ha).
    - apply filter_ext_in. intros a Ha. f_equal.
      apply (includes_selected_ids id0 (AgentStore.agents s) a Ha). }
  intros agents' cleared.
  destruct (Hsplit id) as [Hp Ha]. split; [exact Hp|]. split; [exact Ha|].
  destruct (Hsplit None) as [Hp0 Ha0].
  change (AgentStore.agents (AgentStore.selectAgent None s)) with cleared
    in Hp0, Ha0.
  rewrite Hp0, Ha0. cbn [AgentStore.isId negb]. split.
  - generalize cleared as l. induction l; auto.
  - generalize cleared as l. induction l as [|a l IH]; cbn; congruence.
Qed.

Section BatchFacts.
Import Types AgentStore.

Lemma find_app_split {A} (p : A -> bool) (l1 l2 : list A) :
  find p (l1 ++ l2)
  = match find p l1 with Some x => Some x | None => find p l2 end.
Proof.
  induction l1 as [|x l1 IH]; cbn; [reflexivity|].
  destruct (p x); auto.
Qed.

Lemma updateMap_from (updates : list (string * CartesianState)) :
  forall m key,
    fold_left
      (fun m u key => if String.eqb key (fst u) then Some (snd u) else m key)
      updates m key
    = match find (fun u => String.eqb key (fst u)) (rev updates) with
      | Some u => Some (snd u)
      | None => m key
      end.
Proof.
  induction updates as [|u rest IH]; intros m key; cbn; [reflexivity|].
  rewrite IH, find_app_split.
  destruct (find _ (rev rest)); [reflexivity|].
  cbn. destruct (String.eqb key (fst u)); reflexivity.
Qed.

End BatchFacts.

(** [updateAgentsBatch] keeps the agents in place and changes states only:
    an agent named by an update gets the state of the last update that
    names it, an agent that no update names is left as it is. *)
Theorem updateAgentsBatch_last_update_wins
    (updates : list (string * Types.CartesianState))
    (s : AgentStore.AgentState) :
  let s' := AgentStore.updateAgentsBatch updates s in
  AgentStore.selectedAgentId s' = AgentStore.selectedAgentId s /\
  AgentStore.hoveredAgentId s' = AgentStore.hoveredAgentId s /\
  AgentStore.agents s'
  = map (fun agent =>
           match find (fun u => String.eqb (Types.agent_id agent) (fst u))
                   (rev updates) with
           | Some u => AgentStore.with_state (snd u) agent
           | None => agent
           end) (AgentStore.agents s).
Proof.
  cbv zeta. split; [reflexivity|]. split; [reflexivity|].
  unfold AgentStore.updateAgentsBatch, AgentStore.updateMap. cbn.
  apply map_ext. intros agent. rewrite updateMap_from.
  destruct (find _ (rev updates)); reflexivity.
Qed.

(** ** Burns in the local frame *)

(** A state whose velocity is along its position has no angular momentum,
    and its frame is not a triad: the along-track axis is the radial axis.
    A burn of (1, -1, 0) is no burn at all, and a burn of (1, 1, 0) is a
    burn of 2 m/s. *)
Example rtnToEci_without_angular_momentum :
  let falling := Types.mkCartesianState (7000000, 0, 0) (100, 0, 0) in
  Maneuvers.rtnToEci (1, -1, 0) falling = inr (0, 0, 0) /\
  Maneuvers.rtnToEci (1, 1, 0) falling = inr (2, 0, 0).
Proof. cbv zeta. split; vm_compute; reflexivity. Qed.

(** The rotation of [rtnToEci] rounds: an along-track burn of 3 m/s comes
    out with a magnitude above 3 (3.0000000000000004), so that
    [applyDeltaV] refuses it for a budget of exactly 3 m/s, and
    [applyDeltaVToAgent] rethrows the refusal. *)
Theorem applyDeltaVToAgent_refuses_a_rounded_burn :
  let coasting :=
    Types.mkCartesianState (5000000, 4000000, 3000000) (-3000, 5000, 2000) in
  let dvVector :=
    (-2.0620639965338157, 2.0721228452973954, 0.67394286715983265) in
  let agent :=
    Types.mkAgent "sat-1" coasting
      (Types.mkBehaviorFlags false false false None) Types.friendly 3
      None None in
  Maneuvers.rtnToEci (0, 3, 0) coasting = inr dvVector /\
  DeltaV.applyDeltaV coasting dvVector 3 = inl DeltaV.BudgetExceeded /\
  AgentStore.applyDeltaVToAgent "sat-1" (0, 3, 0)
    (AgentStore.mkAgentState [agent] None None)
  = inl (AgentStore.BurnRefused DeltaV.BudgetExceeded).
Proof. cbv zeta. repeat split; vm_compute; reflexivity. Qed.
